(** * market-intel-agent: the run pipeline and its structured-output extractor

    A shallow embedding of [src/market_intel.py] (the agents and
    [_parse_json]) and of [src/app.py] (the run executor, the run table and
    the event stream), followed by the properties of the specification.

    Conventions.
    - A Python [str] is the list of its Unicode code points ([pystr]).
    - A value decoded from JSON is a [json] tree; a [dict] keeps its
      insertion order, as Python's does.
    - A call that can raise returns an [outcome]; code that writes to the
      run's queue or calls a collaborator is a function of an explicit
      [state].
    - The reasoning service, the search service and [repr] are variables
      of the sections that use them: the properties hold for whatever
      they return or raise.  A search hit carries the four fields
      [data_agent] reads, each a string or absent, and the body of a
      request is taken as Flask decoded it.
    - What the interpreter decides and the source does not fix is a
      parameter, [interp]: how deep [json.loads] may nest before the
      scanner's recursion check fails, the limit on the digits of an
      integer converted from text, and [repr] of the float a literal
      denotes.  A JSON float is kept as that text.
    - [print] is taken to succeed: standard output accepts every line.
      The interpreter raises [UnicodeEncodeError] when a line cannot be
      encoded (a lone surrogate, under UTF-8).  What a service answers is
      the answer to a call that was made, after the lines before it were
      printed; the properties that need the later lines of a run to be
      accepted say so ([printable]).

    Layout.  Part I holds the definitions: text, decoded values, the
    interpreter, [json.loads], [_parse_json], [json.dumps], the agents, the
    executor and the routes, then the predicates the properties use, sample data,
    and [Store], a second embedding of the agents and the executor over a
    heap of lists and dicts, where results are references and
    [list.append] writes in place; then the terminal report and the
    command-line pipeline of [market_intel.py], and the stream route with
    the readers of a run.  Part II holds the properties: those of the
    specification first, then that a run on the store changes the queue,
    the log and the requests exactly as the run of the executor does
    ([store_refines]) and what a stage may write to the heap, then further
    properties of the code. *)

From stdpp Require Import gmap list strings.
From Stdlib Require Import NArith ZArith Lia DecimalString.

Set Warnings "-register-all".

(** ** Python text *)

Definition pystr := list N.

(** The code points of an ASCII literal. *)
Definition py (s : string) : pystr :=
  map (fun a => Ascii.N_of_ascii a) (String.list_ascii_of_string s).
Arguments py : simpl never.

Definition DQUOTE : N := 34.
Definition BACKSLASH : N := 92.
Definition NEWLINE : N := 10.

(** The two characters of the Python literal for an escaped newline. *)
Definition ESCAPED_NEWLINE : pystr := [BACKSLASH; 110%N].

(** [str.isspace] for one code point: the characters [str.strip] removes. *)
Definition isspace (c : N) : bool :=
  ((9 <=? c) && (c <=? 13) || (28 <=? c) && (c <=? 32)
   || (c =? 133) || (c =? 160) || (c =? 5760)
   || (8192 <=? c) && (c <=? 8202)
   || (c =? 8232) || (c =? 8233) || (c =? 8239) || (c =? 8287)
   || (c =? 12288))%N.

Fixpoint lstrip (s : pystr) : pystr :=
  match s with
  | c :: s' => if isspace c then lstrip s' else s
  | [] => []
  end.

Definition rstrip (s : pystr) : pystr := reverse (lstrip (reverse s)).

(** [s.strip()] *)
Definition strip (s : pystr) : pystr := rstrip (lstrip s).

(** [s.startswith(p)] *)
Fixpoint startswith (p s : pystr) : bool :=
  match p, s with
  | [], _ => true
  | a :: p', b :: s' => (a =? b)%N && startswith p' s'
  | _ :: _, [] => false
  end.

(** [s.endswith(p)] *)
Definition endswith (p s : pystr) : bool :=
  startswith (reverse p) (reverse s).

(** [sep.join(parts)] *)
Fixpoint join (sep : pystr) (parts : list pystr) : pystr :=
  match parts with
  | [] => []
  | [x] => x
  | x :: rest => x ++ sep ++ join sep rest
  end.

(** [s.replace(old, new)] for a one-character [old]. *)
Definition replace_char (old : N) (new : pystr) (s : pystr) : pystr :=
  flat_map (fun c => if (c =? old)%N then new else [c]) s.

(** [str(n)] for an integer. *)
Definition str_of_Z (z : Z) : pystr := py (NilZero.string_of_int (Z.to_int z)).

(** ** Decoded JSON values *)

(** What [json.loads] builds.  A float is kept as the text [repr] gives
    for it ([nan], [inf] and [-inf] for the three that are not finite): no
    claim depends on its numeric value. *)
Inductive json : Type :=
| JNull
| JBool (b : bool)
| JInt (z : Z)
| JFloat (repr : pystr)
| JStr (s : pystr)
| JArr (items : list json)
| JObj (pairs : list (pystr * json)).

Definition pystr_eqb (a b : pystr) : bool := bool_decide (a = b).

(** [d.get(key)] on the pairs of a dict. *)
Fixpoint dict_lookup (key : pystr) (d : list (pystr * json)) : option json :=
  match d with
  | [] => None
  | (k, v) :: d' => if pystr_eqb k key then Some v else dict_lookup key d'
  end.

(** [d[key] = v]: a present key keeps its place, a new one goes last. *)
Fixpoint dict_set (key : pystr) (v : json) (d : list (pystr * json))
  : list (pystr * json) :=
  match d with
  | [] => [(key, v)]
  | (k, w) :: d' =>
      if pystr_eqb k key then (k, v) :: d' else (k, w) :: dict_set key v d'
  end.

(** The dict built from the pairs of an object literal, read left to
    right. *)
Definition dict_of_pairs (ps : list (pystr * json)) : list (pystr * json) :=
  fold_left (fun d kv => dict_set kv.1 kv.2 d) ps [].

(** ** The interpreter *)

(** What the program takes from the interpreter it runs on.
    - [max_depth]: how many arrays and objects, one inside the other, the
      scanner of [json.loads] may enter.  Entering one more fails the
      interpreter's recursion check ([RecursionError]); the number depends
      on the Python version, its recursion limit and the frames in use at
      the call.
    - [max_str_digits]: [sys.get_int_max_str_digits()], the most digits an
      integer converted from text may have (4300 by default); 0 means no
      limit.
    - [float_repr]: [repr(float(literal))] for the literal of a JSON
      number that has a fraction or an exponent. *)
Record interpreter := Interpreter {
  max_depth : nat;
  max_str_digits : nat;
  float_repr : pystr -> pystr
}.

(** ** [json.loads] *)

(** How a scan ends: the value and what follows it; malformed text
    ([json.JSONDecodeError]); an integer with more digits than
    [max_str_digits] (the [ValueError] of [int]); an array ([true]) or an
    object ([false]) nested deeper than [max_depth] ([RecursionError]); or
    the scanner's fuel is used up, which does not happen (see
    [scan_once_fuel]). *)
Inductive parsed (A : Type) : Type :=
| Parsed (a : A) (rest : pystr)
| Invalid
| Overlong
| Overdeep (array : bool)
| Exhausted.
Arguments Parsed {A} a rest.
Arguments Invalid {A}.
Arguments Overlong {A}.
Arguments Overdeep {A} array.
Arguments Exhausted {A}.

(** A scan that did not give a value, as the result of the scan around
    it. *)
Definition stopped {A B} (p : parsed A) : parsed B :=
  match p with
  | Parsed _ _ | Invalid => Invalid
  | Overlong => Overlong
  | Overdeep array => Overdeep array
  | Exhausted => Exhausted
  end.

Definition is_json_ws (c : N) : bool :=
  ((c =? 32) || (c =? 9) || (c =? 10) || (c =? 13))%N.

Fixpoint skip_ws (s : pystr) : pystr :=
  match s with
  | c :: s' => if is_json_ws c then skip_ws s' else s
  | [] => []
  end.

Definition is_digit (c : N) : bool := ((48 <=? c) && (c <=? 57))%N.

Definition hex_digit (c : N) : option N :=
  if is_digit c then Some (c - 48)%N
  else if ((97 <=? c) && (c <=? 102))%N then Some (c - 87)%N
  else if ((65 <=? c) && (c <=? 70))%N then Some (c - 55)%N
  else None.

Definition hex4 (a b c d : N) : option N :=
  match hex_digit a, hex_digit b, hex_digit c, hex_digit d with
  | Some x, Some y, Some z, Some w => Some (((x * 16 + y) * 16 + z) * 16 + w)%N
  | _, _, _, _ => None
  end.

Definition is_high_surrogate (u : N) : bool := ((55296 <=? u) && (u <=? 56319))%N.
Definition is_low_surrogate (u : N) : bool := ((56320 <=? u) && (u <=? 57343))%N.
Definition join_surrogates (hi lo : N) : N :=
  (65536 + ((hi - 55296) * 1024 + (lo - 56320)))%N.

(** The character a two-character escape stands for. *)
Definition simple_escape (e : N) : option N :=
  if (e =? 34)%N then Some 34%N
  else if (e =? 92)%N then Some 92%N
  else if (e =? 47)%N then Some 47%N
  else if (e =? 98)%N then Some 8%N
  else if (e =? 102)%N then Some 12%N
  else if (e =? 110)%N then Some 10%N
  else if (e =? 114)%N then Some 13%N
  else if (e =? 116)%N then Some 9%N
  else None.

Definition push (c : N) (r : option (pystr * pystr)) : option (pystr * pystr) :=
  match r with
  | Some (s, rest) => Some (c :: s, rest)
  | None => None
  end.

(** The body of a string, read from just after its opening quote (strict
    mode: a raw control character is an error).  Returns the decoded text
    and what follows the closing quote. *)
Fixpoint scanstring (s : pystr) : option (pystr * pystr) :=
  match s with
  | [] => None
  | c :: s1 =>
      if (c =? 34)%N then Some ([], s1)
      else if (c =? 92)%N then
        match s1 with
        | [] => None
        | e :: s2 =>
            if (e =? 117)%N then
              match s2 with
              | h1 :: h2 :: h3 :: h4 :: s6 =>
                  match hex4 h1 h2 h3 h4 with
                  | None => None
                  | Some u =>
                      if is_high_surrogate u then
                        match s6 with
                        | b :: u' :: l1 :: l2 :: l3 :: l4 :: s12 =>
                            if ((b =? 92) && (u' =? 117))%N then
                              match hex4 l1 l2 l3 l4 with
                              | None => None
                              | Some lo =>
                                  if is_low_surrogate lo
                                  then push (join_surrogates u lo) (scanstring s12)
                                  else push u (scanstring s6)
                              end
                            else push u (scanstring s6)
                        | _ => push u (scanstring s6)
                        end
                      else push u (scanstring s6)
                  end
              | _ => None
              end
            else
              match simple_escape e with
              | Some ch => push ch (scanstring s2)
              | None => None
              end
        end
      else if (c <=? 31)%N then None
      else push c (scanstring s1)
  end.

(** The longest prefix of ASCII digits, and the rest. *)
Fixpoint span_digits (s : pystr) : pystr * pystr :=
  match s with
  | c :: s' =>
      if is_digit c then let '(ds, r) := span_digits s' in (c :: ds, r)
      else ([], s)
  | [] => ([], [])
  end.

Definition digits_value (ds : pystr) : Z :=
  fold_left (fun acc d => acc * 10 + Z.of_N (d - 48))%Z ds 0%Z.

Section Decoder.
Variable interp : interpreter.

(** [int(digits)] refuses more than [max_str_digits] digits. *)
Definition too_many_digits (digits : pystr) : bool :=
  (0 <? max_str_digits interp)%nat && (max_str_digits interp <? length digits)%nat.

(** A number: an optional minus sign, an integer part (a single zero, or a
    non-zero digit and any digits), an optional fraction (a dot and at least
    one digit) and an optional exponent (e or E, an optional sign, at least
    one digit).  It is an integer when it has neither fraction nor exponent;
    a fraction or exponent that lacks its digits is not part of the
    number. *)
Definition match_number (s : pystr) : parsed json :=
  let '(neg, s1) :=
    match s with
    | c :: s' => if (c =? 45)%N then (true, s') else (false, s)
    | [] => (false, s)
    end in
  match s1 with
  | [] => Invalid
  | d :: s2 =>
      if is_digit d then
        let '(ip, s3) :=
          if (d =? 48)%N then ([d], s2) else span_digits s1 in
        let '(frac, s4) :=
          match s3 with
          | c :: s3' =>
              if (c =? 46)%N then
                let '(fd, r) := span_digits s3' in
                match fd with [] => ([], s3) | _ => (c :: fd, r) end
              else ([], s3)
          | [] => ([], s3)
          end in
        let '(ex, s5) :=
          match s4 with
          | e :: s4' =>
              if ((e =? 101) || (e =? 69))%N then
                let '(sg, s4'') :=
                  match s4' with
                  | g :: t =>
                      if ((g =? 43) || (g =? 45))%N then ([g], t) else ([], s4')
                  | [] => ([], s4')
                  end in
                let '(ed, r) := span_digits s4'' in
                match ed with [] => ([], s4) | _ => (e :: sg ++ ed, r) end
              else ([], s4)
          | [] => ([], s4)
          end in
        match frac, ex with
        | [], [] =>
            if too_many_digits ip then Overlong
            else Parsed (JInt (if neg then - digits_value ip else digits_value ip)%Z) s5
        | _, _ =>
            Parsed (JFloat (float_repr interp
                              ((if neg then [45%N] else []) ++ ip ++ frac ++ ex))) s5
        end
      else Invalid
  end.

(** [s] starts with the keyword [kw]: what is left after it. *)
Definition after_prefix (kw s : pystr) : option pystr :=
  if startswith kw s then Some (drop (length kw) s) else None.

(** A named constant or a number, tried in the scanner's order. *)
Definition scan_atom (s : pystr) : parsed json :=
  match after_prefix (py "null") s with
  | Some r => Parsed JNull r
  | None =>
  match after_prefix (py "true") s with
  | Some r => Parsed (JBool true) r
  | None =>
  match after_prefix (py "false") s with
  | Some r => Parsed (JBool false) r
  | None =>
  match after_prefix (py "NaN") s with
  | Some r => Parsed (JFloat (py "nan")) r
  | None =>
  match after_prefix (py "Infinity") s with
  | Some r => Parsed (JFloat (py "inf")) r
  | None =>
  match after_prefix (py "-Infinity") s with
  | Some r => Parsed (JFloat (py "-inf")) r
  | None => match_number s
  end end end end end end.

(** The recursive scanner.  [depth] is the number of arrays and objects
    that may still be entered, one inside the other: the scanner checks it
    on every ['['] and ['{'], before it reads what follows.  [fuel] bounds
    the number of calls; see [scan_once_fuel] for a bound that is always
    enough. *)
Fixpoint scan_once (fuel depth : nat) (s : pystr) {struct fuel} : parsed json :=
  match fuel with
  | O => Exhausted
  | S f =>
      match s with
      | [] => Invalid
      | c :: s1 =>
          if (c =? 34)%N then
            match scanstring s1 with
            | Some (str, r) => Parsed (JStr str) r
            | None => Invalid
            end
          else if (c =? 123)%N then
            match depth with
            | O => Overdeep false
            | S d =>
                match skip_ws s1 with
                | c' :: r =>
                    if (c' =? 125)%N then Parsed (JObj []) r
                    else
                      match parse_pairs f d (c' :: r) with
                      | Parsed ps r' => Parsed (JObj (dict_of_pairs ps)) r'
                      | p => stopped p
                      end
                | [] => Invalid
                end
            end
          else if (c =? 91)%N then
            match depth with
            | O => Overdeep true
            | S d =>
                match skip_ws s1 with
                | c' :: r =>
                    if (c' =? 93)%N then Parsed (JArr []) r
                    else
                      match parse_items f d (c' :: r) with
                      | Parsed xs r' => Parsed (JArr xs) r'
                      | p => stopped p
                      end
                | [] => Invalid
                end
            end
          else scan_atom s
      end
  end

(** The items of a non-empty array, from its first item to its [']']. *)
with parse_items (fuel depth : nat) (s : pystr) {struct fuel}
  : parsed (list json) :=
  match fuel with
  | O => Exhausted
  | S f =>
      match scan_once f depth s with
      | Parsed v r =>
          match skip_ws r with
          | c :: r1 =>
              if (c =? 93)%N then Parsed [v] r1
              else if (c =? 44)%N then
                match parse_items f depth (skip_ws r1) with
                | Parsed vs r2 => Parsed (v :: vs) r2
                | p => stopped p
                end
              else Invalid
          | [] => Invalid
          end
      | p => stopped p
      end
  end

(** The pairs of a non-empty object, from its first key to its ['}']. *)
with parse_pairs (fuel depth : nat) (s : pystr) {struct fuel}
  : parsed (list (pystr * json)) :=
  match fuel with
  | O => Exhausted
  | S f =>
      match s with
      | q :: s1 =>
          if (q =? 34)%N then
            match scanstring s1 with
            | Some (key, r) =>
                match skip_ws r with
                | c :: r1 =>
                    if (c =? 58)%N then
                      match scan_once f depth (skip_ws r1) with
                      | Parsed v r2 =>
                          match skip_ws r2 with
                          | c' :: r3 =>
                              if (c' =? 125)%N then Parsed [(key, v)] r3
                              else if (c' =? 44)%N then
                                match parse_pairs f depth (skip_ws r3) with
                                | Parsed ps r4 => Parsed ((key, v) :: ps) r4
                                | p => stopped p
                                end
                              else Invalid
                          | [] => Invalid
                          end
                      | p => stopped p
                      end
                    else Invalid
                | [] => Invalid
                end
            | None => Invalid
            end
          else Invalid
      | [] => Invalid
      end
  end.

(** Fuel that is always enough for [s]. *)
Definition scan_once_fuel (s : pystr) : nat := S (2 * length s).

Definition BOM : N := 65279.

(** How [json.loads] ends: with the decoded value, or by raising
    [json.JSONDecodeError] ([DecodeError]), the [ValueError] of an integer
    with too many digits ([DigitsError]), or [RecursionError]
    ([DepthError], at an array or at an object). *)
Inductive loaded :=
| Loaded (v : json)
| DecodeError
| DigitsError
| DepthError (array : bool).

(** [json.loads(s)] *)
Definition json_loads (s : pystr) : loaded :=
  match s with
  | c :: _ => if (c =? BOM)%N then DecodeError else
      let s0 := skip_ws s in
      match scan_once (scan_once_fuel s0) (max_depth interp) s0 with
      | Parsed v r => match skip_ws r with [] => Loaded v | _ => DecodeError end
      | Overlong => DigitsError
      | Overdeep array => DepthError array
      | Invalid | Exhausted => DecodeError
      end
  | [] => DecodeError
  end.

(** ** [_parse_json] *)

Definition FENCE : pystr := [96; 96; 96]%N.

(** [_parse_json(raw)]: it ends as its call of [json.loads] does. *)
Definition _parse_json (raw : pystr) : loaded :=
  let text := strip raw in
  let text :=
    if startswith FENCE text then
      let text := drop 3 text in
      let text := if startswith (py "json") text then drop 4 text else text in
      strip text
    else text in
  let text :=
    if endswith FENCE text then strip (take (length text - 3) text)
    else text in
  json_loads text.

End Decoder.

(** ** [json.dumps] *)

Definition hex_char (d : N) : N := if (d <? 10)%N then (48 + d)%N else (87 + d)%N.

(** The six characters of a backslash-u escape, lower-case digits. *)
Definition u_escape (u : N) : pystr :=
  [92; 117; hex_char (u / 4096); hex_char ((u / 256) mod 16);
   hex_char ((u / 16) mod 16); hex_char (u mod 16)]%N.

(** One character of a string, as [ensure_ascii=True] writes it. *)
Definition escape_char (c : N) : pystr :=
  if (c =? 34)%N then [92; 34]%N
  else if (c =? 92)%N then [92; 92]%N
  else if (c =? 10)%N then [92; 110]%N
  else if (c =? 13)%N then [92; 114]%N
  else if (c =? 9)%N then [92; 116]%N
  else if (c =? 12)%N then [92; 102]%N
  else if (c =? 8)%N then [92; 98]%N
  else if ((32 <=? c) && (c <=? 126))%N then [c]
  else if (c <? 65536)%N then u_escape c
  else
    let v := (c - 65536)%N in
    u_escape (55296 + v / 1024) ++ u_escape (56320 + v mod 1024).

Definition encode_basestring_ascii (s : pystr) : pystr :=
  [DQUOTE] ++ flat_map escape_char s ++ [DQUOTE].

(** A float, as the encoder writes it: [float.__repr__], but for the
    three that are not finite. *)
Definition floatstr (repr : pystr) : pystr :=
  if pystr_eqb repr (py "nan") then py "NaN"
  else if pystr_eqb repr (py "inf") then py "Infinity"
  else if pystr_eqb repr (py "-inf") then py "-Infinity"
  else repr.

(** [json.dumps(v)] with the default separators. *)
Fixpoint json_dumps (v : json) : pystr :=
  match v with
  | JNull => py "null"
  | JBool true => py "true"
  | JBool false => py "false"
  | JInt z => str_of_Z z
  | JFloat repr => floatstr repr
  | JStr s => encode_basestring_ascii s
  | JArr items => [91%N] ++ join (py ", ") (map json_dumps items) ++ [93%N]
  | JObj pairs =>
      [123%N]
      ++ join (py ", ")
           (map (fun kv => encode_basestring_ascii (fst kv) ++ py ": "
                           ++ json_dumps (snd kv)) pairs)
      ++ [125%N]
  end.

(** ** Exceptions and Python operations on decoded values *)

Inductive exn_class := AttributeError | TypeError | RecursionError | OtherException.

(** An exception (a subclass of [Exception]) and the text [str(exc)]
    gives. *)
Record exn := Exn { exn_cls : exn_class; exn_msg : pystr }.

Inductive outcome (A : Type) : Type :=
| Ret (a : A)
| Raise (e : exn).
Arguments Ret {A} a.
Arguments Raise {A} e.

Definition type_name (v : json) : pystr :=
  match v with
  | JNull => py "NoneType"
  | JBool _ => py "bool"
  | JInt _ => py "int"
  | JFloat _ => py "float"
  | JStr _ => py "str"
  | JArr _ => py "list"
  | JObj _ => py "dict"
  end.

Definition no_attribute (v : json) (attr : pystr) : exn :=
  Exn AttributeError
      (py "'" ++ type_name v ++ py "' object has no attribute '" ++ attr ++ py "'").

(** The [RecursionError] of the scanner, raised at an array or at an
    object. *)
Definition recursion_error (array : bool) : exn :=
  Exn RecursionError
      (py "maximum recursion depth exceeded while decoding a JSON "
       ++ (if array then py "array" else py "object")
       ++ py " from a unicode string").

(** [v.get(key, default)] *)
Definition py_get (v : json) (key : pystr) (default : json) : outcome json :=
  match v with
  | JObj d => Ret (match dict_lookup key d with Some x => x | None => default end)
  | _ => Raise (no_attribute v (py "get"))
  end.

(** The items [iter(v)] yields: those of a list, the characters of a
    string, the keys of a dict. *)
Definition py_iter (v : json) : outcome (list json) :=
  match v with
  | JArr items => Ret items
  | JStr s => Ret (map (fun c => JStr [c]) s)
  | JObj d => Ret (map (fun kv => JStr (fst kv)) d)
  | _ => Raise (Exn TypeError (py "'" ++ type_name v ++ py "' object is not iterable"))
  end.

(** The items of [v], all of which must be strings: what [sep.join(v)]
    requires. *)
Fixpoint expect_strs (i : Z) (items : list json) : outcome (list pystr) :=
  match items with
  | [] => Ret []
  | JStr s :: rest =>
      match expect_strs (i + 1) rest with
      | Ret ss => Ret (s :: ss)
      | Raise e => Raise e
      end
  | x :: _ =>
      Raise (Exn TypeError
               (py "sequence item " ++ str_of_Z i ++ py ": expected str instance, "
                ++ type_name x ++ py " found"))
  end.

(** [sep.join(v)] *)
Definition py_join (sep : pystr) (v : json) : outcome pystr :=
  match py_iter v with
  | Ret items =>
      match expect_strs 0 items with
      | Ret ss => Ret (join sep ss)
      | Raise e => Raise e
      end
  | Raise _ => Raise (Exn TypeError (py "can only join an iterable"))
  end.

(** [str(v)], as an f-string formats a decoded value.  For a string it is
    the string itself, for a float its [repr]; [repr] of a list or a dict
    is a parameter ([py_repr]). *)
Definition py_str (py_repr : json -> pystr) (v : json) : pystr :=
  match v with
  | JStr s => s
  | JNull => py "None"
  | JBool true => py "True"
  | JBool false => py "False"
  | JInt z => str_of_Z z
  | JFloat repr => repr
  | _ => py_repr v
  end.

(** ** Messages *)

Definition NL : pystr := [NEWLINE].
Definition quoted (s : pystr) : pystr := [DQUOTE] ++ s ++ [DQUOTE].

(** The pictographs of the progress messages, by code point. *)
Definition ROCKET : pystr := [128640]%N.            (* U+1F680 *)
Definition MAGNIFIER : pystr := [128269]%N.         (* U+1F50D *)
Definition CHART : pystr := [128200]%N.             (* U+1F4C8 *)
Definition BULB : pystr := [128161]%N.              (* U+1F4A1 *)
Definition WARNING : pystr := [9888; 65039]%N.      (* U+26A0 U+FE0F *)
Definition MICROPHONE : pystr := [127897; 65039]%N. (* U+1F399 U+FE0F *)
Definition CHECK_BUTTON : pystr := [9989]%N.        (* U+2705 *)
Definition CHECK_MARK : pystr := [10004]%N.         (* U+2714 *)

Definition UNABLE : pystr := py "Unable to parse structured output.".

Definition MAX_ARTICLES : nat := 5.

(** ** State, collaborators and the agents *)

(** What a run can change: the run's queue ([None] is the end-of-stream
    sentinel), what was printed, and the requests sent to the two
    services. *)
Record state := State {
  queue : list (option pystr);
  printed : list pystr;
  reka_calls : list pystr;
  tavily_calls : list pystr
}.

Definition M (A : Type) : Type := state -> outcome A * state.

Global Instance M_ret : MRet M := fun A a st => (Ret a, st).
Global Instance M_bind : MBind M := fun A B f m st =>
  match m st with
  | (Ret a, st') => f a st'
  | (Raise e, st') => (Raise e, st')
  end.

Definition lift {A} (o : outcome A) : M A := fun st => (o, st).

(** [q.put(item)] *)
Definition put (item : option pystr) (st : state) : state :=
  State (queue st ++ [item]) (printed st) (reka_calls st) (tavily_calls st).

Definition modify (f : state -> state) : M unit := fun st => (Ret tt, f st).

(** A search hit: the fields [data_agent] reads, each possibly absent. *)
Record hit := Hit {
  title : option pystr;
  url : option pystr;
  content : option pystr;
  snippet : option pystr
}.

Record article := Article {
  headline : pystr;
  source : pystr;
  summary : pystr
}.

(** [Optional[Callable[[str], None]]] *)
Definition Emitter := option (pystr -> state -> state).

(** [print(msg)].  It is taken to succeed: see [printable] for the lines
    standard output accepts. *)
Definition print (msg : pystr) : M unit :=
  modify (fun st =>
    State (queue st) (printed st ++ [msg]) (reka_calls st) (tavily_calls st)).

(** The local [log] of every agent. *)
Definition log (emit : Emitter) (msg : pystr) : M unit :=
  print msg;;
  match emit with
  | Some f => modify (f msg)
  | None => mret tt
  end.

Definition DATA_SYSTEM : pystr :=
  py "You are a concise financial news analyst. Summarise the article in one sentence.".

Definition TREND_SYSTEM : pystr :=
  py "You are a market research analyst specialising in trend detection. "
  ++ py "Return ONLY valid JSON with two keys: "
  ++ quoted (py "trends") ++ py " (list of 3 strings) and "
  ++ quoted (py "sentiment_shifts")
  ++ py " (list of strings describing sentiment changes). "
  ++ py "No markdown, no code fences.".

Definition STRATEGY_SYSTEM : pystr :=
  py "You are a senior business strategist. "
  ++ py "Return ONLY valid JSON with two keys: "
  ++ quoted (py "opportunities") ++ py " (list of 3 business opportunity strings) and "
  ++ quoted (py "recommendations")
  ++ py " (list of 3 strategic recommendation strings). "
  ++ py "No markdown, no code fences.".

Definition RISK_SYSTEM : pystr :=
  py "You are a risk analyst specialising in emerging market threats. "
  ++ py "Return ONLY valid JSON with three keys: "
  ++ quoted (py "risks") ++ py " (list of 3 market risk strings), "
  ++ quoted (py "weak_signals") ++ py " (list of 2 early warning signals), and "
  ++ quoted (py "uncertainties") ++ py " (list of 2 major uncertainty factors). "
  ++ py "No markdown, no code fences.".

Definition VOICE_SYSTEM : pystr :=
  py "You are a professional radio broadcaster. "
  ++ py "Convert the market intelligence report into a concise 60-second verbal briefing. "
  ++ py "Use natural, spoken language.".

(** The degraded results of the three [except] branches. *)
Definition trend_fallback (raw : pystr) : json :=
  JObj [(py "trends", JArr [JStr raw]);
        (py "sentiment_shifts", JArr [JStr UNABLE])].

Definition strategy_fallback (raw : pystr) : json :=
  JObj [(py "opportunities", JArr [JStr raw]);
        (py "recommendations", JArr [JStr UNABLE])].

Definition risk_fallback (raw : pystr) : json :=
  JObj [(py "risks", JArr [JStr raw]);
        (py "weak_signals", JArr [JStr UNABLE]);
        (py "uncertainties", JArr [JStr UNABLE])].

(** [try: result = _parse_json(raw)  except (JSONDecodeError, ValueError):
    result = fallback], as each of the three agents has it: the two
    exceptions of the clause are handled, a [RecursionError] is not. *)
Definition extract (interp : interpreter) (fallback : pystr -> json)
    (raw : pystr) : outcome json :=
  match _parse_json interp raw with
  | Loaded result => Ret result
  | DecodeError | DigitsError => Ret (fallback raw)
  | DepthError array => Raise (recursion_error array)
  end.

Definition article_json (a : article) : json :=
  JObj [(py "headline", JStr (headline a));
        (py "source", JStr (source a));
        (py "summary", JStr (summary a))].

Definition voice_json (voice_script : option pystr) : json :=
  match voice_script with
  | Some script => JStr script
  | None => JNull
  end.

(** The [report] dict of [_run_pipeline]. *)
Definition build_report (topic : pystr) (articles : list article)
    (trends strategy risks : json) (voice_script : option pystr) : json :=
  JObj [(py "topic", JStr topic);
        (py "articles", JArr (map article_json articles));
        (py "trends", trends);
        (py "strategy", strategy);
        (py "risks", risks);
        (py "voice_script", voice_json voice_script)].

(** [_sse(event, data)] *)
Definition _sse (event data : pystr) : pystr :=
  let payload := replace_char NEWLINE ESCAPED_NEWLINE data in
  py "event: " ++ event ++ NL ++ py "data: " ++ payload ++ NL ++ NL.

Section Pipeline.

(** The interpreter the run is on. *)
Variable interp : interpreter.

(** The reasoning service: the content it returns, or the exception the
    call raises, for the [n]-th request of the run and its message. *)
Variable reka : nat -> pystr -> outcome pystr.

(** The search service: the hits of the response (none when the response
    has no results), or the exception the request raises. *)
Variable tavily : pystr -> outcome (list hit).

(** [repr] of lists and dicts, used by [py_str]. *)
Variable py_repr : json -> pystr.

(** [_chat(system, user)] *)
Definition _chat (system user : pystr) : M pystr := fun st =>
  let message :=
    py "System Instruction: " ++ system ++ NL ++ NL
    ++ py "User Question: " ++ user in
  let st' := State (queue st) (printed st) (reka_calls st ++ [message])
                   (tavily_calls st) in
  match reka (length (reka_calls st)) message with
  | Ret text => (Ret (strip text), st')
  | Raise e => (Raise e, st')
  end.

(** The request to the search service and the [results] of its
    response. *)
Definition search (topic : pystr) : M (list hit) := fun st =>
  (tavily topic,
   State (queue st) (printed st) (reka_calls st) (tavily_calls st ++ [topic])).

(** The loop of [data_agent] over [raw_results[:MAX_ARTICLES]];
    [articles] is the list built so far. *)
Fixpoint summarise (emit : Emitter) (items : list hit)
    (articles : list article) : M (list article) :=
  match items with
  | [] => mret articles
  | item :: rest =>
      let headline := default (py "No title") (title item) in
      let source := default (py "Unknown source") (url item) in
      let content := default (default [] (snippet item)) (content item) in
      summary ← _chat DATA_SYSTEM
                  (py "Article title: " ++ headline ++ NL ++ NL
                   ++ py "Content: " ++ take 1500 content);
      let articles := articles ++ [Article headline source summary] in
      log emit (py "  " ++ CHECK_MARK ++ py " " ++ take 80 headline);;
      summarise emit rest articles
  end.

Definition data_agent (topic : pystr) (emit : Emitter) : M (list article) :=
  log emit (py "[Data Agent] " ++ MAGNIFIER ++ py " Searching news for: '"
            ++ topic ++ py "' ...");;
  raw_results ← search topic;
  match raw_results with
  | [] =>
      log emit (py "[Data Agent] " ++ WARNING
                ++ py "  No results returned from Tavily.");;
      mret []
  | _ => summarise emit (take MAX_ARTICLES raw_results) []
  end.

(** [for i, x in enumerate(xs, i): log(f"  {label} {i}: {x}")] *)
Fixpoint log_numbered (emit : Emitter) (label : pystr) (i : Z)
    (xs : list json) : M unit :=
  match xs with
  | [] => mret tt
  | x :: xs' =>
      log emit (py "  " ++ label ++ py " " ++ str_of_Z i ++ py ": "
                ++ py_str py_repr x);;
      log_numbered emit label (i + 1) xs'
  end.

(** [for i, x in enumerate(result.get(key, []), 1): log(...)] *)
Definition log_entries (emit : Emitter) (label key : pystr) (result : json)
  : M unit :=
  entries ← lift (py_get result key (JArr []));
  xs ← lift (py_iter entries);
  log_numbered emit label 1 xs.

(** ["\n".join(f"- {x}" for x in data.get(key, []))] *)
Definition bullets (data : json) (key : pystr) : M pystr :=
  entries ← lift (py_get data key (JArr []));
  xs ← lift (py_iter entries);
  mret (join NL (map (fun x => py "- " ++ py_str py_repr x) xs)).

Definition trend_agent (articles : list article) (emit : Emitter) : M json :=
  log emit (py "[Trend Agent] " ++ CHART
            ++ py " Detecting trends and sentiment shifts ...");;
  let brief :=
    join NL (map (fun a => py "- [" ++ source a ++ py "] " ++ headline a
                           ++ py ": " ++ summary a) articles) in
  raw ← _chat TREND_SYSTEM
          (py "News summaries:" ++ NL ++ brief ++ NL ++ NL
           ++ py "Identify 3 major market trends and any notable sentiment shifts.");
  result ← lift (extract interp trend_fallback raw);
  log_entries emit (py "Trend") (py "trends") result;;
  mret result.

Definition strategy_agent (trend_data : json) (emit : Emitter) : M json :=
  log emit (py "[Strategy Agent] " ++ BULB
            ++ py " Generating strategic opportunities ...");;
  trend_text ← bullets trend_data (py "trends");
  sentiment_text ← bullets trend_data (py "sentiment_shifts");
  raw ← _chat STRATEGY_SYSTEM
          (py "Market Trends:" ++ NL ++ trend_text ++ NL ++ NL
           ++ py "Sentiment Shifts:" ++ NL ++ sentiment_text ++ NL ++ NL
           ++ py "Generate concrete business opportunities and strategic recommendations.");
  result ← lift (extract interp strategy_fallback raw);
  log_entries emit (py "Opportunity") (py "opportunities") result;;
  mret result.

Definition risk_agent (trend_data strategy_data : json) (emit : Emitter)
  : M json :=
  log emit (py "[Risk Agent] " ++ WARNING
            ++ py "  Identifying risks and weak signals ...");;
  trend_text ← bullets trend_data (py "trends");
  strategy_text ← bullets strategy_data (py "recommendations");
  raw ← _chat RISK_SYSTEM
          (py "Market Trends:" ++ NL ++ trend_text ++ NL ++ NL
           ++ py "Proposed Strategies:" ++ NL ++ strategy_text ++ NL ++ NL
           ++ py "Identify the key risks, weak signals, and uncertainties.");
  result ← lift (extract interp risk_fallback raw);
  log_entries emit (py "Risk") (py "risks") result;;
  mret result.

Definition voice_agent (report_text : pystr) (emit : Emitter) : M pystr :=
  log emit (py "[Voice Agent] " ++ MICROPHONE ++ py "  Writing voice script ...");;
  _chat VOICE_SYSTEM report_text.

(** ** The executor of [app.py] *)

(** The [emit] closure of [_run_pipeline]. *)
Definition emit_q (msg : pystr) : state -> state :=
  put (Some (_sse (py "log") msg)).

Definition emit (msg : pystr) : M unit := modify (emit_q msg).

(** [data.get(key, [])] joined by [sep], as the voice brief does. *)
Definition joined (sep : pystr) (data : json) (key : pystr) : M pystr :=
  entries ← lift (py_get data key (JArr []));
  lift (py_join sep entries).

(** The optional voice step. *)
Definition voice_step (topic : pystr) (include_voice : bool)
    (trends strategy risks : json) : M (option pystr) :=
  if include_voice then
    emit (MICROPHONE ++ py "  [Voice Agent] Writing broadcast script...");;
    t ← joined (py " | ") trends (py "trends");
    o ← joined (py "; ") strategy (py "opportunities");
    r ← joined (py "; ") risks (py "risks");
    let brief :=
      py "Market Intelligence on '" ++ topic ++ py "': " ++ t ++ py ". "
      ++ py "Opportunities: " ++ o ++ py ". "
      ++ py "Key Risks: " ++ r in
    script ← voice_agent brief (Some emit_q);
    mret (Some script)
  else mret None.

(** The body of the [try] block. *)
Definition pipeline_body (topic : pystr) (include_voice : bool) : M unit :=
  emit (ROCKET ++ py " Pipeline started for topic: '" ++ topic ++ py "'");;
  emit (MAGNIFIER ++ py " [Data Agent] Searching for recent news...");;
  articles ← data_agent topic (Some emit_q);
  match articles with
  | [] =>
      modify (put (Some (_sse (py "error")
                           (py "No news articles retrieved. Pipeline aborted."))))
  | _ =>
      emit (CHART ++ py " [Trend Agent] Detecting market trends and sentiment shifts...");;
      trends ← trend_agent articles (Some emit_q);
      emit (BULB ++ py " [Strategy Agent] Generating strategic opportunities...");;
      strategy ← strategy_agent trends (Some emit_q);
      emit (WARNING ++ py "  [Risk Agent] Identifying risks and weak signals...");;
      risks ← risk_agent trends strategy (Some emit_q);
      voice_script ← voice_step topic include_voice trends strategy risks;
      let report := build_report topic articles trends strategy risks voice_script in
      emit (CHECK_BUTTON ++ py " Pipeline complete.");;
      modify (put (Some (_sse (py "done") (json_dumps report))))
  end.

(** [_run_pipeline]: the [try] body, the [except Exception] handler and
    the [finally] clause.  [st] holds the queue [_runs[run_id]]. *)
Definition _run_pipeline (topic : pystr) (include_voice : bool) (st : state)
  : state :=
  let '(r, st1) := pipeline_body topic include_voice st in
  let st2 :=
    match r with
    | Ret _ => st1
    | Raise exc =>
        put (Some (_sse (py "error") (py "Pipeline error: " ++ exn_msg exc))) st1
    end in
  put None st2.

End Pipeline.

(** ** The routes of [app.py] *)

(** [bool(v)]; whether a float is non-zero is a parameter. *)
Definition py_bool (float_nonzero : pystr -> bool) (v : json) : bool :=
  match v with
  | JNull => false
  | JBool b => b
  | JInt z => negb (z =? 0)%Z
  | JFloat repr => float_nonzero repr
  | JStr s => negb (bool_decide (s = []))
  | JArr items => negb (bool_decide (items = []))
  | JObj pairs => negb (bool_decide (pairs = []))
  end.

(** The run table [_runs] (each run's queue) and the threads started so
    far, with their arguments. *)
Record server := Server {
  _runs : gmap pystr (list (option pystr));
  threads : list (pystr * pystr * bool)
}.

(** A JSON response and its status. *)
Record response := Response { status : nat; body : json }.

(** [start_run]: [data] is the decoded request body and [uuid] the value
    [str(uuid.uuid4())] would give. *)
Definition start_run (float_nonzero : pystr -> bool) (data : json)
    (uuid : pystr) (sv : server) : outcome response * server :=
  match py_get data (py "topic") (JStr []) with
  | Raise e => (Raise e, sv)
  | Ret (JStr t) =>
      let topic := strip t in
      match topic with
      | [] => (Ret (Response 400 (JObj [(py "error", JStr (py "topic is required"))])), sv)
      | _ =>
          match py_get data (py "include_voice") (JBool true) with
          | Raise e => (Raise e, sv)
          | Ret flag =>
              let include_voice := py_bool float_nonzero flag in
              let run_id := uuid in
              (Ret (Response 200 (JObj [(py "run_id", JStr run_id)])),
               Server (<[run_id := []]> (_runs sv))
                      (threads sv ++ [(run_id, topic, include_voice)]))
          end
      end
  | Ret v => (Raise (no_attribute v (py "strip")), sv)
  end.

(** *** The stream of a run

    The executor and the generator of [stream] run concurrently on the
    run's queue.  [pending] are the writes the executor has still to make,
    in program order; [buffer] is the queue; [seen] is what the generator
    has yielded; [closed] is set when the generator has left its loop. *)
Record channel := Channel {
  pending : list (option pystr);
  buffer : list (option pystr);
  seen : list pystr;
  closed : bool
}.

Inductive step : channel -> channel -> Prop :=
| step_put item rest buf out fin :
    (* the executor's next [q.put] *)
    step (Channel (item :: rest) buf out fin)
         (Channel rest (buf ++ [item]) out fin)
| step_yield msg pend buf out :
    (* [msg = q.get()], not the sentinel: [yield msg] *)
    step (Channel pend (Some msg :: buf) out false)
         (Channel pend buf (out ++ [msg]) false)
| step_close pend buf out :
    (* [q.get()] gives the sentinel: [break] *)
    step (Channel pend (None :: buf) out false)
         (Channel pend buf out true).

(** The kind of an item of the queue, read off its first line. *)
Definition has_kind (kind : pystr) (item : pystr) : bool :=
  startswith (py "event: " ++ kind ++ NL) item.

Definition is_log : pystr -> bool := has_kind (py "log").
Definition is_error : pystr -> bool := has_kind (py "error").
Definition is_done : pystr -> bool := has_kind (py "done").

(** The progress messages of a stage: what the executor announces it with
    and what the agent logs. *)
Inductive stage := Data | Trend | Strategy | Risk | Voice.

Definition progress_prefixes (s : stage) : list pystr :=
  match s with
  | Data => [MAGNIFIER ++ py " [Data Agent]"; py "[Data Agent]";
             py "  " ++ CHECK_MARK]
  | Trend => [CHART ++ py " [Trend Agent]"; py "[Trend Agent]"; py "  Trend "]
  | Strategy => [BULB ++ py " [Strategy Agent]"; py "[Strategy Agent]";
                 py "  Opportunity "]
  | Risk => [WARNING ++ py "  [Risk Agent]"; py "[Risk Agent]"; py "  Risk "]
  | Voice => [MICROPHONE ++ py "  [Voice Agent]"; py "[Voice Agent]"]
  end.

(** [msg] is a progress message of stage [s]. *)
Definition progress_of (s : stage) (msg : pystr) : bool :=
  existsb (fun p => startswith p msg) (progress_prefixes s).

(** The item is a [log] event that carries a progress message of [s]. *)
Definition progress_event (s : stage) (item : pystr) : bool :=
  existsb (fun p => startswith (py "event: log" ++ NL ++ py "data: " ++ p) item)
          (progress_prefixes s).

(** The three structured results that are extracted from a response. *)
Inductive structured := TrendReport | StrategyReport | RiskReport.

(** The keys each is expected to have, first key first. *)
Definition expected_keys (r : structured) : list pystr :=
  match r with
  | TrendReport => [py "trends"; py "sentiment_shifts"]
  | StrategyReport => [py "opportunities"; py "recommendations"]
  | RiskReport => [py "risks"; py "weak_signals"; py "uncertainties"]
  end.

(** The [except] branch of the agent that builds it. *)
Definition fallback_of (r : structured) : pystr -> json :=
  match r with
  | TrendReport => trend_fallback
  | StrategyReport => strategy_fallback
  | RiskReport => risk_fallback
  end.

Definition item_is (k : pystr -> bool) (item : option pystr) : bool :=
  match item with
  | Some s => k s
  | None => false
  end.

Fixpoint count {A} (f : A -> bool) (l : list A) : nat :=
  match l with
  | [] => 0
  | x :: l' => (if f x then 1 else 0) + count f l'
  end.

(** ** Predicates of the properties *)

(** The headline and the source [data_agent] takes from a hit. *)
Definition hit_headline (h : hit) : pystr := default (py "No title") (title h).
Definition hit_source (h : hit) : pystr := default (py "Unknown source") (url h).

(** What a run writes to its queue when the search gives no hit. *)
Definition aborted_stream (topic : pystr) : list (option pystr) :=
  [Some (_sse (py "log")
           (ROCKET ++ py " Pipeline started for topic: '" ++ topic ++ py "'"));
   Some (_sse (py "log")
           (MAGNIFIER ++ py " [Data Agent] Searching for recent news..."));
   Some (_sse (py "log")
           (py "[Data Agent] " ++ MAGNIFIER ++ py " Searching news for: '"
            ++ topic ++ py "' ..."));
   Some (_sse (py "log")
           (py "[Data Agent] " ++ WARNING ++ py "  No results returned from Tavily."));
   Some (_sse (py "error") (py "No news articles retrieved. Pipeline aborted."));
   None].

(** [st'] is [st] with items added to the queue, all of which satisfy
    [P]. *)
Definition extends (P : pystr -> bool) (st st' : state) : Prop :=
  exists items, queue st' = queue st ++ map Some items /\ forallb P items = true.

(** [m] only adds items that satisfy [P], whether it returns or raises. *)
Definition keeps (P : pystr -> bool) {A} (m : M A) : Prop :=
  forall st, extends P st (m st).2.

(** The last event of a run that ends without an exception: the error
    of the empty search, or [done] with the report. *)
Definition completion (topic : pystr) (include_voice : bool) (final : pystr)
  : Prop :=
  final = _sse (py "error") (py "No news articles retrieved. Pipeline aborted.")
  \/ exists articles trends strategy risks voice_script,
       (include_voice = false -> voice_script = None)
       /\ final = _sse (py "done")
                   (json_dumps (build_report topic articles trends strategy
                                  risks voice_script)).

(** Everything written or still to be written, in order: what was
    yielded, the sentinel if it was taken, the queue, the writes to
    come. *)
Definition delivered (c : channel) : list (option pystr) :=
  map Some (seen c) ++ (if closed c then [None] else []) ++ buffer c ++ pending c.

(** The end-of-stream sentinel. *)
Definition is_marker (item : option pystr) : bool :=
  match item with
  | None => true
  | Some _ => false
  end.

(** A Unicode scalar value: a code point that is not a surrogate. *)
Definition scalar (c : N) : bool :=
  ((c <? 1114112) && negb ((55296 <=? c) && (c <=? 57343)))%N.

(** Text: a string of Unicode scalar values. *)
Definition text (s : pystr) : Prop := forallb scalar s = true.

(** The item separator of [json.dumps]. *)
Definition SEP : pystr := py ", ".

(** A list of strings. *)
Definition strings_json (ss : list pystr) : json := JArr (map JStr ss).

(** One pair of a mapping, as [json.dumps] writes it. *)
Definition pair_text (kv : pystr * json) : pystr :=
  encode_basestring_ascii (fst kv) ++ py ": " ++ json_dumps (snd kv).

(** A key and the list of strings under it. *)
Definition report_pair (kv : pystr * json) : Prop :=
  text kv.1 /\ exists ss, kv.2 = strings_json ss /\ Forall text ss.

(** The expected shape of a structured result: a mapping with distinct
    keys, each holding a list of strings; all strings are text. *)
Definition expected_shape (v : json) : Prop :=
  exists d, v = JObj d /\ NoDup (map fst d) /\ Forall report_pair d.

(** A mapping whose values are lists of strings: what the stages that
    consume a structured result can work with. *)
Definition usable (v : json) : Prop :=
  exists d, v = JObj d /\ Forall (fun kv => exists ss, kv.2 = JArr (map JStr ss)) d.

(** Decoding ended with one of the two exceptions the agents handle. *)
Definition handled (r : loaded) : Prop := r = DecodeError \/ r = DigitsError.

(** A response is tolerated when decoding it either raises an exception
    the agents handle or gives a usable mapping. *)
Definition tolerated (interp : interpreter) (raw : pystr) : Prop :=
  handled (_parse_json interp raw)
  \/ exists v, _parse_json interp raw = Loaded v /\ usable v.

(** The lines printed from [st] to [st']. *)
Definition printed_since (st st' : state) : list pystr :=
  drop (length (printed st)) (printed st').

(** Standard output, encoded as UTF-8, accepts every line printed from
    [st] to [st']: none has a surrogate.  [print] is modelled as
    succeeding; where the interpreter's [print] would raise
    [UnicodeEncodeError], the run of the program departs from the model at
    that line. *)
Definition printable (st st' : state) : Prop :=
  forallb (forallb scalar) (printed_since st st') = true.

(** [m] returns, whatever the state, with a result that satisfies [Q]. *)
Definition returns {A} (m : M A) (Q : A -> Prop) : Prop :=
  forall st, exists a st', m st = (Ret a, st') /\ Q a.

(** [m] ends with a [done] event, after [log] events only. *)
Definition runs_to_done (m : M unit) : Prop :=
  forall st, exists st0 payload,
    m st = (Ret tt, put (Some (_sse (py "done") payload)) st0)
    /\ extends is_log st st0.

(** ** Sample data *)

(** Search hits for the sample runs: seven, so that the cap applies. *)
Definition sample_hit (n : Z) : hit :=
  Hit (Some (py "Headline " ++ str_of_Z n)) (Some (py "https://news.example/" ++ str_of_Z n))
      (Some (py "Body of the article.")) None.

Definition sample_hits : list hit := map sample_hit [1; 2; 3; 4; 5; 6; 7]%Z.

(** A run that starts with an empty queue and has done nothing yet. *)
Definition empty_state : state := State [] [] [] [].

(** The interpreter of the sample runs: a thousand levels of nesting, the
    default limit on digits, and floats written as they are spelled (the
    samples have none). *)
Definition sample_interpreter : interpreter :=
  Interpreter 1000 4300 (fun literal => literal).

(** Well-formed structured results. *)
Definition sample_trends : json :=
  JObj [(py "trends",
         JArr [JStr (py "Chip demand grows"); JStr (py "Supply tightens");
               JStr (py "Prices rise")]);
        (py "sentiment_shifts", JArr [JStr (py "From caution to optimism")])].

Definition sample_strategy : json :=
  JObj [(py "opportunities", JArr [JStr (py "Secure capacity early")]);
        (py "recommendations", JArr [JStr (py "Sign long-term contracts")])].

Definition sample_risks : json :=
  JObj [(py "risks", JArr [JStr (py "Export controls")]);
        (py "weak_signals", JArr [JStr (py "Inventory build-up")]);
        (py "uncertainties", JArr [JStr (py "Demand after 2026")])].

(** A reasoning service that answers the five summaries, then the three
    structured results, then the voice script. *)
Definition sample_reka (n : nat) (message : pystr) : outcome pystr :=
  match n with
  | 5 => Ret (json_dumps sample_trends)
  | 6 => Ret (json_dumps sample_strategy)
  | 7 => Ret (json_dumps sample_risks)
  | 8 => Ret (py "Good evening. Here is the market briefing.")
  | _ => Ret (py "One sentence.")
  end.

(** A search service that gives the seven sample hits. *)
Definition sample_tavily (topic : pystr) : outcome (list hit) := Ret sample_hits.

(** The executor on the sample topic and hits. *)
Definition sample_run (reka : nat -> pystr -> outcome pystr) (include_voice : bool)
  : state :=
  _run_pipeline sample_interpreter reka sample_tavily (fun _ => [])
    (py "AI hardware market") include_voice empty_state.

(** The reasoning service answers the Trend request with a JSON list. *)
Definition list_reply : pystr :=
  json_dumps (JArr [JStr (py "Chip demand grows"); JStr (py "Supply tightens")]).

(** The sample service, with the list as its Trend response. *)
Definition list_reply_reka (n : nat) (message : pystr) : outcome pystr :=
  match n with
  | 5 => Ret list_reply
  | _ => sample_reka n message
  end.

(** A trend report with more than three trends, a quotation mark, a line
    break and characters outside ASCII. *)
Definition long_trends : json :=
  JObj [(py "trends",
         JArr [JStr (py "Chip demand grows"); JStr (py "Supply tightens");
               JStr (py "Prices rise"); JStr (py "New entrants" ++ [10; 34; 233; 128640]%N);
               JStr []]);
        (py "sentiment_shifts", JArr [])].

(** A run in which the Trend and Risk responses are prose and the
    Strategy response is well-formed. *)
Definition prose_reka (n : nat) (message : pystr) : outcome pystr :=
  match n with
  | 5 => Ret (py "Demand is up; supply is tight.")
  | 7 => Ret (py "```json {broken ```")
  | _ => sample_reka n message
  end.

(** * Reference semantics: the stages on a store of mutable objects

    Python lists and dicts are objects with an identity: a stage receives
    references to the results of earlier stages.  This second embedding of
    the agents keeps every list and dict in a heap and performs each
    operation of the source on it, so that what a stage writes can be
    stated.  Strings and numbers are immutable and stay values. *)
Module Store.

(** An address in the heap. *)
Abbreviation loc := nat (only parsing).

Inductive val :=
| VNone
| VBool (b : bool)
| VInt (z : Z)
| VFloat (repr : pystr)
| VStr (s : pystr)
| VRef (l : loc).

Inductive obj :=
| OList (items : list val)
| ODict (pairs : list (pystr * val)).

(** The heap (an object's address is its index; allocation appends) and
    the state of the run. *)
Record store := Store { heap : list obj; world : state }.

Definition H (A : Type) : Type := store -> outcome A * store.

Global Instance H_ret : MRet H := fun A a sigma => (Ret a, sigma).
Global Instance H_bind : MBind H := fun A B f m sigma =>
  match m sigma with
  | (Ret a, sigma') => f a sigma'
  | (Raise e, sigma') => (Raise e, sigma')
  end.

(** A computation that does not touch the heap. *)
Definition run {A} (m : M A) : H A := fun sigma =>
  let '(r, w) := m (world sigma) in (r, Store (heap sigma) w).

Definition fail {A} (e : exn) : H A := fun sigma => (Raise e, sigma).

(** A new object. *)
Definition alloc (o : obj) : H val := fun sigma =>
  (Ret (VRef (length (heap sigma))), Store (heap sigma ++ [o]) (world sigma)).

Definition deref (l : loc) : H obj := fun sigma =>
  match heap sigma !! l with
  | Some o => (Ret o, sigma)
  | None => (Raise (Exn OtherException (py "dangling reference")), sigma)
  end.

(** [lst.append(x)]: the one operation of the source that writes to an
    existing object. *)
Definition append (lst x : val) : H unit := fun sigma =>
  match lst with
  | VRef l =>
      match heap sigma !! l with
      | Some (OList items) =>
          (Ret tt, Store (<[l := OList (items ++ [x])]> (heap sigma)) (world sigma))
      | _ => (Raise (Exn AttributeError (py "object has no attribute 'append'")), sigma)
      end
  | _ => (Raise (Exn AttributeError (py "object has no attribute 'append'")), sigma)
  end.

Definition obj_type_name (o : obj) : pystr :=
  match o with
  | OList _ => py "list"
  | ODict _ => py "dict"
  end.

Definition val_type_name (v : val) : pystr :=
  match v with
  | VNone => py "NoneType"
  | VBool _ => py "bool"
  | VInt _ => py "int"
  | VFloat _ => py "float"
  | VStr _ => py "str"
  | VRef _ => py "object"
  end.

Definition attribute_error (type attr : pystr) : exn :=
  Exn AttributeError
      (py "'" ++ type ++ py "' object has no attribute '" ++ attr ++ py "'").

Fixpoint pairs_lookup (key : pystr) (d : list (pystr * val)) : option val :=
  match d with
  | [] => None
  | (k, v) :: d' => if pystr_eqb k key then Some v else pairs_lookup key d'
  end.

(** [v.get(key, default)] *)
Definition get (v : val) (key : pystr) (default : val) : H val :=
  match v with
  | VRef l =>
      o ← deref l;
      match o with
      | ODict d => mret (match pairs_lookup key d with Some x => x | None => default end)
      | OList _ => fail (attribute_error (py "list") (py "get"))
      end
  | _ => fail (attribute_error (val_type_name v) (py "get"))
  end.

(** [v[key]] for a string key. *)
Definition getitem (v : val) (key : pystr) : H val :=
  match v with
  | VRef l =>
      o ← deref l;
      match o with
      | ODict d =>
          match pairs_lookup key d with
          | Some x => mret x
          | None => fail (Exn OtherException (py "'" ++ key ++ py "'"))
          end
      | OList _ => fail (Exn TypeError (py "list indices must be integers or slices, not str"))
      end
  | _ => fail (Exn TypeError (py "'" ++ val_type_name v ++ py "' object is not subscriptable"))
  end.

(** The items [iter(v)] yields. *)
Definition iter (v : val) : H (list val) :=
  match v with
  | VRef l =>
      o ← deref l;
      match o with
      | OList items => mret items
      | ODict d => mret (map (fun kv => VStr (fst kv)) d)
      end
  | VStr s => mret (map (fun c => VStr [c]) s)
  | _ => fail (Exn TypeError (py "'" ++ val_type_name v ++ py "' object is not iterable"))
  end.

Fixpoint for_each {A B} (f : A -> H B) (l : list A) : H (list B) :=
  match l with
  | [] => mret []
  | x :: l' => y ← f x; ys ← for_each f l'; mret (y :: ys)
  end.

(** The objects [json.loads] creates for a decoded value. *)
Fixpoint alloc_json (j : json) : H val :=
  match j with
  | JNull => mret VNone
  | JBool b => mret (VBool b)
  | JInt z => mret (VInt z)
  | JFloat repr => mret (VFloat repr)
  | JStr s => mret (VStr s)
  | JArr items =>
      vs ← (fix go (items : list json) : H (list val) :=
              match items with
              | [] => mret []
              | x :: rest => v ← alloc_json x; vs ← go rest; mret (v :: vs)
              end) items;
      alloc (OList vs)
  | JObj pairs =>
      d ← (fix go (pairs : list (pystr * json)) : H (list (pystr * val)) :=
             match pairs with
             | [] => mret []
             | (k, x) :: rest => v ← alloc_json x; d ← go rest; mret ((k, v) :: d)
             end) pairs;
      alloc (ODict d)
  end.

(** The decoded value a reference stands for; [fuel] bounds the depth,
    and [None] means a cycle or a dangling reference. *)
Fixpoint reify (fuel : nat) (h : list obj) (v : val) : option json :=
  match v with
  | VNone => Some JNull
  | VBool b => Some (JBool b)
  | VInt z => Some (JInt z)
  | VFloat repr => Some (JFloat repr)
  | VStr s => Some (JStr s)
  | VRef l =>
      match fuel with
      | O => None
      | S f =>
          match h !! l with
          | Some (OList items) => JArr <$> mapM (reify f h) items
          | Some (ODict d) =>
              JObj <$> mapM (fun kv => pair (fst kv) <$> reify f h (snd kv)) d
          | None => None
          end
      end
  end.

(** [json.dumps(v)]: reads the objects [v] reaches; a cycle raises
    [ValueError]. *)
Definition dumps (v : val) : H pystr := fun sigma =>
  match reify (S (length (heap sigma))) (heap sigma) v with
  | Some j => (Ret (json_dumps j), sigma)
  | None => (Raise (Exn OtherException (py "Circular reference detected")), sigma)
  end.

Section Agents.
Variable interp : interpreter.
Variable reka : nat -> pystr -> outcome pystr.
Variable tavily : pystr -> outcome (list hit).

(** [repr] of lists and dicts, as in [py_str]. *)
Variable py_repr : json -> pystr.

(** [str(v)]: for a list or a dict it reads the objects [v] reaches. *)
Definition str (v : val) : H pystr := fun sigma =>
  (Ret match reify (S (length (heap sigma))) (heap sigma) v with
       | Some j => py_str py_repr j
       | None => py "[...]"
       end, sigma).

(** [type(v).__name__] *)
Definition type_name_in (h : list obj) (v : val) : pystr :=
  match v with
  | VRef l =>
      match h !! l with
      | Some o => obj_type_name o
      | None => py "object"
      end
  | _ => val_type_name v
  end.

Fixpoint expect_strs (h : list obj) (i : Z) (items : list val)
  : outcome (list pystr) :=
  match items with
  | [] => Ret []
  | VStr s :: rest =>
      match expect_strs h (i + 1) rest with
      | Ret ss => Ret (s :: ss)
      | Raise e => Raise e
      end
  | x :: _ =>
      Raise (Exn TypeError
               (py "sequence item " ++ str_of_Z i ++ py ": expected str instance, "
                ++ type_name_in h x ++ py " found"))
  end.

(** [sep.join(v)] *)
Definition join_val (sep : pystr) (v : val) : H pystr := fun sigma =>
  match iter v sigma with
  | (Ret items, sigma') =>
      match expect_strs (heap sigma') 0 items with
      | Ret ss => (Ret (join sep ss), sigma')
      | Raise e => (Raise e, sigma')
      end
  | (Raise _, sigma') =>
      (Raise (Exn TypeError (py "can only join an iterable")), sigma')
  end.

Fixpoint summarise (emit : Emitter) (items : list hit) (articles : val)
  : H unit :=
  match items with
  | [] => mret tt
  | item :: rest =>
      let headline := default (py "No title") (title item) in
      let source := default (py "Unknown source") (url item) in
      let content := default (default [] (snippet item)) (content item) in
      summary ← run (_chat reka DATA_SYSTEM
                       (py "Article title: " ++ headline ++ NL ++ NL
                        ++ py "Content: " ++ take 1500 content));
      a ← alloc (ODict [(py "headline", VStr headline);
                        (py "source", VStr source);
                        (py "summary", VStr summary)]);
      append articles a;;
      run (log emit (py "  " ++ CHECK_MARK ++ py " " ++ take 80 headline));;
      summarise emit rest articles
  end.

Definition data_agent (topic : pystr) (emit : Emitter) : H val :=
  run (log emit (py "[Data Agent] " ++ MAGNIFIER ++ py " Searching news for: '"
                 ++ topic ++ py "' ..."));;
  raw_results ← run (search tavily topic);
  match raw_results with
  | [] =>
      run (log emit (py "[Data Agent] " ++ WARNING
                     ++ py "  No results returned from Tavily."));;
      alloc (OList [])
  | _ =>
      articles ← alloc (OList []);
      summarise emit (take MAX_ARTICLES raw_results) articles;;
      mret articles
  end.

Fixpoint log_numbered (emit : Emitter) (label : pystr) (i : Z)
    (xs : list val) : H unit :=
  match xs with
  | [] => mret tt
  | x :: xs' =>
      s ← str x;
      run (log emit (py "  " ++ label ++ py " " ++ str_of_Z i ++ py ": " ++ s));;
      log_numbered emit label (i + 1) xs'
  end.

(** [result.get(key, [])]: the default is a new empty list. *)
Definition get_list (data : val) (key : pystr) : H val :=
  empty ← alloc (OList []);
  get data key empty.

Definition log_entries (emit : Emitter) (label key : pystr) (result : val)
  : H unit :=
  entries ← get_list result key;
  xs ← iter entries;
  log_numbered emit label 1 xs.

Definition bullets (data : val) (key : pystr) : H pystr :=
  entries ← get_list data key;
  xs ← iter entries;
  lines ← for_each (fun x => s ← str x; mret (py "- " ++ s)) xs;
  mret (join NL lines).

(** [{first: [raw], key: [UNABLE], ...}] *)
Fixpoint fallback (raw : pystr) (keys : list pystr) (first : bool)
  : H (list (pystr * val)) :=
  match keys with
  | [] => mret []
  | key :: rest =>
      l ← alloc (OList [VStr (if first then raw else UNABLE)]);
      d ← fallback raw rest false;
      mret ((key, l) :: d)
  end.

(** The [try] / [except] of the three agents. *)
Definition extract (r : structured) (raw : pystr) : H val :=
  match _parse_json interp raw with
  | Loaded j => alloc_json j
  | DecodeError | DigitsError =>
      d ← fallback raw (expected_keys r) true; alloc (ODict d)
  | DepthError array => fail (recursion_error array)
  end.

Definition trend_agent (articles : val) (emit : Emitter) : H val :=
  run (log emit (py "[Trend Agent] " ++ CHART
                 ++ py " Detecting trends and sentiment shifts ..."));;
  items ← iter articles;
  lines ← for_each
            (fun a =>
               source ← getitem a (py "source");
               source ← str source;
               headline ← getitem a (py "headline");
               headline ← str headline;
               summary ← getitem a (py "summary");
               summary ← str summary;
               mret (py "- [" ++ source ++ py "] " ++ headline
                     ++ py ": " ++ summary)) items;
  raw ← run (_chat reka TREND_SYSTEM
               (py "News summaries:" ++ NL ++ join NL lines ++ NL ++ NL
                ++ py "Identify 3 major market trends and any notable sentiment shifts."));
  result ← extract TrendReport raw;
  log_entries emit (py "Trend") (py "trends") result;;
  mret result.

Definition strategy_agent (trend_data : val) (emit : Emitter) : H val :=
  run (log emit (py "[Strategy Agent] " ++ BULB
                 ++ py " Generating strategic opportunities ..."));;
  trend_text ← bullets trend_data (py "trends");
  sentiment_text ← bullets trend_data (py "sentiment_shifts");
  raw ← run (_chat reka STRATEGY_SYSTEM
               (py "Market Trends:" ++ NL ++ trend_text ++ NL ++ NL
                ++ py "Sentiment Shifts:" ++ NL ++ sentiment_text ++ NL ++ NL
                ++ py "Generate concrete business opportunities and strategic recommendations."));
  result ← extract StrategyReport raw;
  log_entries emit (py "Opportunity") (py "opportunities") result;;
  mret result.

Definition risk_agent (trend_data strategy_data : val) (emit : Emitter)
  : H val :=
  run (log emit (py "[Risk Agent] " ++ WARNING
                 ++ py "  Identifying risks and weak signals ..."));;
  trend_text ← bullets trend_data (py "trends");
  strategy_text ← bullets strategy_data (py "recommendations");
  raw ← run (_chat reka RISK_SYSTEM
               (py "Market Trends:" ++ NL ++ trend_text ++ NL ++ NL
                ++ py "Proposed Strategies:" ++ NL ++ strategy_text ++ NL ++ NL
                ++ py "Identify the key risks, weak signals, and uncertainties."));
  result ← extract RiskReport raw;
  log_entries emit (py "Risk") (py "risks") result;;
  mret result.

Definition voice_agent (report_text : pystr) (emit : Emitter) : H val :=
  run (log emit (py "[Voice Agent] " ++ MICROPHONE
                 ++ py "  Writing voice script ..."));;
  script ← run (_chat reka VOICE_SYSTEM report_text);
  mret (VStr script).

Definition joined (sep : pystr) (data : val) (key : pystr) : H pystr :=
  entries ← get_list data key;
  join_val sep entries.

Definition voice_step (topic : pystr) (include_voice : bool)
    (trends strategy risks : val) : H val :=
  if include_voice then
    run (emit (MICROPHONE ++ py "  [Voice Agent] Writing broadcast script..."));;
    t ← joined (py " | ") trends (py "trends");
    o ← joined (py "; ") strategy (py "opportunities");
    r ← joined (py "; ") risks (py "risks");
    let brief :=
      py "Market Intelligence on '" ++ topic ++ py "': " ++ t ++ py ". "
      ++ py "Opportunities: " ++ o ++ py ". "
      ++ py "Key Risks: " ++ r in
    voice_agent brief (Some emit_q)
  else mret VNone.

(** The [report] dict: it holds references to the earlier results. *)
Definition build_report (topic : pystr)
    (articles trends strategy risks voice_script : val) : H val :=
  alloc (ODict [(py "topic", VStr topic);
                (py "articles", articles);
                (py "trends", trends);
                (py "strategy", strategy);
                (py "risks", risks);
                (py "voice_script", voice_script)]).

(** [not v] for a list or dict: whether it is empty. *)
Definition is_empty (v : val) : H bool :=
  match v with
  | VRef l =>
      o ← deref l;
      mret match o with
           | OList [] | ODict [] => true
           | _ => false
           end
  | _ => mret false
  end.

Definition pipeline_body (topic : pystr) (include_voice : bool) : H unit :=
  run (emit (ROCKET ++ py " Pipeline started for topic: '" ++ topic ++ py "'"));;
  run (emit (MAGNIFIER ++ py " [Data Agent] Searching for recent news..."));;
  articles ← data_agent topic (Some emit_q);
  none ← is_empty articles;
  if none : bool then
    run (modify (put (Some (_sse (py "error")
                              (py "No news articles retrieved. Pipeline aborted.")))))
  else
    run (emit (CHART ++ py " [Trend Agent] Detecting market trends and sentiment shifts..."));;
    trends ← trend_agent articles (Some emit_q);
    run (emit (BULB ++ py " [Strategy Agent] Generating strategic opportunities..."));;
    strategy ← strategy_agent trends (Some emit_q);
    run (emit (WARNING ++ py "  [Risk Agent] Identifying risks and weak signals..."));;
    risks ← risk_agent trends strategy (Some emit_q);
    voice_script ← voice_step topic include_voice trends strategy risks;
    report ← build_report topic articles trends strategy risks voice_script;
    run (emit (CHECK_BUTTON ++ py " Pipeline complete."));;
    text ← dumps report;
    run (modify (put (Some (_sse (py "done") text)))).

Definition _run_pipeline (topic : pystr) (include_voice : bool)
    (sigma : store) : store :=
  let '(r, sigma1) := pipeline_body topic include_voice sigma in
  let w :=
    match r with
    | Ret _ => world sigma1
    | Raise exc =>
        put (Some (_sse (py "error") (py "Pipeline error: " ++ exn_msg exc)))
            (world sigma1)
    end in
  Store (heap sigma1) (put None w).

End Agents.

(** *** What a call may do to the heap *)

(** Every object of [sigma] is still there, unchanged, in [sigma']. *)
Definition unchanged (sigma sigma' : store) : Prop :=
  forall l o, heap sigma !! l = Some o -> heap sigma' !! l = Some o.

(** [v], if it is a reference, is to an object that did not exist in
    [sigma] and exists in [sigma']. *)
Definition brand_new (sigma sigma' : store) (v : val) : Prop :=
  match v with
  | VRef l => length (heap sigma) <= l < length (heap sigma')
  | _ => True
  end.

(** The heap has not shrunk and the objects below address [n] are
    unchanged. *)
Definition grows (n : nat) (sigma sigma' : store) : Prop :=
  length (heap sigma) <= length (heap sigma')
  /\ forall l, l < n -> heap sigma' !! l = heap sigma !! l.

(** [m], started with at least [n] objects, leaves the first [n]
    alone. *)
Definition safe {A} (n : nat) (m : H A) : Prop :=
  forall sigma, n <= length (heap sigma) -> grows n sigma (m sigma).2.

Definition above (n : nat) (v : val) : Prop :=
  match v with
  | VRef l => n <= l
  | _ => True
  end.

(** What [m] returns, if a reference, is to an object at address [n] or
    higher that exists when [m] returns. *)
Definition fresh {A} (n : nat) (result : A -> val) (m : H A) : Prop :=
  forall sigma a sigma',
    n <= length (heap sigma) -> m sigma = (Ret a, sigma') ->
    match result a with
    | VRef l => n <= l < length (heap sigma')
    | _ => True
    end.

End Store.

(** ** The store and the decoded values *)

(** [v] stands for the decoded value [j] in the heap [h]. *)
Definition rep (h : list Store.obj) (v : Store.val) (j : json) : Prop :=
  Store.reify (length h) h v = Some j.

(** The value a scalar stands for. *)
Definition scalar_json (v : Store.val) : option json :=
  match v with
  | Store.VNone => Some JNull
  | Store.VBool b => Some (JBool b)
  | Store.VInt z => Some (JInt z)
  | Store.VFloat repr => Some (JFloat repr)
  | Store.VStr s => Some (JStr s)
  | Store.VRef _ => None
  end.

(** The entries of the degraded result. *)
Fixpoint fallback_pairs (raw : pystr) (keys : list pystr) (first : bool)
  : list (pystr * json) :=
  match keys with
  | [] => []
  | key :: rest =>
      (key, JArr [JStr (if first then raw else UNABLE)])
      :: fallback_pairs raw rest false
  end.

(** The object [data_agent] builds for an article. *)
Definition article_obj (a : article) : Store.obj :=
  Store.ODict [(py "headline", Store.VStr (headline a));
               (py "source", Store.VStr (source a));
               (py "summary", Store.VStr (summary a))].

Definition article_at (h : list Store.obj) (v : Store.val) (a : article) : Prop :=
  exists l, v = Store.VRef l /\ h !! l = Some (article_obj a).

(** [v] is a list of the objects of [arts]. *)
Definition articles_rep (h : list Store.obj) (v : Store.val) (arts : list article)
  : Prop :=
  exists l items,
    v = Store.VRef l /\ h !! l = Some (Store.OList items)
    /\ Forall2 (article_at h) items arts.

(** As [article_at], for an object above address [n]. *)
Definition article_above (n : nat) (h : list Store.obj) (v : Store.val)
    (a : article) : Prop :=
  exists l, v = Store.VRef l /\ n < l /\ h !! l = Some (article_obj a).

(** A property of heaps that allocation preserves. *)
Definition stable (Pre : list Store.obj -> Prop) : Prop :=
  forall h h', h `prefix_of` h' -> Pre h -> Pre h'.

(** The computation [mh] on the store and the computation [mp] on the
    state do the same to the state, raise the same exception or return
    related results, and [mh] only allocates. *)
Definition sim {A B} (Pre : list Store.obj -> Prop) (mh : Store.H A) (mp : M B)
    (R : list Store.obj -> A -> B -> Prop) : Prop :=
  forall sigma, Pre (Store.heap sigma) ->
    match mh sigma, mp (Store.world sigma) with
    | (Ret a, sigma'), (Ret b, w') =>
        Store.world sigma' = w' /\ Store.heap sigma `prefix_of` Store.heap sigma'
        /\ R (Store.heap sigma') a b
    | (Raise e, sigma'), (Raise e', w') =>
        e = e' /\ Store.world sigma' = w' /\ Store.heap sigma `prefix_of` Store.heap sigma'
    | _, _ => False
    end.

(** ** The terminal report and the command-line pipeline *)

(** The characters of the report's frame and its marks, by code point. *)
Definition DOUBLE_HORIZONTAL : N := 9552.           (* U+2550 *)
Definition LIGHT_HORIZONTAL : N := 9472.            (* U+2500 *)
Definition DOUBLE_VERTICAL : pystr := [9553]%N.     (* U+2551 *)
Definition CORNER_TOP_LEFT : pystr := [9556]%N.     (* U+2554 *)
Definition CORNER_TOP_RIGHT : pystr := [9559]%N.    (* U+2557 *)
Definition CORNER_BOTTOM_LEFT : pystr := [9562]%N.  (* U+255A *)
Definition CORNER_BOTTOM_RIGHT : pystr := [9565]%N. (* U+255D *)
Definition NEWSPAPER : pystr := [128240]%N.         (* U+1F4F0 *)
Definition BULLET : pystr := [8226]%N.              (* U+2022 *)
Definition HOOK_ARROW : pystr := [8627]%N.          (* U+21B3 *)
Definition FOUR_POINTED_STAR : pystr := [10022]%N.  (* U+2726 *)
Definition RIGHT_ARROW : pystr := [8594]%N.         (* U+2192 *)
Definition BALLOT_X : pystr := [10007]%N.           (* U+2717 *)

(** [f"{s:^width}"]: [s] between spaces, the odd space on the right; a
    longer [s] is kept whole. *)
Definition center (width : nat) (s : pystr) : pystr :=
  let pad := width - length s in
  replicate (Nat.div pad 2) 32%N ++ s ++ replicate (pad - Nat.div pad 2) 32%N.

(** A row of the report's title box. *)
Definition box_row (s : pystr) : pystr :=
  DOUBLE_VERTICAL ++ center 58 s ++ DOUBLE_VERTICAL.

(** The four lines of an article in the report. *)
Definition article_lines (a : article) : list pystr :=
  [py "  " ++ BULLET ++ py " " ++ headline a;
   py "    Source : " ++ source a;
   py "    Summary: " ++ summary a;
   []].

(** The message [_chat] sends for a system instruction and a question. *)
Definition chat_message (system user : pystr) : pystr :=
  py "System Instruction: " ++ system ++ NL ++ NL
  ++ py "User Question: " ++ user.

(** The content [data_agent] reads from a hit, and the request it sends
    for it. *)
Definition hit_content (h : hit) : pystr :=
  default (default [] (snippet h)) (content h).

Definition summary_request (h : hit) : pystr :=
  chat_message DATA_SYSTEM
    (py "Article title: " ++ hit_headline h ++ NL ++ NL
     ++ py "Content: " ++ take 1500 (hit_content h)).

Section CommandLine.

Variable interp : interpreter.
Variable reka : nat -> pystr -> outcome pystr.
Variable tavily : pystr -> outcome (list hit).
Variable py_repr : json -> pystr.

(** What [datetime.datetime.now().strftime("%Y-%m-%d %H:%M")] gives when
    the report is rendered. *)
Variable now : pystr.

(** [for x in data.get(key, []): lines.append(f"{mark}{x}")] *)
Definition marked (mark : pystr) (data : json) (key : pystr) : M (list pystr) :=
  entries ← lift (py_get data key (JArr []));
  xs ← lift (py_iter entries);
  mret (map (fun x => mark ++ py_str py_repr x) xs).

(** [render_report] *)
Definition render_report (topic : pystr) (articles : list article)
    (trends strategy risks : json) (voice_script : option pystr) : M pystr :=
  let sep := replicate 60 LIGHT_HORIZONTAL in
  let lines :=
    [ [];
      CORNER_TOP_LEFT ++ replicate 58 DOUBLE_HORIZONTAL ++ CORNER_TOP_RIGHT;
      box_row (py "MARKET INTELLIGENCE REPORT");
      box_row (py "Topic: " ++ topic);
      box_row now;
      CORNER_BOTTOM_LEFT ++ replicate 58 DOUBLE_HORIZONTAL ++ CORNER_BOTTOM_RIGHT;
      [];
      NEWSPAPER ++ py " LATEST NEWS";
      sep ] in
  let lines := lines ++ concat (map article_lines articles) in
  let lines := lines ++ [CHART ++ py " MARKET TRENDS"; sep] in
  ts ← marked (py "  " ++ BULLET ++ py " ") trends (py "trends");
  let lines := lines ++ ts ++ [[]; py "  Sentiment Shifts:"] in
  ss ← marked (py "  " ++ HOOK_ARROW ++ py " ") trends (py "sentiment_shifts");
  let lines := lines ++ ss ++ [[]] in
  let lines := lines ++ [BULB ++ py " STRATEGIC OPPORTUNITIES"; sep] in
  os ← marked (py "  " ++ FOUR_POINTED_STAR ++ py " ") strategy (py "opportunities");
  let lines := lines ++ os ++ [[]; py "  Recommendations:"] in
  rs ← marked (py "  " ++ RIGHT_ARROW ++ py " ") strategy (py "recommendations");
  let lines := lines ++ rs ++ [[]] in
  let lines := lines ++ [WARNING ++ py "  RISKS & SIGNALS"; sep; py "  Market Risks:"] in
  ks ← marked (py "  " ++ BALLOT_X ++ py " ") risks (py "risks");
  let lines := lines ++ ks ++ [[]; py "  Weak Signals:"] in
  ws ← marked (py "  ~ ") risks (py "weak_signals");
  let lines := lines ++ ws ++ [[]; py "  Uncertainties:"] in
  us ← marked (py "  ? ") risks (py "uncertainties");
  let lines := lines ++ us ++ [[]] in
  let lines :=
    match voice_script with
    | Some (c :: script) =>
        lines ++ [MICROPHONE ++ py "  VOICE BRIEFING"; sep; c :: script; []]
    | _ => lines
    end in
  let lines :=
    lines ++ [replicate 60 DOUBLE_HORIZONTAL; py "  End of Report";
              replicate 60 DOUBLE_HORIZONTAL; []] in
  mret (join NL lines).

(** The optional voice step of [run_pipeline]. *)
Definition cli_voice_step (topic : pystr) (include_voice : bool)
    (trends strategy risks : json) : M (option pystr) :=
  if include_voice then
    t ← joined (py " | ") trends (py "trends");
    o ← joined (py "; ") strategy (py "opportunities");
    r ← joined (py "; ") risks (py "risks");
    let brief :=
      py "Market Intelligence on '" ++ topic ++ py "': " ++ t ++ py ". "
      ++ py "Opportunities: " ++ o ++ py ". "
      ++ py "Key Risks: " ++ r in
    script ← voice_agent reka brief None;
    mret (Some script)
  else mret None.

Definition ABORTED : pystr := py "Pipeline aborted: no news articles retrieved.".

(** [run_pipeline]: the agents without an emitter, then the report. *)
Definition run_pipeline (topic : pystr) (include_voice : bool) : M pystr :=
  print (NL ++ replicate 60 DOUBLE_HORIZONTAL);;
  print (py "  " ++ ROCKET ++ py " Market Intelligence Pipeline Starting");;
  print (py "  Topic: " ++ topic);;
  print (replicate 60 DOUBLE_HORIZONTAL);;
  articles ← data_agent reka tavily topic None;
  match articles with
  | [] => mret ABORTED
  | _ =>
      trends ← trend_agent interp reka py_repr articles None;
      strategy ← strategy_agent interp reka py_repr trends None;
      risks ← risk_agent interp reka py_repr trends strategy None;
      voice_script ← cli_voice_step topic include_voice trends strategy risks;
      report ← render_report topic articles trends strategy risks voice_script;
      print report;;
      mret report
  end.

End CommandLine.

(** ** The stream route and the readers of a run *)

(** What [stream] answers: the 404 response, or an event stream that
    reads the queue of the run. *)
Inductive stream_reply :=
| Unknown (text : pystr) (status : nat)
| EventStream (q : list (option pystr)).

(** [stream(run_id)], up to the creation of the generator. *)
Definition stream (run_id : pystr) (sv : server) : stream_reply :=
  match _runs sv !! run_id with
  | None => Unknown (py "Unknown run_id") 404
  | Some q => EventStream q
  end.

(** [_runs.pop(run_id, None)]: what the generator does to the run table
    when it takes the sentinel. *)
Definition forget (run_id : pystr) (sv : server) : server :=
  Server (delete run_id (_runs sv)) (threads sv).

(** One run and the generators that read its queue.  [unwritten] are the
    writes the executor has still to make, [waiting] is the queue, each
    reader has what it has yielded and whether it has left its loop, and
    [listed] tells whether the run is still in [_runs]. *)
Record hub := Hub {
  unwritten : list (option pystr);
  waiting : list (option pystr);
  readers : list (list pystr * bool);
  listed : bool
}.

Inductive hub_step : hub -> hub -> Prop :=
| hub_put item rest buf rs l :
    (* the executor's next [q.put] *)
    hub_step (Hub (item :: rest) buf rs l) (Hub rest (buf ++ [item]) rs l)
| hub_connect pend buf rs :
    (* a request to [stream] that finds the run: a new generator *)
    hub_step (Hub pend buf rs true) (Hub pend buf (rs ++ [([], false)]) true)
| hub_yield i out msg pend buf rs l :
    (* reader [i]: [msg = q.get()], not the sentinel: [yield msg] *)
    rs !! i = Some (out, false) ->
    hub_step (Hub pend (Some msg :: buf) rs l)
             (Hub pend buf (<[i := (out ++ [msg], false)]> rs) l)
| hub_close i out pend buf rs l :
    (* reader [i]: [q.get()] gives the sentinel: [_runs.pop], [break] *)
    rs !! i = Some (out, false) ->
    hub_step (Hub pend (None :: buf) rs l)
             (Hub pend buf (<[i := (out, true)]> rs) false).

(** The readers that have left their loop. *)
Definition closed_readers (h : hub) : nat :=
  length (filter (fun r => r.2 = true) (readers h)).

(** Everything the readers have yielded. *)
Definition yielded (h : hub) : list pystr := concat (map fst (readers h)).

(** ** Predicates of the further properties *)

(** The requests a run has sent to the two services. *)
Definition calls (st : state) : list pystr * list pystr :=
  (reka_calls st, tavily_calls st).

(** [m] leaves the part [f] of the state as it is, whether it returns or
    raises. *)
Definition preserves {X A} (f : state -> X) (m : M A) : Prop :=
  forall st, f (m st).2 = f st.

(** Started after the same requests, [m] and [m'] end alike, return or
    raise, and have again sent the same requests. *)
Definition alike {A} (m m' : M A) : Prop :=
  forall st st', calls st = calls st' ->
    (m st).1 = (m' st').1 /\ calls (m st).2 = calls (m' st').2.

(** Started after the same requests, [m] and [m'] have sent the same
    requests when they end. *)
Definition ends_alike {A B} (m : M A) (m' : M B) : Prop :=
  forall st st', calls st = calls st' -> calls (m st).2 = calls (m' st').2.

(** [m] sends at most [n] requests to the reasoning service, and to the
    search service the requests [ts], whether it returns or raises. *)
Definition spends (n : nat) (ts : list pystr) {A} (m : M A) : Prop :=
  forall st, exists new,
    reka_calls (m st).2 = reka_calls st ++ new /\ length new <= n
    /\ tavily_calls (m st).2 = tavily_calls st ++ ts.

(** The two emitters the program uses: none (the command line) and the
    one of the executor. *)
Definition known_emitter (emit : Emitter) : Prop :=
  emit = None \/ emit = Some emit_q.

(** How the command-line pipeline ends ([c]) beside the [try] body of the
    executor ([w]): the same requests have been sent, and a report that the
    command line returns is the abort text beside the executor's abort, or
    the rendering of the very data the executor serialises in its [done]
    event. *)
Definition renders_what_is_sent (py_repr : json -> pystr) (now topic : pystr)
    (w : outcome unit * state) (c : outcome pystr * state) : Prop :=
  calls w.2 = calls c.2
  /\ match c.1 with
     | Ret report =>
         (report = ABORTED
          /\ exists st0,
               w = (Ret tt,
                    put (Some (_sse (py "error")
                                 (py "No news articles retrieved. Pipeline aborted.")))
                        st0))
         \/ exists articles trends strategy risks voice_script st0 st0',
              w = (Ret tt,
                   put (Some (_sse (py "done")
                                (json_dumps (build_report topic articles trends
                                               strategy risks voice_script))))
                       st0)
              /\ render_report py_repr now topic articles trends strategy risks
                   voice_script st0'
                 = (Ret report, st0')
     | Raise _ => True
     end.

(** What holds of the readers of a run whose executor writes [ws]:
    [taken], what has left the queue so far, is the first part of [ws]; it
    has gone, item by item, to the readers (the sentinel to those that
    have left their loop); each reader has its items in the order of [ws];
    and once a reader has left its loop the run is no longer listed. *)
Definition shared_out (ws : list (option pystr)) (h : hub) : Prop :=
  exists taken,
    ws = taken ++ waiting h ++ unwritten h
    /\ map Some (yielded h) ++ replicate (closed_readers h) None ≡ₚ taken
    /\ Forall (fun r => sublist (map Some r.1) taken) (readers h)
    /\ (closed_readers h = 0 \/ listed h = false).

(** [m] raises, whatever the state, after adding nothing but [log] events
    to the queue, and what it raises satisfies [Q]. *)
Definition fails {A} (m : M A) (Q : exn -> Prop) : Prop :=
  forall st, exists e st',
    m st = (Raise e, st') /\ extends is_log st st' /\ Q e.

(** A decoded value that is not a mapping. *)
Definition not_a_mapping (v : json) : Prop := forall d, v <> JObj d.

(** * Properties *)

(** ** Text *)

Lemma lstrip_spaces (s : pystr) : forallb isspace s = true -> lstrip s = [].
Proof.
  induction s as [|c s IH]; simpl; [done|].
  intros [Hc Hs]%andb_prop. rewrite Hc. auto.
Qed.

Lemma strip_spaces (s : pystr) : forallb isspace s = true -> strip s = [].
Proof. intros H. unfold strip. by rewrite lstrip_spaces. Qed.

Lemma startswith_app (p s : pystr) : startswith p (p ++ s) = true.
Proof.
  induction p as [|a p IH]; simpl; [done|]. by rewrite N.eqb_refl.
Qed.

Lemma startswith_app_both (p a b : pystr) :
  startswith (p ++ a) (p ++ b) = startswith a b.
Proof.
  induction p as [|c p IH]; simpl; [done|]. by rewrite N.eqb_refl.
Qed.

(** ** The extractor's fallback *)

(** C4, as amended.  When decoding the raw text fails with one of the two
    exceptions the agents handle ([json.JSONDecodeError] for malformed
    text, the [ValueError] of an integer with too many digits), the
    extraction of a Trend, Strategy or Risk stage gives a mapping in which
    every expected key of the stage holds a non-empty list, and the list
    under the first expected key is exactly the raw text, unmodified. *)
Theorem extract_degraded (interp : interpreter) (r : structured) (raw : pystr) :
  handled (_parse_json interp raw) ->
  exists d first others,
    extract interp (fallback_of r) raw = Ret (JObj d)
    /\ expected_keys r = first :: others
    /\ dict_lookup first d = Some (JArr [JStr raw])
    /\ Forall (fun key => exists x xs, dict_lookup key d = Some (JArr (x :: xs)))
              (expected_keys r).
Proof.
  intros Hfail. unfold extract.
  assert (Hfallback : match _parse_json interp raw with
                      | Loaded result => Ret result
                      | DecodeError | DigitsError => Ret (fallback_of r raw)
                      | DepthError array => Raise (recursion_error array)
                      end = Ret (fallback_of r raw))
    by (destruct Hfail as [-> | ->]; reflexivity).
  rewrite Hfallback.
  destruct r; simpl;
    eexists _, _, _; (split; [reflexivity|]); (split; [reflexivity|]);
    (split; [reflexivity|]); repeat constructor; eexists _, _; reflexivity.
Qed.

Lemma extract_degraded_witness :
  handled (_parse_json sample_interpreter (py "Trends are up. Sentiment is mixed."))
  /\ handled (_parse_json sample_interpreter (replicate 4301 49%N))
  /\ (exists d first others,
        extract sample_interpreter (fallback_of TrendReport)
          (py "Trends are up. Sentiment is mixed.") = Ret (JObj d)
        /\ expected_keys TrendReport = first :: others
        /\ dict_lookup first d
             = Some (JArr [JStr (py "Trends are up. Sentiment is mixed.")])
        /\ Forall (fun key => exists x xs, dict_lookup key d = Some (JArr (x :: xs)))
                  (expected_keys TrendReport))
  /\ exists d first others,
       extract sample_interpreter (fallback_of RiskReport) (replicate 4301 49%N)
       = Ret (JObj d)
       /\ expected_keys RiskReport = first :: others
       /\ dict_lookup first d = Some (JArr [JStr (replicate 4301 49%N)])
       /\ Forall (fun key => exists x xs, dict_lookup key d = Some (JArr (x :: xs)))
                 (expected_keys RiskReport).
Proof.
  assert (Hprose : handled (_parse_json sample_interpreter
                              (py "Trends are up. Sentiment is mixed.")))
    by (left; vm_compute; reflexivity).
  assert (Hdigits : handled (_parse_json sample_interpreter (replicate 4301 49%N)))
    by (right; vm_compute; reflexivity).
  split; [exact Hprose|]. split; [exact Hdigits|]. split.
  - exact (extract_degraded sample_interpreter TrendReport _ Hprose).
  - exact (extract_degraded sample_interpreter RiskReport _ Hdigits).
Defined.

Lemma lstrip_replicate (n : nat) (c : N) :
  isspace c = false -> lstrip (replicate n c) = replicate n c.
Proof. intros Hc. destruct n as [|n]; simpl; [done|]. by rewrite Hc. Qed.

Lemma strip_replicate (n : nat) (c : N) :
  isspace c = false -> strip (replicate n c) = replicate n c.
Proof.
  intros Hc. unfold strip, rstrip.
  rewrite (lstrip_replicate n c Hc), reverse_replicate, (lstrip_replicate n c Hc).
  apply reverse_replicate.
Qed.

(** Brackets that open, one inside the other, past the depth that is
    left: the scanner stops at the first it may not enter. *)
Lemma scan_once_too_deep (interp : interpreter) (depth : nat) :
  forall fuel rest,
    2 * depth + 1 <= fuel ->
    scan_once interp fuel depth (replicate (S depth) 91%N ++ rest) = Overdeep true.
Proof.
  induction depth as [|d IH]; intros fuel rest Hfuel.
  - destruct fuel as [|f]; [lia|]. reflexivity.
  - destruct fuel as [|[|f]]; [lia|lia|].
    specialize (IH f rest ltac:(lia)).
    change (replicate (S (S d)) 91%N ++ rest)
      with (91%N :: 91%N :: replicate d 91%N ++ rest).
    change (replicate (S d) 91%N ++ rest)
      with (91%N :: replicate d 91%N ++ rest) in IH.
    cbn [scan_once]. change (91 =? 34)%N with false. change (91 =? 123)%N with false.
    change (91 =? 91)%N with true. cbv iota.
    change (skip_ws (91%N :: replicate d 91%N ++ rest))
      with (91%N :: replicate d 91%N ++ rest).
    cbv iota. change (91 =? 93)%N with false. cbv iota.
    cbn [parse_items]. rewrite IH. reflexivity.
Qed.

(** A text of opening brackets, one more than the interpreter admits:
    [_parse_json] ends with the [RecursionError] of the scanner. *)
Lemma parse_json_too_deep (interp : interpreter) :
  _parse_json interp (replicate (S (max_depth interp)) 91%N) = DepthError true.
Proof.
  unfold _parse_json. rewrite strip_replicate by reflexivity.
  change (startswith FENCE (replicate (S (max_depth interp)) 91%N)) with false.
  cbv iota.
  assert (Hend : endswith FENCE (replicate (S (max_depth interp)) 91%N) = false).
  { unfold endswith. rewrite reverse_replicate. reflexivity. }
  rewrite Hend. unfold json_loads.
  change (replicate (S (max_depth interp)) 91%N)
    with (91%N :: replicate (max_depth interp) 91%N).
  change (91 =? BOM)%N with false. cbv iota zeta.
  change (skip_ws (91%N :: replicate (max_depth interp) 91%N))
    with (replicate (S (max_depth interp)) 91%N).
  rewrite <- (app_nil_r (replicate (S (max_depth interp)) 91%N)) at 2.
  rewrite scan_once_too_deep; [reflexivity|].
  unfold scan_once_fuel. rewrite length_replicate. lia.
Qed.

(** C4, as stated, fails, whatever the interpreter.  Decoding a text
    nested deeper than the interpreter admits fails, and not with an
    exception the agents handle: the extraction raises [RecursionError]
    and gives no mapping.  With the sample interpreter the text is 1001
    opening brackets. *)
Lemma deep_nesting_not_degraded :
  (~ exists interp, forall (r : structured) (raw : pystr),
       (forall v, _parse_json interp raw <> Loaded v) ->
       exists d first others,
         extract interp (fallback_of r) raw = Ret (JObj d)
         /\ expected_keys r = first :: others
         /\ dict_lookup first d = Some (JArr [JStr raw])
         /\ Forall (fun key => exists x xs, dict_lookup key d = Some (JArr (x :: xs)))
                   (expected_keys r))
  /\ (forall v, _parse_json sample_interpreter (replicate 1001 91%N) <> Loaded v)
  /\ extract sample_interpreter trend_fallback (replicate 1001 91%N)
     = Raise (recursion_error true).
Proof.
  split.
  - intros [interp Hclaim].
    destruct (Hclaim TrendReport (replicate (S (max_depth interp)) 91%N))
      as (d & _ & _ & Hd & _).
    + intros v. rewrite parse_json_too_deep. discriminate.
    + unfold extract in Hd. rewrite parse_json_too_deep in Hd. discriminate.
  - pose proof (parse_json_too_deep sample_interpreter) as Hdeep.
    change (S (max_depth sample_interpreter)) with 1001 in Hdeep.
    split.
    + intros v. rewrite Hdeep. discriminate.
    + unfold extract. rewrite Hdeep. reflexivity.
Qed.

(** ** Starting a run *)

(** C6.  [start_run] with an empty topic (or none) answers 400 at once: the
    response carries no run identifier, the run table is unchanged (no
    queue is created) and no thread is started. *)
Theorem start_run_empty_topic (float_nonzero : pystr -> bool) (data : json)
    (uuid : pystr) (sv : server) :
  py_get data (py "topic") (JStr []) = Ret (JStr []) ->
  exists resp,
    start_run float_nonzero data uuid sv = (Ret resp, sv)
    /\ status resp = 400
    /\ py_get (body resp) (py "run_id") JNull = Ret JNull
    /\ body resp = JObj [(py "error", JStr (py "topic is required"))].
Proof.
  intros Htopic. unfold start_run. rewrite Htopic. simpl.
  eexists. split; [reflexivity|]. by vm_compute.
Qed.

Lemma start_run_empty_topic_witness :
  let data := JObj [(py "topic", JStr []); (py "include_voice", JBool true)] in
  let sv := Server ∅ [] in
  py_get data (py "topic") (JStr []) = Ret (JStr [])
  /\ exists resp,
       start_run (fun _ => true) data (py "run-1") sv = (Ret resp, sv)
       /\ status resp = 400
       /\ py_get (body resp) (py "run_id") JNull = Ret JNull
       /\ body resp = JObj [(py "error", JStr (py "topic is required"))].
Proof.
  split; [vm_compute; reflexivity|].
  apply (start_run_empty_topic (fun _ => true)). vm_compute; reflexivity.
Defined.

(** C10.  A topic made of whitespace only is rejected exactly as the empty
    topic is: it is stripped before the test, so [start_run] gives the same
    400 response and leaves the run table and the threads as they were. *)
Theorem start_run_blank_topic (float_nonzero : pystr -> bool) (data : json)
    (uuid : pystr) (sv : server) (t : pystr) :
  py_get data (py "topic") (JStr []) = Ret (JStr t) ->
  forallb isspace t = true ->
  start_run float_nonzero data uuid sv
  = (Ret (Response 400 (JObj [(py "error", JStr (py "topic is required"))])), sv)
  /\ start_run float_nonzero data uuid sv
     = start_run float_nonzero (JObj [(py "topic", JStr [])]) uuid sv.
Proof.
  intros Htopic Hblank. unfold start_run. rewrite Htopic.
  rewrite (strip_spaces t Hblank). split; reflexivity.
Qed.

Lemma start_run_blank_topic_witness :
  let t := [32; 9; 10; 160; 8195; 12288]%N in
  let data := JObj [(py "topic", JStr t)] in
  let sv := Server ∅ [] in
  (py_get data (py "topic") (JStr []) = Ret (JStr t)
   /\ forallb isspace t = true)
  /\ start_run (fun _ => true) data (py "run-1") sv
     = (Ret (Response 400 (JObj [(py "error", JStr (py "topic is required"))])), sv).
Proof.
  split; [split; vm_compute; reflexivity|].
  apply (start_run_blank_topic (fun _ => true) _ _ _ [32; 9; 10; 160; 8195; 12288]%N);
    vm_compute; reflexivity.
Defined.

(** ** Running monadic code *)

Lemma bind_run {A B} (m : M A) (k : A -> M B) (st : state) :
  (m ≫= k) st
  = match m st with
    | (Ret a, st') => k a st'
    | (Raise e, st') => (Raise e, st')
    end.
Proof. reflexivity. Qed.

Lemma bind_ret_inv {A B} (m : M A) (k : A -> M B) (st st' : state) (b : B) :
  (m ≫= k) st = (Ret b, st') ->
  exists a st1, m st = (Ret a, st1) /\ k a st1 = (Ret b, st').
Proof.
  rewrite bind_run. destruct (m st) as [[a|e] st1]; [eauto|done].
Qed.

(** ** The Data stage *)

Section DataAgent.
Variable reka : nat -> pystr -> outcome pystr.
Variable tavily : pystr -> outcome (list hit).

Lemma log_returns (emit : Emitter) (msg : pystr) (st : state) :
  exists st', log emit msg st = (Ret tt, st').
Proof. destruct emit; eexists; reflexivity. Qed.

Lemma summarise_articles (emit : Emitter) (items : list hit) :
  forall acc st arts st',
    summarise reka emit items acc st = (Ret arts, st') ->
    exists new,
      arts = acc ++ new
      /\ map headline new = map hit_headline items
      /\ map source new = map hit_source items.
Proof.
  induction items as [|item rest IH]; intros acc st arts st'; simpl.
  - intros [= <- <-]. exists []. by rewrite app_nil_r.
  - intros (summary & st1 & _ & Hk)%bind_ret_inv.
    apply bind_ret_inv in Hk as ([] & st2 & _ & Hrest).
    apply IH in Hrest as (new & -> & Hh & Hs).
    eexists (_ :: new). rewrite <- app_assoc. split; [reflexivity|].
    simpl. by rewrite Hh, Hs.
Qed.

Lemma chat_returns (system user : pystr) (st : state) :
  (forall n m, exists text, reka n m = Ret text) ->
  exists raw st', _chat reka system user st = (Ret raw, st').
Proof.
  intros Hreka. unfold _chat.
  edestruct Hreka as [text ->]. eauto.
Qed.

Lemma summarise_returns (emit : Emitter) (items : list hit) :
  (forall n m, exists text, reka n m = Ret text) ->
  forall acc st, exists arts st',
    summarise reka emit items acc st = (Ret arts, st').
Proof.
  intros Hreka. induction items as [|item rest IH]; intros acc st; simpl.
  - eauto.
  - rewrite bind_run.
    edestruct chat_returns as (raw & st1 & ->); [done|].
    rewrite bind_run.
    edestruct log_returns as (st2 & ->). apply IH.
Qed.

(** C7.  When the search gives [hits], the Data stage returns (provided
    every summarising call returns) and what it returns is at most
    [MAX_ARTICLES] = 5 articles, one per hit and in the order of the hits:
    the headlines and sources are those of the first five hits, in that
    order. *)
Theorem data_agent_capped_in_order (topic : pystr) (emit : Emitter)
    (hits : list hit) (st : state) :
  tavily topic = Ret hits ->
  ((forall n m, exists text, reka n m = Ret text) ->
   exists arts st', data_agent reka tavily topic emit st = (Ret arts, st'))
  /\ forall arts st',
       data_agent reka tavily topic emit st = (Ret arts, st') ->
       length arts <= 5
       /\ length arts = min MAX_ARTICLES (length hits)
       /\ map headline arts = map hit_headline (take MAX_ARTICLES hits)
       /\ map source arts = map hit_source (take MAX_ARTICLES hits).
Proof.
  intros Hsearch. unfold data_agent. split.
  - intros Hreka. rewrite bind_run.
    edestruct log_returns as (st1 & ->).
    rewrite bind_run. unfold search at 1. rewrite Hsearch.
    destruct hits as [|h hits'].
    + rewrite bind_run. edestruct log_returns as (st2 & ->). eauto.
    + by apply summarise_returns.
  - intros arts st' (u & st1 & _ & Hk)%bind_ret_inv.
    apply bind_ret_inv in Hk as (raw_results & st2 & Hs & Hk).
    unfold search in Hs. rewrite Hsearch in Hs. injection Hs as <- <-.
    assert (Hgoal : length arts = min MAX_ARTICLES (length hits)
              /\ map headline arts = map hit_headline (take MAX_ARTICLES hits)
              /\ map source arts = map hit_source (take MAX_ARTICLES hits)).
    { destruct hits as [|h hits'].
      - apply bind_ret_inv in Hk as (? & ? & _ & [= <- <-]). done.
      - apply summarise_articles in Hk as (new & -> & Hh & Hsrc).
        simpl app. split; [|done].
        rewrite <- (length_map headline), Hh, length_map, length_take. done. }
    destruct Hgoal as (Hlen & ? & ?). unfold MAX_ARTICLES in *.
    repeat split; try done. lia.
Qed.

End DataAgent.

Lemma data_agent_capped_in_order_witness :
  let reka := fun (_ : nat) (_ : pystr) => Ret (py "One sentence.") in
  let tavily := fun (_ : pystr) => Ret sample_hits in
  tavily (py "AI hardware market") = Ret sample_hits
  /\ exists arts st',
       data_agent reka tavily (py "AI hardware market") None empty_state
         = (Ret arts, st')
       /\ length arts = 5
       /\ map headline arts = map hit_headline (take 5 sample_hits).
Proof.
  intros reka tavily. split; [reflexivity|].
  destruct (data_agent_capped_in_order reka tavily (py "AI hardware market")
              None sample_hits empty_state eq_refl) as [Hret Hprop].
  destruct Hret as (arts & st' & Hrun); [intros; eexists; reflexivity|].
  exists arts, st'. split; [exact Hrun|].
  destruct (Hprop arts st' Hrun) as (_ & Hlen & Hh & _).
  split; [exact Hlen|exact Hh].
Defined.

(** ** The empty-search abort *)

(** Unfolds the executor and the Data stage down to the writes. *)
Ltac run_pipeline :=
  cbv beta iota zeta delta
    [_run_pipeline pipeline_body data_agent search emit log print modify
     mbind M_bind mret M_ret emit_q put queue printed reka_calls tavily_calls].

(** C2.  When the search call of the Data stage gives zero hits, the run
    writes exactly [aborted_stream]: one error event, no done event, no
    progress event of the Trend, Strategy, Risk or Voice stage; and no
    request is sent to the reasoning service, which every later stage would
    do first. *)
Theorem empty_search_aborts (interp : interpreter)
    (reka : nat -> pystr -> outcome pystr)
    (tavily : pystr -> outcome (list hit)) (py_repr : json -> pystr)
    (topic : pystr) (include_voice : bool) (st : state) :
  tavily topic = Ret [] ->
  let st' := _run_pipeline interp reka tavily py_repr topic include_voice st in
  queue st' = queue st ++ aborted_stream topic
  /\ count (item_is is_error) (aborted_stream topic) = 1
  /\ count (item_is is_done) (aborted_stream topic) = 0
  /\ (forall s, s ∈ [Trend; Strategy; Risk; Voice] ->
      count (item_is (progress_event s)) (aborted_stream topic) = 0)
  /\ reka_calls st' = reka_calls st.
Proof.
  intros Hsearch st'. subst st'.
  run_pipeline. rewrite Hsearch. run_pipeline.
  destruct st; unfold aborted_stream.
  split; [|split; [|split; [|split]]].
  - rewrite <- !app_assoc. reflexivity.
  - vm_compute. reflexivity.
  - vm_compute. reflexivity.
  - intros s Hs.
    repeat (apply elem_of_cons in Hs as [->|Hs]); try (vm_compute; reflexivity).
    by apply elem_of_nil in Hs.
  - reflexivity.
Qed.

Lemma empty_search_aborts_witness :
  let reka := fun (_ : nat) (_ : pystr) => Ret (py "unused") in
  let tavily := fun (_ : pystr) => @Ret (list hit) [] in
  let st' := _run_pipeline sample_interpreter reka tavily (fun _ => [])
               (py "AI hardware market") true empty_state in
  tavily (py "AI hardware market") = Ret []
  /\ queue st' = aborted_stream (py "AI hardware market")
  /\ reka_calls st' = [].
Proof.
  intros reka tavily st'. split; [reflexivity|].
  destruct (empty_search_aborts sample_interpreter reka tavily (fun _ => [])
              (py "AI hardware market")
              true empty_state eq_refl) as (Hq & _ & _ & _ & Hcalls).
  split; [exact Hq|exact Hcalls].
Defined.

(** ** What a run writes to its queue *)

Section QueueInvariant.
Variable interp : interpreter.
Variable reka : nat -> pystr -> outcome pystr.
Variable tavily : pystr -> outcome (list hit).
Variable py_repr : json -> pystr.

(** [P] is a property of queue items that every [log] event has whose
    message is not a progress message of the Voice stage. *)
Variable P : pystr -> bool.
Hypothesis P_log :
  forall msg, progress_of Voice msg = false -> P (_sse (py "log") msg) = true.

Lemma extends_refl (st : state) : extends P st st.
Proof. exists []. by rewrite app_nil_r. Qed.

Lemma extends_same (st st' : state) : queue st' = queue st -> extends P st st'.
Proof. intros H. exists []. by rewrite app_nil_r. Qed.

Lemma extends_trans (st1 st2 st3 : state) :
  extends P st1 st2 -> extends P st2 st3 -> extends P st1 st3.
Proof.
  intros (xs & Hxs & Pxs) (ys & Hys & Pys). exists (xs ++ ys).
  rewrite Hys, Hxs, map_app, app_assoc, forallb_app, Pxs, Pys. done.
Qed.

Lemma extends_put (st : state) (item : pystr) :
  P item = true -> extends P st (put (Some item) st).
Proof. intros HP. exists [item]. simpl. by rewrite HP. Qed.

Lemma keeps_ret {A} (a : A) : keeps P (mret a).
Proof. intros st. apply extends_refl. Qed.

Lemma keeps_bind {A B} (m : M A) (k : A -> M B) :
  keeps P m -> (forall a, keeps P (k a)) -> keeps P (m ≫= k).
Proof.
  intros Hm Hk st. rewrite bind_run. specialize (Hm st).
  destruct (m st) as [[a|e] st1]; simpl in *; [|done].
  eapply extends_trans; [exact Hm|apply Hk].
Qed.

Lemma keeps_lift {A} (o : outcome A) : keeps P (lift o).
Proof. intros st. apply extends_refl. Qed.

Lemma keeps_print (msg : pystr) : keeps P (print msg).
Proof. intros st. by apply extends_same. Qed.

Lemma keeps_emit (msg : pystr) :
  P (_sse (py "log") msg) = true -> keeps P (emit msg).
Proof. intros HP st. by apply extends_put. Qed.

Lemma keeps_log (msg : pystr) :
  P (_sse (py "log") msg) = true -> keeps P (log (Some emit_q) msg).
Proof.
  intros HP. apply keeps_bind; [apply keeps_print|].
  intros _. by apply keeps_emit.
Qed.

Lemma keeps_chat (system user : pystr) : keeps P (_chat reka system user).
Proof.
  intros st. unfold _chat. destruct (reka _ _); by apply extends_same.
Qed.

Lemma keeps_search (topic : pystr) : keeps P (search tavily topic).
Proof. intros st. by apply extends_same. Qed.

Local Ltac plain_message := apply P_log; vm_compute; reflexivity.

Lemma keeps_summarise (items : list hit) (acc : list article) :
  keeps P (summarise reka (Some emit_q) items acc).
Proof.
  revert acc. induction items as [|item rest IH]; intros acc; simpl.
  - apply keeps_ret.
  - apply keeps_bind; [apply keeps_chat|]. intros summary.
    apply keeps_bind; [apply keeps_log; plain_message|]. intros _. apply IH.
Qed.

Lemma keeps_data_agent (topic : pystr) :
  keeps P (data_agent reka tavily topic (Some emit_q)).
Proof.
  unfold data_agent.
  apply keeps_bind; [apply keeps_log; plain_message|]. intros _.
  apply keeps_bind; [apply keeps_search|]. intros [|h hits].
  - apply keeps_bind; [apply keeps_log; plain_message|]. intros _.
    apply keeps_ret.
  - apply keeps_summarise.
Qed.

Lemma keeps_log_numbered (label : pystr) (xs : list json) (i : Z) :
  keeps P (log_numbered py_repr (Some emit_q) label i xs).
Proof.
  revert i. induction xs as [|x xs IH]; intros i; simpl.
  - apply keeps_ret.
  - apply keeps_bind; [apply keeps_log; plain_message|]. intros _. apply IH.
Qed.

Lemma keeps_log_entries (label key : pystr) (result : json) :
  keeps P (log_entries py_repr (Some emit_q) label key result).
Proof.
  unfold log_entries.
  apply keeps_bind; [apply keeps_lift|]. intros entries.
  apply keeps_bind; [apply keeps_lift|]. intros xs.
  apply keeps_log_numbered.
Qed.

Lemma keeps_bullets (data : json) (key : pystr) :
  keeps P (bullets py_repr data key).
Proof.
  unfold bullets.
  apply keeps_bind; [apply keeps_lift|]. intros entries.
  apply keeps_bind; [apply keeps_lift|]. intros xs. apply keeps_ret.
Qed.

Lemma keeps_joined (sep : pystr) (data : json) (key : pystr) :
  keeps P (joined sep data key).
Proof.
  unfold joined. apply keeps_bind; [apply keeps_lift|]. intros entries.
  apply keeps_lift.
Qed.

Lemma keeps_trend_agent (articles : list article) :
  keeps P (trend_agent interp reka py_repr articles (Some emit_q)).
Proof.
  unfold trend_agent.
  apply keeps_bind; [apply keeps_log; plain_message|]. intros _.
  apply keeps_bind; [apply keeps_chat|]. intros raw.
  apply keeps_bind; [apply keeps_lift|]. intros result.
  apply keeps_bind; [apply keeps_log_entries|]. intros _. apply keeps_ret.
Qed.

Lemma keeps_strategy_agent (trend_data : json) :
  keeps P (strategy_agent interp reka py_repr trend_data (Some emit_q)).
Proof.
  unfold strategy_agent.
  apply keeps_bind; [apply keeps_log; plain_message|]. intros _.
  apply keeps_bind; [apply keeps_bullets|]. intros trend_text.
  apply keeps_bind; [apply keeps_bullets|]. intros sentiment_text.
  apply keeps_bind; [apply keeps_chat|]. intros raw.
  apply keeps_bind; [apply keeps_lift|]. intros result.
  apply keeps_bind; [apply keeps_log_entries|]. intros _. apply keeps_ret.
Qed.

Lemma keeps_risk_agent (trend_data strategy_data : json) :
  keeps P (risk_agent interp reka py_repr trend_data strategy_data (Some emit_q)).
Proof.
  unfold risk_agent.
  apply keeps_bind; [apply keeps_log; plain_message|]. intros _.
  apply keeps_bind; [apply keeps_bullets|]. intros trend_text.
  apply keeps_bind; [apply keeps_bullets|]. intros strategy_text.
  apply keeps_bind; [apply keeps_chat|]. intros raw.
  apply keeps_bind; [apply keeps_lift|]. intros result.
  apply keeps_bind; [apply keeps_log_entries|]. intros _. apply keeps_ret.
Qed.

(** The Voice stage writes [log] events of its own: they are kept when
    [P] holds of every [log] event. *)
Lemma keeps_voice_agent (report_text : pystr) :
  (forall msg, P (_sse (py "log") msg) = true) ->
  keeps P (voice_agent reka report_text (Some emit_q)).
Proof.
  intros Hall. unfold voice_agent.
  apply keeps_bind; [by apply keeps_log|]. intros _. apply keeps_chat.
Qed.

Lemma keeps_voice_step (topic : pystr) (include_voice : bool)
    (trends strategy risks : json) :
  (include_voice = true -> forall msg, P (_sse (py "log") msg) = true) ->
  keeps P (voice_step reka topic include_voice trends strategy risks).
Proof.
  intros Hall. unfold voice_step. destruct include_voice; [|apply keeps_ret].
  specialize (Hall eq_refl).
  apply keeps_bind; [by apply keeps_emit|]. intros _.
  apply keeps_bind; [apply keeps_joined|]. intros t.
  apply keeps_bind; [apply keeps_joined|]. intros o.
  apply keeps_bind; [apply keeps_joined|]. intros r.
  apply keeps_bind; [by apply keeps_voice_agent|]. intros script.
  apply keeps_ret.
Qed.

Lemma voice_step_skipped (topic : pystr) (trends strategy risks : json)
    (st : state) :
  voice_step reka topic false trends strategy risks st = (Ret None, st).
Proof. reflexivity. Qed.

Local Ltac step lem Hacc x :=
  rewrite bind_run;
  match type of lem with
  | keeps _ ?m =>
      match goal with
      | |- context [m ?st] =>
          let Hext := fresh "Hext" in
          pose proof (lem st) as Hext;
          destruct (m st) as [[x|?] ?]; simpl in Hext;
          apply (extends_trans _ _ _ Hacc) in Hext; clear Hacc;
          rename Hext into Hacc; [|exact Hacc]
      end
  end.

(** The [try] body writes [log] events that satisfy [P] and then, unless
    it raises, one final event. *)
Lemma pipeline_body_writes (topic : pystr) (include_voice : bool) (st : state) :
  (include_voice = true -> forall msg, P (_sse (py "log") msg) = true) ->
  match pipeline_body interp reka tavily py_repr topic include_voice st with
  | (Raise _, st1) => extends P st st1
  | (Ret _, st1) =>
      exists st0 final,
        extends P st st0 /\ completion topic include_voice final
        /\ queue st1 = queue st0 ++ [Some final]
  end.
Proof.
  intros Hall. pose proof (extends_refl st) as Hacc.
  unfold pipeline_body.
  step (keeps_emit (ROCKET ++ py " Pipeline started for topic: '" ++ topic ++ py "'")
          ltac:(plain_message)) Hacc u1.
  step (keeps_emit (MAGNIFIER ++ py " [Data Agent] Searching for recent news...")
          ltac:(plain_message)) Hacc u2.
  step (keeps_data_agent topic) Hacc articles.
  destruct articles as [|art arts].
  - eexists _, _. split; [exact Hacc|]. split; [by left|]. reflexivity.
  - step (keeps_emit (CHART ++ py " [Trend Agent] Detecting market trends and sentiment shifts...")
            ltac:(plain_message)) Hacc u3.
    step (keeps_trend_agent (art :: arts)) Hacc trends.
    step (keeps_emit (BULB ++ py " [Strategy Agent] Generating strategic opportunities...")
            ltac:(plain_message)) Hacc u4.
    step (keeps_strategy_agent trends) Hacc strategy.
    step (keeps_emit (WARNING ++ py "  [Risk Agent] Identifying risks and weak signals...")
            ltac:(plain_message)) Hacc u5.
    step (keeps_risk_agent trends strategy) Hacc risks.
    rewrite bind_run.
    match goal with |- context [voice_step _ _ _ _ _ _ ?s] =>
      pose proof (keeps_voice_step topic include_voice trends strategy risks Hall s) as Hv;
      pose proof (voice_step_skipped topic trends strategy risks s) as Hskip;
      destruct (voice_step reka topic include_voice trends strategy risks s)
        as [[voice|?] ?] eqn:Hvoice
    end; simpl in Hv; apply (extends_trans _ _ _ Hacc) in Hv; [|exact Hv].
    step (keeps_emit (CHECK_BUTTON ++ py " Pipeline complete.") ltac:(plain_message)) Hv u6.
    eexists _, _. split; [exact Hv|]. split; [|reflexivity].
    right. eexists _, _, _, _, voice. split; [|reflexivity].
    intros ->. rewrite Hskip in Hvoice. congruence.
Qed.

(** The whole of [_run_pipeline]: [log] events that satisfy [P], one
    final event, the sentinel. *)
Lemma run_pipeline_writes (topic : pystr) (include_voice : bool) (st : state) :
  (include_voice = true -> forall msg, P (_sse (py "log") msg) = true) ->
  exists logs final,
    queue (_run_pipeline interp reka tavily py_repr topic include_voice st)
    = queue st ++ map Some logs ++ [Some final; None]
    /\ forallb P logs = true
    /\ (completion topic include_voice final
        \/ exists exc, final = _sse (py "error") (py "Pipeline error: " ++ exn_msg exc)).
Proof.
  intros Hall. unfold _run_pipeline.
  pose proof (pipeline_body_writes topic include_voice st Hall) as Hbody.
  destruct (pipeline_body interp reka tavily py_repr topic include_voice st)
    as [[u|exc] st1].
  - destruct Hbody as (st0 & final & (logs & Hq0 & HP) & Hfinal & Hq1).
    exists logs, final. split; [|by auto].
    simpl. rewrite Hq1, Hq0, <- !app_assoc. reflexivity.
  - destruct Hbody as (logs & Hq & HP).
    eexists logs, _. split; [|by eauto].
    simpl. rewrite Hq, <- !app_assoc. reflexivity.
Qed.

End QueueInvariant.

(** *** Kinds of events *)

Lemma has_kind_sse (kind data : pystr) : has_kind kind (_sse kind data) = true.
Proof.
  unfold has_kind, _sse.
  assert (E : forall a b c r : pystr, a ++ b ++ c ++ r = (a ++ b ++ c) ++ r)
    by (intros; by rewrite <- !app_assoc).
  rewrite E. apply startswith_app.
Qed.

Lemma startswith_payload (p msg : pystr) :
  Forall (fun a => a <> NEWLINE /\ a <> BACKSLASH) p ->
  startswith p (replace_char NEWLINE ESCAPED_NEWLINE msg ++ NL ++ NL)
  = startswith p msg.
Proof.
  intros Hp. revert msg. induction Hp as [|a p [Hnl Hbs] _ IH]; intros msg; [done|].
  destruct msg as [|c msg]; simpl.
  - by apply N.eqb_neq in Hnl as ->.
  - destruct (N.eqb_spec c NEWLINE) as [->|Hc]; simpl.
    + apply N.eqb_neq in Hbs as ->. by apply N.eqb_neq in Hnl as ->.
    + by rewrite IH.
Qed.

(** A [log] event is a progress event of the Voice stage only if its
    message is a progress message of that stage. *)
Lemma plain_log (msg : pystr) :
  progress_of Voice msg = false ->
  is_log (_sse (py "log") msg) && negb (progress_event Voice (_sse (py "log") msg))
  = true.
Proof.
  intros Hmsg. unfold is_log. rewrite has_kind_sse. simpl.
  apply negb_true_iff. transitivity (progress_of Voice msg); [|exact Hmsg].
  unfold progress_event, progress_of, progress_prefixes, existsb.
  change (_sse (py "log") msg)
    with ((py "event: log" ++ NL ++ py "data: ")
          ++ (replace_char NEWLINE ESCAPED_NEWLINE msg ++ NL ++ NL)).
  assert (E : forall a b c r : pystr, a ++ b ++ c ++ r = (a ++ b ++ c) ++ r)
    by (intros; by rewrite <- !app_assoc).
  rewrite !(E (py "event: log") NL (py "data: ")), !startswith_app_both.
  rewrite !startswith_payload; [done|..]; vm_compute; repeat constructor; done.
Qed.

(** ** The stream seen by the consumer *)

Lemma step_delivered (c c' : channel) : step c c' -> delivered c' = delivered c.
Proof.
  destruct 1; unfold delivered; simpl.
  - by rewrite <- !app_assoc.
  - by rewrite map_app, <- !app_assoc.
  - reflexivity.
Qed.

Lemma steps_delivered (c c' : channel) :
  rtc step c c' -> delivered c' = delivered c.
Proof.
  induction 1 as [|c1 c2 c3 H12 _ IH]; [done|].
  rewrite IH. by apply step_delivered.
Qed.

Lemma some_prefix (xs ys : list pystr) (r : list (option pystr)) :
  map Some xs ++ r = map Some ys ++ [None] -> exists k, xs = take k ys.
Proof.
  revert ys. induction xs as [|x xs IH]; intros ys Heq.
  - by exists 0.
  - destruct ys as [|y ys]; [done|]. simpl in Heq.
    injection Heq as -> Heq. destruct (IH _ Heq) as [k ->].
    by exists (S k).
Qed.

Lemma some_until_none (xs ys : list pystr) (r : list (option pystr)) :
  map Some xs ++ None :: r = map Some ys ++ [None] -> xs = ys /\ r = [].
Proof.
  revert ys. induction xs as [|x xs IH]; intros ys Heq.
  - destruct ys as [|y ys]; [|done]. by injection Heq as ->.
  - destruct ys as [|y ys]; [done|]. simpl in Heq.
    injection Heq as -> Heq. destruct (IH _ Heq) as [-> ->]. done.
Qed.

Lemma none_in_rest (xs ys : list pystr) (r : list (option pystr)) :
  map Some xs ++ r = map Some ys ++ [None] -> None ∈ r.
Proof.
  intros Heq.
  assert (Hin : None ∈ map Some xs ++ r).
  { rewrite Heq. apply elem_of_app. right. apply list_elem_of_singleton. done. }
  apply elem_of_app in Hin as [Hin|Hin]; [|done].
  apply list_elem_of_fmap in Hin as (? & ? & _). done.
Qed.

(** The generator, left to run, takes everything up to the sentinel. *)
Lemma drain_buffer (buf pend : list (option pystr)) :
  forall out, None ∈ buf ->
  exists c', rtc step (Channel pend buf out false) c' /\ closed c' = true.
Proof.
  induction buf as [|item buf IH]; intros out Hin.
  - by apply elem_of_nil in Hin.
  - destruct item as [msg|].
    + apply elem_of_cons in Hin as [|Hin]; [done|].
      destruct (IH (out ++ [msg]) Hin) as (c' & Hsteps & Hc).
      exists c'. split; [|done]. eapply rtc_l; [apply step_yield|exact Hsteps].
    + eexists. split; [apply rtc_once, step_close|done].
Qed.

Lemma flush_pending (pend : list (option pystr)) :
  forall buf out,
    rtc step (Channel pend buf out false) (Channel [] (buf ++ pend) out false).
Proof.
  induction pend as [|item pend IH]; intros buf out.
  - rewrite app_nil_r. apply rtc_refl.
  - eapply rtc_l; [apply step_put|].
    replace (buf ++ item :: pend) with ((buf ++ [item]) ++ pend)
      by (by rewrite <- app_assoc).
    apply IH.
Qed.

Lemma count_app {A} (f : A -> bool) (l1 l2 : list A) :
  count f (l1 ++ l2) = count f l1 + count f l2.
Proof. induction l1 as [|x l1 IH]; simpl; [done|]. rewrite IH. lia. Qed.

Lemma count_marker_some (xs : list pystr) : count is_marker (map Some xs) = 0.
Proof. induction xs; simpl; done. Qed.

(** C3.  Whatever path a run takes, what it writes to its queue is a
    sequence of [log] events, then one terminal event ([done] or [error]),
    then the sentinel: the sentinel is written exactly once, as the last
    write.  However the executor's writes and the generator's reads
    interleave, the generator yields the events in the order written; when
    it takes the sentinel it has yielded all of them, the terminal event
    last, the queue is empty and no step is left; and it can always get
    there. *)
Theorem stream_order (interp : interpreter)
    (reka : nat -> pystr -> outcome pystr)
    (tavily : pystr -> outcome (list hit)) (py_repr : json -> pystr)
    (topic : pystr) (include_voice : bool) (st : state) :
  exists logs final,
    let writes := map Some logs ++ [Some final; None] in
    queue (_run_pipeline interp reka tavily py_repr topic include_voice st)
    = queue st ++ writes
    /\ forallb is_log logs = true
    /\ is_done final || is_error final = true
    /\ count is_marker writes = 1
    /\ last writes = Some None
    /\ forall c,
         rtc step (Channel writes [] [] false) c ->
         (exists k, seen c = take k (logs ++ [final]))
         /\ (closed c = true ->
             seen c = logs ++ [final] /\ buffer c = [] /\ pending c = []
             /\ forall c', ~ step c c')
         /\ exists c', rtc step c c' /\ closed c' = true.
Proof.
  destruct (run_pipeline_writes interp reka tavily py_repr is_log
              (fun msg _ => has_kind_sse (py "log") msg)
              topic include_voice st (fun _ msg => has_kind_sse (py "log") msg))
    as (logs & final & Hq & Hlogs & Hfinal).
  exists logs, final. intros writes.
  split; [exact Hq|]. split; [exact Hlogs|].
  split.
  { destruct Hfinal as [[->|(? & ? & ? & ? & ? & _ & ->)]|[exc ->]].
    - apply orb_true_iff. right. apply has_kind_sse.
    - apply orb_true_iff. left. apply has_kind_sse.
    - apply orb_true_iff. right. apply has_kind_sse. }
  split.
  { subst writes. rewrite count_app, count_marker_some. reflexivity. }
  split.
  { subst writes. replace [Some final; None] with ([Some final] ++ [@None pystr]) by done.
    rewrite !app_assoc. apply last_snoc. }
  intros c Hsteps. apply steps_delivered in Hsteps.
  assert (Hw : writes = map Some (logs ++ [final]) ++ [None]).
  { subst writes. rewrite map_app, <- app_assoc. reflexivity. }
  unfold delivered in Hsteps. simpl in Hsteps. rewrite Hw in Hsteps. clear Hw.
  destruct c as [pend buf out fin]. simpl in *.
  destruct fin.
  - apply some_until_none in Hsteps as [-> Hrest].
    apply app_eq_nil in Hrest as [-> ->].
    split; [exists (length (logs ++ [final])); by rewrite take_ge|].
    split; [|eexists; split; [apply rtc_refl|done]].
    intros _. repeat split. intros c' Hstep. inversion Hstep.
  - split; [by apply some_prefix in Hsteps|].
    split; [done|].
    apply none_in_rest in Hsteps.
    destruct (drain_buffer (buf ++ pend) [] out Hsteps) as (c' & Hc' & Hclosed).
    exists c'. split; [|done].
    eapply rtc_trans; [apply flush_pending|exact Hc'].
Qed.

(** ** Runs without the Voice stage *)

(** C8.  A run with [include_voice = False] writes no progress event of
    the Voice stage, and if it ends in a [done] event, the event carries
    the dump of a report whose [voice_script] is [None]. *)
Theorem no_voice_when_excluded (interp : interpreter)
    (reka : nat -> pystr -> outcome pystr)
    (tavily : pystr -> outcome (list hit)) (py_repr : json -> pystr)
    (topic : pystr) (st : state) :
  exists logs final,
    queue (_run_pipeline interp reka tavily py_repr topic false st)
    = queue st ++ map Some logs ++ [Some final; None]
    /\ forallb (fun item => negb (progress_event Voice item)) (logs ++ [final]) = true
    /\ (is_done final = true ->
        exists articles trends strategy risks,
          let report := build_report topic articles trends strategy risks None in
          final = _sse (py "done") (json_dumps report)
          /\ py_get report (py "voice_script") (JStr (py "absent")) = Ret JNull).
Proof.
  destruct (run_pipeline_writes interp reka tavily py_repr
              (fun item => is_log item && negb (progress_event Voice item))
              plain_log topic false st) as (logs & final & Hq & Hlogs & Hfinal);
    [done|].
  exists logs, final. split; [exact Hq|]. split.
  - rewrite forallb_app. apply andb_true_iff. split.
    + clear -Hlogs. induction logs as [|x logs IH]; [done|]. simpl in *.
      apply andb_true_iff in Hlogs as [[_ ->]%andb_true_iff Hrest]. auto.
    + simpl. rewrite andb_true_r.
      destruct Hfinal as [[->|(? & ? & ? & ? & ? & _ & ->)]|[exc ->]].
      * vm_compute. reflexivity.
      * generalize (json_dumps (build_report topic x x0 x1 x2 x3)). intros data.
        vm_compute. reflexivity.
      * generalize (exn_msg exc). intros msg. vm_compute. reflexivity.
  - intros Hdone.
    destruct Hfinal as [[->|(arts & tr & sg & rk & voice & Hvoice & ->)]|[exc ->]].
    + vm_compute in Hdone. done.
    + rewrite (Hvoice eq_refl). exists arts, tr, sg, rk. split; [reflexivity|].
      vm_compute. reflexivity.
    + revert Hdone. generalize (exn_msg exc). intros msg Hdone.
      vm_compute in Hdone. done.
Qed.

(** *** A complete run, for illustration *)

Example sample_run_without_voice :
  count (item_is is_done) (queue (sample_run sample_reka false)) = 1
  /\ count (item_is is_error) (queue (sample_run sample_reka false)) = 0
  /\ count (item_is (progress_event Voice)) (queue (sample_run sample_reka false)) = 0
  /\ length (reka_calls (sample_run sample_reka false)) = 8.
Proof. vm_compute. done. Qed.

Example sample_run_with_voice :
  count (item_is is_done) (queue (sample_run sample_reka true)) = 1
  /\ count (item_is (progress_event Voice)) (queue (sample_run sample_reka true)) = 2
  /\ length (reka_calls (sample_run sample_reka true)) = 9.
Proof. vm_compute. done. Qed.

(** ** A response that decodes to something other than a mapping *)

(** C1 (the code departs from it).  A Trend response that is valid JSON
    but not a mapping is not replaced by the fallback: [_parse_json]
    returns the list, [result.get] raises [AttributeError], and the run
    ends with an [error] event and no [done] event; the Strategy and Risk
    stages are never reached. *)
Theorem wrong_shape_surfaces_error :
  let st' := sample_run list_reply_reka true in
  _parse_json sample_interpreter list_reply
  = Loaded (JArr [JStr (py "Chip demand grows"); JStr (py "Supply tightens")])
  /\ extract sample_interpreter trend_fallback list_reply
     <> Ret (trend_fallback list_reply)
  /\ last (queue st') = Some None
  /\ Some (Some (_sse (py "error")
                   (py "Pipeline error: 'list' object has no attribute 'get'")))
     = queue st' !! (length (queue st') - 2)
  /\ count (item_is is_error) (queue st') = 1
  /\ count (item_is is_done) (queue st') = 0
  /\ count (item_is (progress_event Strategy)) (queue st') = 0
  /\ length (reka_calls st') = 6.
Proof. vm_compute. repeat split; done. Qed.

(** ** Encoding and decoding a structured result *)

Ltac Zify.zify_post_hook ::= Z.to_euclidean_division_equations.

Ltac nb :=
  repeat match goal with
  | |- context [(?a =? ?b)%N] => destruct (N.eqb_spec a b)
  | |- context [(?a <=? ?b)%N] => destruct (N.leb_spec a b)
  | |- context [(?a <? ?b)%N] => destruct (N.ltb_spec a b)
  end; simpl; try lia; try reflexivity.

Lemma hex_digit_char (d : N) : (d < 16)%N -> hex_digit (hex_char d) = Some d.
Proof.
  intros Hd. unfold hex_digit, hex_char, is_digit. nb; f_equal; lia.
Qed.

Lemma hex4_escape (u : N) :
  (u < 65536)%N ->
  hex4 (hex_char (u / 4096)) (hex_char ((u / 256) mod 16))
       (hex_char ((u / 16) mod 16)) (hex_char (u mod 16)) = Some u.
Proof.
  intros Hu. unfold hex4.
  rewrite !hex_digit_char by lia. f_equal. lia.
Qed.

Lemma scanstring_cons (c : N) (s1 : pystr) :
  scanstring (c :: s1)
  = if (c =? 34)%N then Some ([], s1)
    else if (c =? 92)%N then
      match s1 with
      | [] => None
      | e :: s2 =>
          if (e =? 117)%N then
            match s2 with
            | h1 :: h2 :: h3 :: h4 :: s6 =>
                match hex4 h1 h2 h3 h4 with
                | None => None
                | Some u =>
                    if is_high_surrogate u then
                      match s6 with
                      | b :: u' :: l1 :: l2 :: l3 :: l4 :: s12 =>
                          if ((b =? 92) && (u' =? 117))%N then
                            match hex4 l1 l2 l3 l4 with
                            | None => None
                            | Some lo =>
                                if is_low_surrogate lo
                                then push (join_surrogates u lo) (scanstring s12)
                                else push u (scanstring s6)
                            end
                          else push u (scanstring s6)
                      | _ => push u (scanstring s6)
                      end
                    else push u (scanstring s6)
                end
            | _ => None
            end
          else
            match simple_escape e with
            | Some ch => push ch (scanstring s2)
            | None => None
            end
      end
    else if (c <=? 31)%N then None
    else push c (scanstring s1).
Proof. reflexivity. Qed.

Lemma scanstring_u (h1 h2 h3 h4 : N) (s6 : pystr) :
  scanstring (92 :: 117 :: h1 :: h2 :: h3 :: h4 :: s6)%N
  = match hex4 h1 h2 h3 h4 with
    | None => None
    | Some u =>
        if is_high_surrogate u then
          match s6 with
          | b :: u' :: l1 :: l2 :: l3 :: l4 :: s12 =>
              if ((b =? 92) && (u' =? 117))%N then
                match hex4 l1 l2 l3 l4 with
                | None => None
                | Some lo =>
                    if is_low_surrogate lo
                    then push (join_surrogates u lo) (scanstring s12)
                    else push u (scanstring s6)
                end
              else push u (scanstring s6)
          | _ => push u (scanstring s6)
          end
        else push u (scanstring s6)
    end.
Proof. reflexivity. Qed.

Lemma scan_u_escape (u : N) (tail : pystr) :
  (u < 65536)%N -> is_high_surrogate u = false ->
  scanstring (u_escape u ++ tail) = push u (scanstring tail).
Proof.
  intros Hu Hhigh. unfold u_escape. simpl app.
  rewrite scanstring_u, hex4_escape, Hhigh by done. reflexivity.
Qed.

Lemma scan_surrogate_pair (c : N) (tail : pystr) :
  (65536 <= c < 1114112)%N ->
  scanstring (u_escape (55296 + (c - 65536) / 1024)
              ++ u_escape (56320 + (c - 65536) mod 1024) ++ tail)
  = push c (scanstring tail).
Proof.
  intros Hc. unfold u_escape. simpl app.
  rewrite scanstring_u, hex4_escape by lia.
  assert (is_high_surrogate (55296 + (c - 65536) / 1024) = true) as ->
    by (unfold is_high_surrogate; nb).
  rewrite !N.eqb_refl. simpl andb. cbv iota.
  rewrite hex4_escape by lia.
  assert (is_low_surrogate (56320 + (c - 65536) mod 1024) = true) as ->
    by (unfold is_low_surrogate; nb).
  f_equal. unfold join_surrogates. lia.
Qed.

Lemma scan_escape_char (c : N) (tail : pystr) :
  scalar c = true ->
  scanstring (escape_char c ++ tail) = push c (scanstring tail).
Proof.
  intros Hc. unfold escape_char.
  assert (Hmax : (c < 1114112)%N) by (revert Hc; unfold scalar; nb).
  assert (Hhigh : is_high_surrogate c = false)
    by (revert Hc; unfold scalar, is_high_surrogate; nb).
  destruct (N.eqb_spec c 34) as [->|?]; [reflexivity|].
  destruct (N.eqb_spec c 92) as [->|?]; [reflexivity|].
  destruct (N.eqb_spec c 10) as [->|?]; [reflexivity|].
  destruct (N.eqb_spec c 13) as [->|?]; [reflexivity|].
  destruct (N.eqb_spec c 9) as [->|?]; [reflexivity|].
  destruct (N.eqb_spec c 12) as [->|?]; [reflexivity|].
  destruct (N.eqb_spec c 8) as [->|?]; [reflexivity|].
  assert (Hraw : (32 <= c <= 126)%N ->
                 scanstring ([c] ++ tail) = push c (scanstring tail)).
  { intros Hraw. simpl app. rewrite scanstring_cons. nb. }
  destruct (N.leb_spec 32 c); simpl andb; cbv iota.
  - destruct (N.leb_spec c 126); simpl andb; cbv iota; [apply Hraw; lia|].
    destruct (N.ltb_spec c 65536).
    + by apply scan_u_escape.
    + rewrite <- app_assoc. apply scan_surrogate_pair. lia.
  - destruct (N.ltb_spec c 65536); [|lia]. by apply scan_u_escape.
Qed.

Lemma scanstring_escaped (s rest : pystr) :
  text s ->
  scanstring (flat_map escape_char s ++ [DQUOTE] ++ rest) = Some (s, rest).
Proof.
  unfold text. induction s as [|c s IH]; [reflexivity|].
  intros [Hc Hs]%andb_prop.
  simpl flat_map. rewrite <- app_assoc, scan_escape_char, IH by done. reflexivity.
Qed.

Lemma encode_starts (s : pystr) :
  encode_basestring_ascii s = DQUOTE :: flat_map escape_char s ++ [DQUOTE].
Proof. reflexivity. Qed.

Lemma length_encode (s : pystr) : 2 <= length (encode_basestring_ascii s).
Proof. rewrite encode_starts. simpl. rewrite length_app. simpl. lia. Qed.

Section Decoding.
Variable interp : interpreter.

Lemma scan_once_string (f depth : nat) (s rest : pystr) :
  text s ->
  scan_once interp (S f) depth (encode_basestring_ascii s ++ rest)
  = Parsed (JStr s) rest.
Proof.
  intros Hs. rewrite encode_starts. simpl.
  rewrite <- app_assoc, scanstring_escaped by done. reflexivity.
Qed.

Lemma join_cons (sep x : pystr) (l : list pystr) :
  join sep (x :: l) = x ++ match l with [] => [] | _ => sep ++ join sep l end.
Proof. destruct l; simpl; [by rewrite app_nil_r|done]. Qed.

Lemma parse_items_S (f depth : nat) (s : pystr) :
  parse_items interp (S f) depth s
  = match scan_once interp f depth s with
    | Parsed v r =>
        match skip_ws r with
        | c :: r1 =>
            if (c =? 93)%N then Parsed [v] r1
            else if (c =? 44)%N then
              match parse_items interp f depth (skip_ws r1) with
              | Parsed vs r2 => Parsed (v :: vs) r2
              | p => stopped p
              end
            else Invalid
        | [] => Invalid
        end
    | p => stopped p
    end.
Proof. reflexivity. Qed.

Lemma skip_ws_quote (t : pystr) : skip_ws (DQUOTE :: t) = DQUOTE :: t.
Proof. reflexivity. Qed.

Lemma join_encode_starts (s : pystr) (ss : list pystr) :
  exists t, join SEP (map encode_basestring_ascii (s :: ss)) = DQUOTE :: t.
Proof. rewrite map_cons, join_cons, encode_starts. eauto. Qed.

Lemma parse_items_strings (ss : list pystr) :
  ss <> [] -> Forall text ss ->
  forall rest F depth,
    length (join SEP (map encode_basestring_ascii ss)) <= F ->
    parse_items interp F depth
      (join SEP (map encode_basestring_ascii ss) ++ [93%N] ++ rest)
    = Parsed (map JStr ss) rest.
Proof.
  intros Hne Hss. induction Hss as [|s ss Hs Hss IH]; [done|]. clear Hne.
  intros rest F depth HF. pose proof (length_encode s) as Hlen.
  destruct ss as [|s' ss'].
  - change (join SEP (map encode_basestring_ascii [s]))
      with (encode_basestring_ascii s) in *.
    destruct F as [|[|f]]; [lia|lia|].
    rewrite parse_items_S, scan_once_string by done. reflexivity.
  - change (join SEP (map encode_basestring_ascii (s :: s' :: ss')))
      with (encode_basestring_ascii s
            ++ SEP ++ join SEP (map encode_basestring_ascii (s' :: ss'))) in *.
    destruct (join_encode_starts s' ss') as [t Ht]. rewrite Ht in *.
    rewrite !length_app in HF. change (length SEP) with 2 in HF.
    destruct F as [|[|f]]; [lia|lia|].
    rewrite parse_items_S, <- !app_assoc, scan_once_string by done.
    change (SEP ++ (DQUOTE :: t) ++ [93%N] ++ rest)
      with (44%N :: 32%N :: (DQUOTE :: t) ++ [93%N] ++ rest).
    change (skip_ws (44%N :: 32%N :: (DQUOTE :: t) ++ [93%N] ++ rest))
      with (44%N :: 32%N :: (DQUOTE :: t) ++ [93%N] ++ rest).
    cbv iota. change (44 =? 93)%N with false. change (44 =? 44)%N with true.
    cbv iota.
    change (skip_ws (32%N :: (DQUOTE :: t) ++ [93%N] ++ rest))
      with ((DQUOTE :: t) ++ [93%N] ++ rest).
    rewrite IH; [reflexivity|done|lia].
Qed.

Lemma length_join_strings (ss : list pystr) :
  length ss <= length (join SEP (map encode_basestring_ascii ss)).
Proof.
  induction ss as [|s ss IH]; [done|].
  pose proof (length_encode s).
  destruct ss as [|s' ss'].
  - change (join SEP (map encode_basestring_ascii [s]))
      with (encode_basestring_ascii s). simpl length. lia.
  - change (join SEP (map encode_basestring_ascii (s :: s' :: ss')))
      with (encode_basestring_ascii s
            ++ SEP ++ join SEP (map encode_basestring_ascii (s' :: ss'))).
    rewrite !length_app. simpl length in *. lia.
Qed.

Lemma dumps_strings (ss : list pystr) :
  json_dumps (strings_json ss)
  = [91%N] ++ join SEP (map encode_basestring_ascii ss) ++ [93%N].
Proof.
  unfold strings_json. simpl. rewrite map_map. reflexivity.
Qed.

(** A list of strings is read back where one more level may be
    entered. *)
Lemma scan_once_strings (ss : list pystr) (rest : pystr) (F depth : nat) :
  Forall text ss ->
  length (json_dumps (strings_json ss)) <= F ->
  scan_once interp F (S depth) (json_dumps (strings_json ss) ++ rest)
  = Parsed (strings_json ss) rest.
Proof.
  intros Hss. rewrite dumps_strings. intros HF.
  rewrite !length_app in HF. simpl in HF.
  destruct F as [|f]; [lia|].
  destruct ss as [|s ss'].
  - reflexivity.
  - destruct (join_encode_starts s ss') as [t Ht].
    rewrite <- !app_assoc.
    pose proof (parse_items_strings (s :: ss') ltac:(done) Hss rest f depth
                  ltac:(lia)) as Hitems.
    rewrite Ht in *.
    change (scan_once interp (S f) (S depth)
              ([91%N] ++ (DQUOTE :: t) ++ [93%N] ++ rest))
      with (match parse_items interp f depth ((DQUOTE :: t) ++ [93%N] ++ rest) with
            | Parsed xs r' => Parsed (JArr xs) r'
            | p => stopped p
            end).
    rewrite Hitems. reflexivity.
Qed.

Lemma parse_pairs_S (f depth : nat) (s : pystr) :
  parse_pairs interp (S f) depth s
  = match s with
    | q :: s1 =>
        if (q =? 34)%N then
          match scanstring s1 with
          | Some (key, r) =>
              match skip_ws r with
              | c :: r1 =>
                  if (c =? 58)%N then
                    match scan_once interp f depth (skip_ws r1) with
                    | Parsed v r2 =>
                        match skip_ws r2 with
                        | c' :: r3 =>
                            if (c' =? 125)%N then Parsed [(key, v)] r3
                            else if (c' =? 44)%N then
                              match parse_pairs interp f depth (skip_ws r3) with
                              | Parsed ps r4 => Parsed ((key, v) :: ps) r4
                              | p => stopped p
                              end
                            else Invalid
                        | [] => Invalid
                        end
                    | p => stopped p
                    end
                  else Invalid
              | [] => Invalid
              end
          | None => Invalid
          end
        else Invalid
    | [] => Invalid
    end.
Proof. reflexivity. Qed.

Lemma pair_text_starts (kv : pystr * json) :
  exists t, pair_text kv = DQUOTE :: t.
Proof. unfold pair_text. rewrite encode_starts. eauto. Qed.

Lemma join_pairs_starts (kv : pystr * json) (d : list (pystr * json)) :
  exists t, join SEP (map pair_text (kv :: d)) = DQUOTE :: t.
Proof.
  rewrite map_cons, join_cons. destruct (pair_text_starts kv) as [t ->]. eauto.
Qed.

(** One pair, followed by anything: the key, the colon and the value are
    read, and what follows the value is left. *)
Lemma parse_pair_text (k : pystr) (ss : list pystr) (tail : pystr)
    (f depth : nat) :
  text k -> Forall text ss ->
  length (json_dumps (strings_json ss)) <= f ->
  parse_pairs interp (S f) (S depth) (pair_text (k, strings_json ss) ++ tail)
  = match skip_ws tail with
    | c' :: r3 =>
        if (c' =? 125)%N then Parsed [(k, strings_json ss)] r3
        else if (c' =? 44)%N then
          match parse_pairs interp f (S depth) (skip_ws r3) with
          | Parsed ps r4 => Parsed ((k, strings_json ss) :: ps) r4
          | p => stopped p
          end
        else Invalid
    | [] => Invalid
    end.
Proof.
  intros Hk Hss Hf. unfold pair_text. cbn [fst snd].
  rewrite encode_starts, parse_pairs_S.
  change ((DQUOTE :: flat_map escape_char k ++ [DQUOTE])
          ++ py ": " ++ json_dumps (strings_json ss)) 
    with (DQUOTE :: (flat_map escape_char k ++ [DQUOTE])
          ++ py ": " ++ json_dumps (strings_json ss)).
  cbn [app]. change (DQUOTE =? 34)%N with true. cbv iota.
  rewrite <- !app_assoc, scanstring_escaped by done.
  change (skip_ws (py ": " ++ json_dumps (strings_json ss) ++ tail))
    with (58%N :: 32%N :: json_dumps (strings_json ss) ++ tail).
  cbv iota. change (58 =? 58)%N with true. cbv iota.
  assert (Hv : skip_ws (32%N :: json_dumps (strings_json ss) ++ tail)
               = json_dumps (strings_json ss) ++ tail)
    by (rewrite dumps_strings; reflexivity).
  rewrite Hv, scan_once_strings by done. reflexivity.
Qed.

Lemma parse_pairs_reports (d : list (pystr * json)) :
  d <> [] -> Forall report_pair d ->
  forall rest F depth,
    length (join SEP (map pair_text d)) <= F ->
    parse_pairs interp F (S depth) (join SEP (map pair_text d) ++ [125%N] ++ rest)
    = Parsed d rest.
Proof.
  intros Hne Hd. induction Hd as [|[k v] d (Hk & ss & Hv & Hss) Hd IH]; [done|].
  clear Hne. simpl in Hk, Hv. subst v. intros rest F depth HF.
  assert (Hlen : length (json_dumps (strings_json ss)) + 4
                 <= length (pair_text (k, strings_json ss))).
  { unfold pair_text. cbn [fst snd]. rewrite !length_app.
    pose proof (length_encode k). change (length (py ": ")) with 2. lia. }
  destruct d as [|kv d'].
  - change (join SEP (map pair_text [(k, strings_json ss)]))
      with (pair_text (k, strings_json ss)) in *.
    destruct F as [|f]; [lia|].
    rewrite parse_pair_text by (done || lia). reflexivity.
  - change (join SEP (map pair_text ((k, strings_json ss) :: kv :: d')))
      with (pair_text (k, strings_json ss)
            ++ SEP ++ join SEP (map pair_text (kv :: d'))) in *.
    destruct (join_pairs_starts kv d') as [t Ht]. rewrite Ht in *.
    rewrite !length_app in HF. change (length SEP) with 2 in HF.
    destruct F as [|f]; [lia|].
    rewrite <- !app_assoc, parse_pair_text by (done || lia).
    change (skip_ws (SEP ++ (DQUOTE :: t) ++ [125%N] ++ rest))
      with (44%N :: 32%N :: (DQUOTE :: t) ++ [125%N] ++ rest).
    cbv iota. change (44 =? 125)%N with false. change (44 =? 44)%N with true.
    cbv iota.
    change (skip_ws (32%N :: (DQUOTE :: t) ++ [125%N] ++ rest))
      with ((DQUOTE :: t) ++ [125%N] ++ rest).
    rewrite IH; [reflexivity|done|lia].
Qed.

Lemma dict_set_fresh (k : pystr) (v : json) (d : list (pystr * json)) :
  k ∉ map fst d -> dict_set k v d = d ++ [(k, v)].
Proof.
  induction d as [|[k' w] d IH]; intros Hk; [done|].
  simpl in *. apply not_elem_of_cons in Hk as [Hne Hk].
  unfold pystr_eqb. rewrite bool_decide_eq_false_2 by done.
  by rewrite IH.
Qed.

Lemma dict_of_pairs_nodup (ps : list (pystr * json)) :
  NoDup (map fst ps) -> dict_of_pairs ps = ps.
Proof.
  unfold dict_of_pairs.
  assert (H : forall acc, NoDup (map fst (acc ++ ps)) ->
              fold_left (fun d kv => dict_set kv.1 kv.2 d) ps acc = acc ++ ps).
  { induction ps as [|[k v] ps IH]; intros acc Hnd; simpl.
    - by rewrite app_nil_r.
    - rewrite dict_set_fresh.
      + rewrite IH; rewrite <- app_assoc; done.
      + rewrite map_app in Hnd. simpl in Hnd.
        apply NoDup_app in Hnd as (_ & Hnd & _).
        intros Hin. apply (Hnd k Hin). left. }
  intros Hnd. by apply (H []).
Qed.

Lemma dumps_object (d : list (pystr * json)) :
  json_dumps (JObj d) = [123%N] ++ join SEP (map pair_text d) ++ [125%N].
Proof. reflexivity. Qed.

Lemma scan_once_object (f depth : nat) (t : pystr) :
  scan_once interp (S f) (S depth) (123%N :: DQUOTE :: t)
  = match parse_pairs interp f depth (DQUOTE :: t) with
    | Parsed ps r' => Parsed (JObj (dict_of_pairs ps)) r'
    | p => stopped p
    end.
Proof. reflexivity. Qed.

Lemma json_loads_object (s : pystr) :
  json_loads interp (123%N :: s)
  = match scan_once interp (scan_once_fuel (123%N :: s)) (max_depth interp)
            (123%N :: s) with
    | Parsed v r => match skip_ws r with [] => Loaded v | _ => DecodeError end
    | Overlong => DigitsError
    | Overdeep array => DepthError array
    | Invalid | Exhausted => DecodeError
    end.
Proof. reflexivity. Qed.

(** The text of a mapping of lists of strings has two levels: it is read
    back by an interpreter that admits two. *)
Lemma json_loads_dumps (v : json) :
  expected_shape v -> 2 <= max_depth interp ->
  json_loads interp (json_dumps v) = Loaded v.
Proof.
  intros (d & -> & Hnd & Hd) Hdepth. rewrite dumps_object.
  destruct (max_depth interp) as [|[|depth]] eqn:Hmax; [lia|lia|].
  destruct d as [|kv d'].
  - unfold json_loads. simpl. rewrite Hmax. reflexivity.
  - destruct (join_pairs_starts kv d') as [t Ht].
    pose proof (parse_pairs_reports (kv :: d') ltac:(done) Hd []) as Hpairs.
    rewrite Ht in *.
    change ([123%N] ++ (DQUOTE :: t) ++ [125%N])
      with (123%N :: DQUOTE :: (t ++ [125%N])).
    change ((DQUOTE :: t) ++ [125%N] ++ [])
      with (DQUOTE :: (t ++ [125%N])) in Hpairs.
    rewrite json_loads_object, Hmax. unfold scan_once_fuel.
    rewrite scan_once_object, Hpairs.
    + rewrite dict_of_pairs_nodup by done. reflexivity.
    + simpl length. rewrite length_app. simpl. lia.
Qed.

Lemma strip_bracketed (a z : N) (b : pystr) :
  isspace a = false -> isspace z = false ->
  strip (a :: b ++ [z]) = a :: b ++ [z].
Proof.
  intros Ha Hz. unfold strip, rstrip.
  assert (Hl : lstrip (a :: b ++ [z]) = a :: b ++ [z]) by (simpl; by rewrite Ha).
  rewrite Hl. rewrite reverse_cons, reverse_app, reverse_singleton, <- app_assoc.
  simpl. rewrite Hz.
  rewrite reverse_cons, reverse_app, reverse_involutive. reflexivity.
Qed.

Lemma endswith_other (p0 : N) (p : pystr) (a z : N) (b : pystr) :
  p0 <> z -> endswith (p ++ [p0]) (a :: b ++ [z]) = false.
Proof.
  intros Hne. unfold endswith.
  rewrite (reverse_app p), (reverse_cons (b ++ [z])), (reverse_app b).
  rewrite !reverse_singleton, <- !app_assoc.
  simpl. by apply N.eqb_neq in Hne as ->.
Qed.

Lemma parse_json_object_text (body : pystr) :
  _parse_json interp ([123%N] ++ body ++ [125%N])
  = json_loads interp ([123%N] ++ body ++ [125%N]).
Proof.
  unfold _parse_json. simpl app.
  rewrite strip_bracketed by reflexivity.
  change (startswith FENCE (123%N :: body ++ [125%N])) with false. cbv iota.
  change FENCE with ([96; 96]%N ++ [96%N]).
  rewrite endswith_other by done. reflexivity.
Qed.

(** C5.  For every structured value of the expected shape (a mapping with
    distinct keys, each holding a list of strings, of any length),
    [json.dumps] followed by the extraction gives the value back,
    unchanged: [_parse_json] returns it and no fallback replaces it.  The
    text has a list inside a mapping: the interpreter has to admit two
    levels of nesting. *)
Theorem extract_round_trip (v : json) (fallback : pystr -> json) :
  expected_shape v -> 2 <= max_depth interp ->
  _parse_json interp (json_dumps v) = Loaded v
  /\ extract interp fallback (json_dumps v) = Ret v.
Proof.
  intros Hv Hdepth.
  assert (Hparse : _parse_json interp (json_dumps v) = Loaded v).
  { pose proof (json_loads_dumps v Hv Hdepth) as Hloads.
    destruct Hv as (d & -> & _). rewrite dumps_object in *.
    by rewrite parse_json_object_text. }
  split; [exact Hparse|]. unfold extract. by rewrite Hparse.
Qed.

End Decoding.

Lemma long_trends_shape : expected_shape long_trends.
Proof.
  eexists. split; [reflexivity|]. split.
  - apply (bool_decide_unpack _). vm_compute. exact I.
  - repeat constructor; try (vm_compute; reflexivity).
    + exists [py "Chip demand grows"; py "Supply tightens"; py "Prices rise";
              py "New entrants" ++ [10; 34; 233; 128640]%N; []].
      split; [reflexivity|]. repeat constructor; vm_compute; reflexivity.
    + exists []. split; [reflexivity|]. constructor.
Qed.

Lemma extract_round_trip_witness :
  (expected_shape long_trends /\ 2 <= max_depth sample_interpreter)
  /\ _parse_json sample_interpreter (json_dumps long_trends) = Loaded long_trends
  /\ extract sample_interpreter trend_fallback (json_dumps long_trends)
     = Ret long_trends.
Proof.
  assert (Hdepth : 2 <= max_depth sample_interpreter) by (cbn; lia).
  split; [split; [exact long_trends_shape|exact Hdepth]|].
  exact (extract_round_trip sample_interpreter long_trends trend_fallback
           long_trends_shape Hdepth).
Defined.

(** ** The scanner never runs out of fuel *)

Lemma skip_ws_length (s : pystr) : length (skip_ws s) <= length s.
Proof.
  induction s as [|c s IH]; simpl; [done|].
  destruct (is_json_ws c); simpl; lia.
Qed.

Lemma push_some (c : N) (o : option (pystr * pystr)) (x r : pystr) :
  push c o = Some (x, r) -> exists x', o = Some (x', r).
Proof. destruct o as [[x' r']|]; simpl; [|done]. intros [= <- <-]. eauto. Qed.

Lemma scanstring_consumes (n : nat) :
  forall s x r, length s <= n -> scanstring s = Some (x, r) -> length r < length s.
Proof.
  induction n as [|n IH]; intros s x r Hn.
  - destruct s; [done|simpl in Hn; lia].
  - destruct s as [|c s1]; [done|]. rewrite scanstring_cons. simpl in Hn.
    assert (Hpush : forall c' t, length t <= n ->
                push c' (scanstring t) = Some (x, r) -> length r < length t).
    { intros c' t Ht (x' & Hx)%push_some. by eapply IH. }
    repeat case_match; subst; cbn [length] in *; try done;
      try (intros [= <- <-]; cbn [length]; lia);
      intros Hp%Hpush; cbn [length] in *; lia.
Qed.

Lemma span_digits_length (s ds r : pystr) :
  span_digits s = (ds, r) -> length s = length ds + length r.
Proof.
  revert ds r. induction s as [|c s IH]; intros ds r; simpl.
  - intros [= <- <-]. done.
  - destruct (is_digit c).
    + destruct (span_digits s) as [ds' r'] eqn:E. intros [= <- <-].
      specialize (IH _ _ eq_refl). simpl. lia.
    + intros [= <- <-]. done.
Qed.

Lemma span_digits_first (c : N) (s ds r : pystr) :
  span_digits (c :: s) = (ds, r) -> is_digit c = true -> 1 <= length ds.
Proof.
  simpl. intros H Hc. rewrite Hc in H.
  destruct (span_digits s). injection H as <- <-. simpl. lia.
Qed.

Section Fuel.
Variable interp : interpreter.

Lemma match_number_consumes (s : pystr) (v : json) (r : pystr) :
  match_number interp s = Parsed v r -> length r < length s.
Proof.
  unfold match_number.
  repeat case_match; try done;
    repeat match goal with
    | H : span_digits (?c :: ?t) = (_, _), Hc : is_digit ?c = true |- _ =>
        pose proof (span_digits_first _ _ _ _ H Hc); apply span_digits_length in H
    | H : span_digits _ = (_, _) |- _ => apply span_digits_length in H
    end;
    intros ?; simplify_eq; cbn [length] in *; rewrite ?length_app in *;
    cbn [length] in *; lia.
Qed.

Lemma after_prefix_consumes (kw s r : pystr) :
  kw <> [] -> after_prefix kw s = Some r -> length r < length s.
Proof.
  unfold after_prefix. intros Hkw. destruct (startswith kw s) eqn:E; [|done].
  intros [= <-]. rewrite length_drop.
  destruct kw as [|a kw]; [done|]. destruct s as [|b s]; [done|]. simpl. lia.
Qed.

Lemma scan_atom_consumes (s : pystr) (v : json) (r : pystr) :
  scan_atom interp s = Parsed v r -> length r < length s.
Proof.
  unfold scan_atom.
  repeat case_match; try (intros [= <- <-]);
    try (eapply after_prefix_consumes; [|eassumption]; done).
  apply match_number_consumes.
Qed.

Lemma match_number_fuel (s : pystr) : match_number interp s <> Exhausted.
Proof. unfold match_number. repeat case_match; done. Qed.

Lemma scan_atom_fuel (s : pystr) : scan_atom interp s <> Exhausted.
Proof.
  unfold scan_atom. repeat case_match; try done. apply match_number_fuel.
Qed.

Lemma scan_once_S (f depth : nat) (s : pystr) :
  scan_once interp (S f) depth s
  = match s with
    | [] => Invalid
    | c :: s1 =>
        if (c =? 34)%N then
          match scanstring s1 with
          | Some (str, r) => Parsed (JStr str) r
          | None => Invalid
          end
        else if (c =? 123)%N then
          match depth with
          | O => Overdeep false
          | S d =>
              match skip_ws s1 with
              | c' :: r =>
                  if (c' =? 125)%N then Parsed (JObj []) r
                  else
                    match parse_pairs interp f d (c' :: r) with
                    | Parsed ps r' => Parsed (JObj (dict_of_pairs ps)) r'
                    | p => stopped p
                    end
              | [] => Invalid
              end
          end
        else if (c =? 91)%N then
          match depth with
          | O => Overdeep true
          | S d =>
              match skip_ws s1 with
              | c' :: r =>
                  if (c' =? 93)%N then Parsed (JArr []) r
                  else
                    match parse_items interp f d (c' :: r) with
                    | Parsed xs r' => Parsed (JArr xs) r'
                    | p => stopped p
                    end
              | [] => Invalid
              end
          end
        else scan_atom interp s
    end.
Proof. reflexivity. Qed.

Ltac length_facts :=
  repeat match goal with
  | H : context [skip_ws ?x] |- _ =>
      lazymatch goal with
      | _ : length (skip_ws x) <= length x |- _ => fail
      | _ => pose proof (skip_ws_length x)
      end
  end;
  repeat match goal with
  | H : scanstring ?x = Some (_, _) |- _ =>
      apply (scanstring_consumes (length x)) in H; [|lia]
  | H : scan_atom _ _ = Parsed _ _ |- _ => apply scan_atom_consumes in H
  end.

Lemma scanner_consumes (f : nat) :
  (forall depth s v r,
     scan_once interp f depth s = Parsed v r -> length r < length s)
  /\ (forall depth s vs r,
        parse_items interp f depth s = Parsed vs r -> length r < length s)
  /\ (forall depth s ps r,
        parse_pairs interp f depth s = Parsed ps r -> length r < length s).
Proof.
  induction f as [|f (IHv & IHi & IHp)]; [repeat split; intros; done|].
  repeat split; intros depth s x r.
  - rewrite scan_once_S. repeat case_match; try done; intros ?; simplify_eq;
      repeat match goal with
      | H : parse_pairs interp f _ _ = Parsed _ _ |- _ => apply IHp in H
      | H : parse_items interp f _ _ = Parsed _ _ |- _ => apply IHi in H
      end; length_facts;
      repeat match goal with H : skip_ws _ = _ |- _ => rewrite H in * end;
      cbn [length] in *; lia.
  - rewrite parse_items_S. repeat case_match; try done; intros ?; simplify_eq;
      repeat match goal with
      | H : scan_once interp f _ _ = Parsed _ _ |- _ => apply IHv in H
      | H : parse_items interp f _ _ = Parsed _ _ |- _ => apply IHi in H
      end; length_facts;
      repeat match goal with H : skip_ws _ = _ |- _ => rewrite H in * end;
      cbn [length] in *; lia.
  - rewrite parse_pairs_S. repeat case_match; try done; intros ?; simplify_eq;
      repeat match goal with
      | H : scan_once interp f _ _ = Parsed _ _ |- _ => apply IHv in H
      | H : parse_pairs interp f _ _ = Parsed _ _ |- _ => apply IHp in H
      end; length_facts;
      repeat match goal with H : skip_ws _ = _ |- _ => rewrite H in * end;
      cbn [length] in *; lia.
Qed.

Lemma scanner_fuel (f : nat) :
  (forall depth s, 2 * length s + 1 <= f -> scan_once interp f depth s <> Exhausted)
  /\ (forall depth s,
        2 * length s + 2 <= f -> parse_items interp f depth s <> Exhausted)
  /\ (forall depth s,
        2 * length s + 2 <= f -> parse_pairs interp f depth s <> Exhausted).
Proof.
  induction f as [|f (IHv & IHi & IHp)]; [repeat split; intros; lia|].
  destruct (scanner_consumes f) as (Cv & Ci & Cp).
  repeat split; intros depth s Hf.
  - rewrite scan_once_S. repeat case_match; try done; try apply scan_atom_fuel;
      subst; exfalso; length_facts;
      repeat match goal with H : skip_ws _ = _ |- _ => rewrite H in * end;
      cbn [length] in *;
      match goal with
      | H : parse_pairs interp f _ _ = Exhausted |- _ => eapply IHp; [|exact H]
      | H : parse_items interp f _ _ = Exhausted |- _ => eapply IHi; [|exact H]
      end; cbn [length]; lia.
  - rewrite parse_items_S. repeat case_match; try done; subst; exfalso;
      repeat match goal with
      | H : scan_once interp f _ _ = Parsed _ _ |- _ => apply Cv in H
      end; length_facts;
      repeat match goal with H : skip_ws _ = _ |- _ => rewrite H in * end;
      cbn [length] in *;
      match goal with
      | H : scan_once interp f _ _ = Exhausted |- _ => eapply IHv; [|exact H]
      | H : parse_items interp f _ _ = Exhausted |- _ => eapply IHi; [|exact H]
      end; cbn [length]; lia.
  - rewrite parse_pairs_S. repeat case_match; try done; subst; exfalso;
      repeat match goal with
      | H : scan_once interp f _ _ = Parsed _ _ |- _ => apply Cv in H
      end; length_facts;
      repeat match goal with H : skip_ws _ = _ |- _ => rewrite H in * end;
      cbn [length] in *;
      match goal with
      | H : scan_once interp f _ _ = Exhausted |- _ => eapply IHv; [|exact H]
      | H : parse_pairs interp f _ _ = Exhausted |- _ => eapply IHp; [|exact H]
      end; cbn [length]; lia.
Qed.

(** The fuel [json_loads] gives the scanner is never used up: a
    [DecodeError] always stands for malformed text. *)
Lemma scan_once_fuel_enough (depth : nat) (s : pystr) :
  scan_once interp (scan_once_fuel s) depth s <> Exhausted.
Proof.
  apply (proj1 (scanner_fuel (scan_once_fuel s))). unfold scan_once_fuel. lia.
Qed.

End Fuel.

(** ** Recovery from a response that does not decode *)

Lemma usable_fallback (r : structured) (raw : pystr) : usable (fallback_of r raw).
Proof.
  destruct r; eexists; (split; [reflexivity|]);
    repeat constructor; simpl; by eexists [_].
Qed.

Lemma usable_extract (interp : interpreter) (r : structured) (raw : pystr) :
  tolerated interp raw ->
  exists v, extract interp (fallback_of r) raw = Ret v /\ usable v.
Proof.
  unfold extract. intros [[-> | ->]|(v & -> & Hv)];
    eexists; (split; [reflexivity|]); try apply usable_fallback. done.
Qed.

Lemma usable_get (v : json) (key : pystr) :
  usable v -> exists ss, py_get v key (JArr []) = Ret (JArr (map JStr ss)).
Proof.
  intros (d & -> & Hd). simpl.
  induction Hd as [|[k x] d [ss Hx] _ IH]; simpl.
  - by exists [].
  - destruct (pystr_eqb k key); [|exact IH]. simpl in Hx. subst x. eauto.
Qed.

Lemma expect_strs_strings (ss : list pystr) (i : Z) :
  expect_strs i (map JStr ss) = Ret ss.
Proof.
  revert i. induction ss as [|s ss IH]; intros i; simpl; [done|]. by rewrite IH.
Qed.

Lemma returns_ret {A} (a : A) (Q : A -> Prop) : Q a -> returns (mret a) Q.
Proof. intros HQ st. by exists a, st. Qed.

Lemma returns_bind {A B} (m : M A) (k : A -> M B) (Q : A -> Prop) (R : B -> Prop) :
  returns m Q -> (forall a, Q a -> returns (k a) R) -> returns (m ≫= k) R.
Proof.
  intros Hm Hk st. destruct (Hm st) as (a & st1 & Hrun & Ha).
  rewrite bind_run, Hrun. by apply Hk.
Qed.

Lemma returns_weaken {A} (m : M A) (Q R : A -> Prop) :
  returns m Q -> (forall a, Q a -> R a) -> returns m R.
Proof.
  intros Hm HQR st. destruct (Hm st) as (a & st1 & Hrun & Ha). eauto.
Qed.

Lemma returns_lift {A} (o : outcome A) (a : A) (Q : A -> Prop) :
  o = Ret a -> Q a -> returns (lift o) Q.
Proof. intros -> HQ st. by exists a, st. Qed.

Lemma returns_extract (interp : interpreter) (r : structured) (raw : pystr) :
  tolerated interp raw -> returns (lift (extract interp (fallback_of r) raw)) usable.
Proof.
  intros (v & Hv & Husable)%(usable_extract interp r).
  by apply (returns_lift _ v).
Qed.

Lemma returns_log (emit : Emitter) (msg : pystr) :
  returns (log emit msg) (fun _ => True).
Proof. intros st. destruct (log_returns emit msg st) as [st' ->]. by exists tt, st'. Qed.

Lemma returns_emit (msg : pystr) : returns (emit msg) (fun _ => True).
Proof. intros st. by eexists tt, _. Qed.

Section Recovery.
Variable interp : interpreter.
Variable reka : nat -> pystr -> outcome pystr.
Variable tavily : pystr -> outcome (list hit).
Variable py_repr : json -> pystr.

(** Every request to the reasoning service is answered, and by a
    tolerated response. *)
Hypothesis reka_tolerated :
  forall n message,
    exists text, reka n message = Ret text /\ tolerated interp (strip text).

Lemma returns_chat (system user : pystr) :
  returns (_chat reka system user) (tolerated interp).
Proof.
  intros st. unfold _chat.
  edestruct reka_tolerated as (text & -> & Htext). eauto.
Qed.

Lemma returns_summarise (emit : Emitter) (items : list hit) :
  forall acc,
    returns (summarise reka emit items acc)
            (fun arts => length arts = length acc + length items).
Proof.
  induction items as [|item rest IH]; intros acc; simpl.
  - apply returns_ret. lia.
  - eapply returns_bind; [apply returns_chat|]. intros summary _.
    eapply returns_bind; [apply returns_log|]. intros _ _.
    eapply returns_weaken; [apply IH|]. intros arts ->.
    rewrite length_app. simpl. lia.
Qed.

Lemma returns_data_agent (topic : pystr) (emit : Emitter) (hits : list hit) :
  tavily topic = Ret hits -> hits <> [] ->
  returns (data_agent reka tavily topic emit) (fun arts => arts <> []).
Proof.
  intros Hsearch Hne. unfold data_agent.
  eapply returns_bind; [apply returns_log|]. intros _ _.
  eapply (returns_bind _ _ (fun r => r = hits)).
  { intros st. unfold search. rewrite Hsearch. eauto. }
  intros ? ->. destruct hits as [|h hits']; [done|].
  eapply returns_weaken; [apply returns_summarise|].
  intros arts Hlen ->. simpl in Hlen. lia.
Qed.

Lemma returns_log_numbered (emit : Emitter) (label : pystr) (xs : list json) :
  forall i, returns (log_numbered py_repr emit label i xs) (fun _ => True).
Proof.
  induction xs as [|x xs IH]; intros i; simpl; [by apply returns_ret|].
  eapply returns_bind; [apply returns_log|]. intros _ _. apply IH.
Qed.

Lemma returns_log_entries (emit : Emitter) (label key : pystr) (result : json) :
  usable result ->
  returns (log_entries py_repr emit label key result) (fun _ => True).
Proof.
  intros Hres. destruct (usable_get result key Hres) as [ss Hget].
  unfold log_entries.
  eapply returns_bind;
    [exact (returns_lift _ _ (fun x => x = JArr (map JStr ss)) Hget eq_refl)|].
  intros ? ->.
  eapply returns_bind;
    [exact (returns_lift _ (map JStr ss) (fun _ => True) eq_refl I)|].
  intros xs _. apply returns_log_numbered.
Qed.

Lemma returns_bullets (data : json) (key : pystr) :
  usable data -> returns (bullets py_repr data key) (fun _ => True).
Proof.
  intros Hres. destruct (usable_get data key Hres) as [ss Hget].
  unfold bullets.
  eapply returns_bind;
    [exact (returns_lift _ _ (fun x => x = JArr (map JStr ss)) Hget eq_refl)|].
  intros ? ->.
  eapply returns_bind;
    [exact (returns_lift _ (map JStr ss) (fun _ => True) eq_refl I)|].
  intros xs _. by apply returns_ret.
Qed.

Lemma returns_joined (sep : pystr) (data : json) (key : pystr) :
  usable data -> returns (joined sep data key) (fun _ => True).
Proof.
  intros Hres. destruct (usable_get data key Hres) as [ss Hget].
  unfold joined.
  eapply returns_bind;
    [exact (returns_lift _ _ (fun x => x = JArr (map JStr ss)) Hget eq_refl)|].
  intros ? ->.
  apply (returns_lift _ (join sep ss)); [|done].
  unfold py_join. simpl. by rewrite expect_strs_strings.
Qed.

Lemma returns_trend_agent (articles : list article) (emit : Emitter) :
  returns (trend_agent interp reka py_repr articles emit) usable.
Proof.
  unfold trend_agent.
  eapply returns_bind; [apply returns_log|]. intros _ _.
  eapply returns_bind; [apply returns_chat|]. intros raw Hraw.
  eapply returns_bind; [exact (returns_extract interp TrendReport raw Hraw)|].
  intros result Hres.
  eapply returns_bind; [by apply returns_log_entries|]. intros _ _.
  by apply returns_ret.
Qed.

Lemma returns_strategy_agent (trend_data : json) (emit : Emitter) :
  usable trend_data ->
  returns (strategy_agent interp reka py_repr trend_data emit) usable.
Proof.
  intros Htrend. unfold strategy_agent.
  eapply returns_bind; [apply returns_log|]. intros _ _.
  eapply returns_bind; [by apply returns_bullets|]. intros trend_text _.
  eapply returns_bind; [by apply returns_bullets|]. intros sentiment_text _.
  eapply returns_bind; [apply returns_chat|]. intros raw Hraw.
  eapply returns_bind; [exact (returns_extract interp StrategyReport raw Hraw)|].
  intros result Hres.
  eapply returns_bind; [by apply returns_log_entries|]. intros _ _.
  by apply returns_ret.
Qed.

Lemma returns_risk_agent (trend_data strategy_data : json) (emit : Emitter) :
  usable trend_data -> usable strategy_data ->
  returns (risk_agent interp reka py_repr trend_data strategy_data emit) usable.
Proof.
  intros Htrend Hstrategy. unfold risk_agent.
  eapply returns_bind; [apply returns_log|]. intros _ _.
  eapply returns_bind; [by apply returns_bullets|]. intros trend_text _.
  eapply returns_bind; [by apply returns_bullets|]. intros strategy_text _.
  eapply returns_bind; [apply returns_chat|]. intros raw Hraw.
  eapply returns_bind; [exact (returns_extract interp RiskReport raw Hraw)|].
  intros result Hres.
  eapply returns_bind; [by apply returns_log_entries|]. intros _ _.
  by apply returns_ret.
Qed.

Lemma returns_voice_step (topic : pystr) (include_voice : bool)
    (trends strategy risks : json) :
  usable trends -> usable strategy -> usable risks ->
  returns (voice_step reka topic include_voice trends strategy risks)
          (fun _ => True).
Proof.
  intros Ht Hs Hr. unfold voice_step.
  destruct include_voice; [|by apply returns_ret].
  eapply returns_bind; [apply returns_emit|]. intros _ _.
  eapply returns_bind; [by apply returns_joined|]. intros t _.
  eapply returns_bind; [by apply returns_joined|]. intros o _.
  eapply returns_bind; [by apply returns_joined|]. intros r _.
  eapply returns_bind; [|intros; by apply returns_ret].
  unfold voice_agent.
  eapply returns_bind; [apply returns_log|]. intros _ _.
  eapply returns_weaken; [apply returns_chat|]. done.
Qed.

Lemma done_bind {A} (m : M A) (k : A -> M unit) (Q : A -> Prop) :
  keeps is_log m -> returns m Q -> (forall a, Q a -> runs_to_done (k a)) ->
  runs_to_done (m ≫= k).
Proof.
  intros Hkeeps Hm Hk st. destruct (Hm st) as (a & st1 & Hrun & Ha).
  specialize (Hkeeps st). rewrite bind_run, Hrun in *. simpl in Hkeeps.
  destruct (Hk a Ha st1) as (st0 & payload & -> & Hext).
  exists st0, payload. split; [done|]. by eapply extends_trans.
Qed.

Lemma is_log_any (msg : pystr) :
  progress_of Voice msg = false -> is_log (_sse (py "log") msg) = true.
Proof. intros _. apply has_kind_sse. Qed.

Lemma pipeline_runs_to_done (topic : pystr) (include_voice : bool)
    (hits : list hit) :
  tavily topic = Ret hits -> hits <> [] ->
  runs_to_done (pipeline_body interp reka tavily py_repr topic include_voice).
Proof.
  intros Hsearch Hne. unfold pipeline_body.
  eapply done_bind;
    [apply keeps_emit, has_kind_sse|apply returns_emit|]. intros _ _.
  eapply done_bind;
    [apply keeps_emit, has_kind_sse|apply returns_emit|]. intros _ _.
  eapply done_bind;
    [apply keeps_data_agent, is_log_any|by eapply returns_data_agent|].
  intros [|art arts] Harts; [done|].
  eapply done_bind;
    [apply keeps_emit, has_kind_sse|apply returns_emit|]. intros _ _.
  eapply done_bind;
    [apply keeps_trend_agent, is_log_any|apply returns_trend_agent|].
  intros trends Htrends.
  eapply done_bind;
    [apply keeps_emit, has_kind_sse|apply returns_emit|]. intros _ _.
  eapply done_bind;
    [apply keeps_strategy_agent, is_log_any|by apply returns_strategy_agent|].
  intros strategy Hstrategy.
  eapply done_bind;
    [apply keeps_emit, has_kind_sse|apply returns_emit|]. intros _ _.
  eapply done_bind;
    [apply keeps_risk_agent, is_log_any|by apply returns_risk_agent|].
  intros risks Hrisks.
  eapply done_bind;
    [apply keeps_voice_step; intros _ msg; apply has_kind_sse
    |by apply returns_voice_step|].
  intros voice_script _.
  eapply done_bind;
    [apply keeps_emit, has_kind_sse|apply returns_emit|]. intros _ _.
  intros st. eexists st, _. split; [reflexivity|apply extends_refl].
Qed.

(** X20.  The part of C1 that the code keeps.  When the search gives at
    least one hit and decoding every response of the reasoning service
    either raises an exception the agents handle ([json.JSONDecodeError],
    the [ValueError] of too many digits) or gives a mapping of lists of
    strings, then each such failure is replaced by the fallback and the run
    writes [log] events, one [done] event and the sentinel: no [error]
    event.  The run prints as it goes: the property is for a run of which
    standard output accepts every line ([printable]). *)
Lemma malformed_response_recovered (topic : pystr) (include_voice : bool)
    (hits : list hit) (st : state) :
  tavily topic = Ret hits -> hits <> [] ->
  printable st (_run_pipeline interp reka tavily py_repr topic include_voice st) ->
  exists logs payload,
    queue (_run_pipeline interp reka tavily py_repr topic include_voice st)
    = queue st ++ map Some logs ++ [Some (_sse (py "done") payload); None]
    /\ forallb is_log logs = true.
Proof.
  intros Hsearch Hne _. unfold _run_pipeline.
  destruct (pipeline_runs_to_done topic include_voice hits Hsearch Hne st)
    as (st0 & payload & -> & (logs & Hq & Hlogs)).
  exists logs, payload. split; [|done].
  simpl. rewrite Hq, <- !app_assoc. reflexivity.
Qed.

End Recovery.

Example prose_run_completes :
  count (item_is is_done) (queue (sample_run prose_reka true)) = 1
  /\ count (item_is is_error) (queue (sample_run prose_reka true)) = 0
  /\ count (item_is (progress_event Voice)) (queue (sample_run prose_reka true)) = 2.
Proof. vm_compute. done. Qed.

Example store_run_agrees :
  queue (Store.world
           (Store._run_pipeline sample_interpreter sample_reka sample_tavily
              (fun _ => [])
              (py "AI hardware market") true (Store.Store [] empty_state)))
  = queue (sample_run sample_reka true).
Proof. vm_compute. reflexivity. Qed.

(** ** The run on the store refines the executor *)

Lemma reify_mono (f : nat) :
  forall f' h h' v j,
    Store.reify f h v = Some j -> f <= f' -> h `prefix_of` h' ->
    Store.reify f' h' v = Some j.
Proof.
  induction f as [|f IH]; intros f' h h' v j Hr Hf Hh.
  - destruct v; simpl in *; try done; destruct f'; done.
  - destruct v as [| | | | |l]; try (destruct f'; simpl in *; done).
    destruct f' as [|f']; [lia|]. cbn [Store.reify] in *.
    destruct (h !! l) as [o|] eqn:Hl; [|done].
    rewrite (prefix_lookup_Some _ _ _ _ Hl Hh).
    destruct o as [items|d].
    + apply fmap_Some in Hr as (js & Hjs & ->).
      apply fmap_Some. exists js. split; [|done].
      apply mapM_Some. apply mapM_Some in Hjs.
      eapply Forall2_impl; [exact Hjs|]. intros x y Hxy. simpl in Hxy.
      eapply IH; [exact Hxy|lia|done].
    + apply fmap_Some in Hr as (js & Hjs & ->).
      apply fmap_Some. exists js. split; [|done].
      apply mapM_Some. apply mapM_Some in Hjs.
      eapply Forall2_impl; [exact Hjs|]. intros [k x] y Hxy. simpl in *.
      apply fmap_Some in Hxy as (y' & Hy & ->).
      apply fmap_Some. exists y'. split; [|done].
      eapply IH; [exact Hy|lia|done].
Qed.

Lemma rep_mono (h h' : list Store.obj) (v : Store.val) (j : json) :
  h `prefix_of` h' -> rep h v j -> rep h' v j.
Proof.
  intros Hh Hr. eapply reify_mono; [exact Hr| |done]. by apply prefix_length.
Qed.

Lemma rep_reify (h : list Store.obj) (v : Store.val) (j : json) :
  rep h v j -> Store.reify (S (length h)) h v = Some j.
Proof. intros Hr. eapply reify_mono; [exact Hr|lia|done]. Qed.

Lemma rep_scalar (h : list Store.obj) (v : Store.val) (j : json) :
  scalar_json v = Some j -> rep h v j.
Proof. unfold rep. destruct v; simpl; try done; destruct (length h); done. Qed.

Lemma rep_list_inv (h : list Store.obj) (l : Store.loc) (j : json) :
  rep h (Store.VRef l) j ->
  (exists items js,
     h !! l = Some (Store.OList items) /\ j = JArr js /\ Forall2 (rep h) items js)
  \/ (exists d dj,
        h !! l = Some (Store.ODict d) /\ j = JObj dj
        /\ Forall2 (fun kv kj => kv.1 = kj.1 /\ rep h kv.2 kj.2) d dj).
Proof.
  intros Hr. unfold rep in Hr.
  destruct (length h) as [|f] eqn:Hlen; [done|]. cbn [Store.reify] in Hr.
  assert (Hchild : forall x y, Store.reify f h x = Some y -> rep h x y).
  { intros x y Hxy. unfold rep. rewrite Hlen.
    eapply reify_mono; [exact Hxy|lia|done]. }
  destruct (h !! l) as [[items|d]|]; [| |done].
  - apply fmap_Some in Hr as (js & Hjs & ->). left. exists items, js.
    repeat split. apply mapM_Some in Hjs.
    eapply Forall2_impl; [exact Hjs|]. intros x y Hxy. by apply Hchild.
  - apply fmap_Some in Hr as (js & Hjs & ->). right. exists d, js.
    repeat split. apply mapM_Some in Hjs.
    eapply Forall2_impl; [exact Hjs|]. intros [k x] y Hxy. cbn [fst snd] in *.
    apply fmap_Some in Hxy as (y' & Hy & ->). split; [done|]. by apply Hchild.
Qed.

Lemma rep_alloc_list (h : list Store.obj) (items : list Store.val) (js : list json) :
  Forall2 (rep h) items js ->
  rep (h ++ [Store.OList items]) (Store.VRef (length h)) (JArr js).
Proof.
  intros Hitems. unfold rep. rewrite length_app. simpl.
  replace (length h + 1) with (S (length h)) by lia. cbn [Store.reify].
  rewrite lookup_app_r, Nat.sub_diag by lia. cbn [lookup list_lookup].
  apply fmap_Some. exists js. split; [|done]. apply mapM_Some.
  eapply Forall2_impl; [exact Hitems|]. intros x y Hxy. simpl.
  eapply reify_mono; [exact Hxy|lia|]. by apply prefix_app_r.
Qed.

Lemma rep_alloc_dict (h : list Store.obj) (d : list (pystr * Store.val))
    (dj : list (pystr * json)) :
  Forall2 (fun kv kj => kv.1 = kj.1 /\ rep h kv.2 kj.2) d dj ->
  rep (h ++ [Store.ODict d]) (Store.VRef (length h)) (JObj dj).
Proof.
  intros Hd. unfold rep. rewrite length_app. simpl.
  replace (length h + 1) with (S (length h)) by lia. cbn [Store.reify].
  rewrite lookup_app_r, Nat.sub_diag by lia. cbn [lookup list_lookup].
  apply fmap_Some. exists dj. split; [|done]. apply mapM_Some.
  eapply Forall2_impl; [exact Hd|]. intros [k x] [k' y] [Hk Hxy]. simpl in *.
  subst k'. apply fmap_Some. exists y. split; [|done].
  eapply reify_mono; [exact Hxy|lia|]. by apply prefix_app_r.
Qed.

Lemma rep_scalar_inv (h : list Store.obj) (v : Store.val) (j : json) :
  rep h v j ->
  match j with
  | JArr _ | JObj _ => exists l, v = Store.VRef l
  | _ => scalar_json v = Some j
  end.
Proof.
  destruct v as [| | | | |l].
  1-5: unfold rep; destruct (length h); simpl; intros [= <-]; done.
  intros [(? & ? & _ & -> & _)|(? & ? & _ & -> & _)]%rep_list_inv; eauto.
Qed.

Lemma sim_ret {A B} (Pre : list Store.obj -> Prop) (a : A) (b : B)
    (R : list Store.obj -> A -> B -> Prop) :
  (forall h, Pre h -> R h a b) -> sim Pre (mret a) (mret b) R.
Proof. intros HR sigma HPre. simpl. auto. Qed.

Lemma sim_bind {A B A' B'} (Pre : list Store.obj -> Prop) (mh : Store.H A) (mp : M B)
    (R : list Store.obj -> A -> B -> Prop) (kh : A -> Store.H A') (kp : B -> M B')
    (R' : list Store.obj -> A' -> B' -> Prop) :
  stable Pre -> sim Pre mh mp R ->
  (forall a b, sim (fun h => Pre h /\ R h a b) (kh a) (kp b) R') ->
  sim Pre (mh ≫= kh) (mp ≫= kp) R'.
Proof.
  intros Hst Hm Hk sigma HPre. specialize (Hm sigma HPre).
  unfold mbind, Store.H_bind, M_bind.
  destruct (mh sigma) as [[a|e] sigma1], (mp (Store.world sigma)) as [[b|e'] w1];
    try done.
  destruct Hm as (<- & Hpre & HR).
  specialize (Hk a b sigma1 (conj (Hst _ _ Hpre HPre) HR)).
  destruct (kh a sigma1) as [[a'|e] sigma2], (kp b (Store.world sigma1)) as [[b'|e'] w2];
    try done.
  - destruct Hk as (? & ? & ?). repeat split; try done. by etrans.
  - destruct Hk as (? & ? & ?). repeat split; try done. by etrans.
Qed.

Lemma sim_weaken {A B} (Pre Pre' : list Store.obj -> Prop) (mh : Store.H A) (mp : M B)
    (R R' : list Store.obj -> A -> B -> Prop) :
  sim Pre mh mp R -> (forall h, Pre' h -> Pre h) ->
  (forall h a b, R h a b -> R' h a b) -> sim Pre' mh mp R'.
Proof.
  intros Hs HPre HR sigma Hp. specialize (Hs sigma (HPre _ Hp)).
  destruct (mh sigma) as [[a|e] sigma1], (mp (Store.world sigma)) as [[b|e'] w1];
    try done.
  destruct Hs as (? & ? & ?). auto.
Qed.

(** Code that does not use the heap is the same on both sides. *)
Lemma sim_run {A} (Pre : list Store.obj -> Prop) (m : M A) :
  sim Pre (Store.run m) m (fun _ a b => a = b).
Proof.
  intros sigma _. unfold Store.run. destruct (m (Store.world sigma)) as [[a|e] w]; done.
Qed.

Lemma sim_fail {A B} (Pre : list Store.obj -> Prop) (e : exn) :
  sim Pre (@Store.fail A e) (@lift B (Raise e)) (fun _ _ _ => True).
Proof. intros sigma _. done. Qed.

(** As [sim_bind], when the state side computes its value without a
    step of its own. *)
Lemma sim_bind_l {A B A' B'} (Pre : list Store.obj -> Prop) (mh : Store.H A) (b : B)
    (R : list Store.obj -> A -> B -> Prop) (kh : A -> Store.H A') (mp : M B')
    (R' : list Store.obj -> A' -> B' -> Prop) :
  stable Pre -> sim Pre mh (mret b) R ->
  (forall a, sim (fun h => Pre h /\ R h a b) (kh a) mp R') ->
  sim Pre (mh ≫= kh) mp R'.
Proof.
  intros Hst Hm Hk sigma HPre. specialize (Hm sigma HPre).
  unfold mbind, Store.H_bind. simpl in Hm.
  destruct (mh sigma) as [[a|e] sigma1]; [|done].
  destruct Hm as (Hw & Hpre & HR).
  specialize (Hk a sigma1 (conj (Hst _ _ Hpre HPre) HR)). rewrite Hw in Hk.
  destruct (kh a sigma1) as [[a'|e] sigma2], (mp (Store.world sigma)) as [[b'|e'] w2];
    try done.
  - destruct Hk as (? & ? & ?). repeat split; try done. by etrans.
  - destruct Hk as (? & ? & ?). repeat split; try done. by etrans.
Qed.

Lemma alloc_list_spec (sigma : Store.store) (items : list Store.val) (js : list json) :
  Forall2 (rep (Store.heap sigma)) items js ->
  exists v sigma',
    Store.alloc (Store.OList items) sigma = (Ret v, sigma')
    /\ Store.world sigma' = Store.world sigma /\ Store.heap sigma `prefix_of` Store.heap sigma'
    /\ rep (Store.heap sigma') v (JArr js).
Proof.
  intros Hitems. eexists _, _. split; [reflexivity|]. simpl.
  split; [done|]. split; [by apply prefix_app_r|]. by apply rep_alloc_list.
Qed.

Lemma alloc_dict_spec (sigma : Store.store) (d : list (pystr * Store.val))
    (dj : list (pystr * json)) :
  Forall2 (fun kv kj => kv.1 = kj.1 /\ rep (Store.heap sigma) kv.2 kj.2) d dj ->
  exists v sigma',
    Store.alloc (Store.ODict d) sigma = (Ret v, sigma')
    /\ Store.world sigma' = Store.world sigma /\ Store.heap sigma `prefix_of` Store.heap sigma'
    /\ rep (Store.heap sigma') v (JObj dj).
Proof.
  intros Hd. eexists _, _. split; [reflexivity|]. simpl.
  split; [done|]. split; [by apply prefix_app_r|]. by apply rep_alloc_dict.
Qed.

(** [Store.alloc_json] builds objects that stand for the value. *)
Lemma alloc_json_spec : forall (j : json) (sigma : Store.store),
  exists v sigma',
    Store.alloc_json j sigma = (Ret v, sigma')
    /\ Store.world sigma' = Store.world sigma /\ Store.heap sigma `prefix_of` Store.heap sigma'
    /\ rep (Store.heap sigma') v j.
Proof.
  fix IH 1. intros [| | | | |items|pairs] sigma;
    try (eexists _, _; split; [reflexivity|]; repeat split; try done;
         by apply rep_scalar).
  - cbn [Store.alloc_json].
    set (go := fix go (items : list json) : Store.H (list Store.val) :=
                 match items with
                 | [] => mret []
                 | x :: rest => v ← Store.alloc_json x; vs ← go rest; mret (v :: vs)
                 end).
    assert (Hgo : forall sigma0, exists vs sigma1,
               go items sigma0 = (Ret vs, sigma1)
               /\ Store.world sigma1 = Store.world sigma0
               /\ Store.heap sigma0 `prefix_of` Store.heap sigma1
               /\ Forall2 (rep (Store.heap sigma1)) vs items).
    { induction items as [|x rest IHr]; intros sigma0.
      - eexists _, _. split; [reflexivity|]. split; [done|]. split; [done|].
        constructor.
      - destruct (IH x sigma0) as (v & s1 & Hv & Hw1 & Hp1 & Hr1).
        destruct (IHr s1) as (vs & s2 & Hvs & Hw2 & Hp2 & Hr2).
        exists (v :: vs), s2. split.
        { cbn [go]. unfold mbind, Store.H_bind. rewrite Hv. fold go. rewrite Hvs. done. }
        split; [congruence|]. split; [by etrans|].
        constructor; [by eapply rep_mono|done]. }
    destruct (Hgo sigma) as (vs & s1 & Hvs & Hw1 & Hp1 & Hr1).
    destruct (alloc_list_spec s1 vs items Hr1) as (v & s2 & Hv & Hw2 & Hp2 & Hr2).
    exists v, s2. split.
    { unfold mbind at 1, Store.H_bind at 1. rewrite Hvs. exact Hv. }
    split; [congruence|]. split; [by etrans|done].
  - cbn [Store.alloc_json].
    set (go := fix go (pairs : list (pystr * json)) : Store.H (list (pystr * Store.val)) :=
                 match pairs with
                 | [] => mret []
                 | (k, x) :: rest => v ← Store.alloc_json x; d ← go rest; mret ((k, v) :: d)
                 end).
    assert (Hgo : forall sigma0, exists d sigma1,
               go pairs sigma0 = (Ret d, sigma1)
               /\ Store.world sigma1 = Store.world sigma0
               /\ Store.heap sigma0 `prefix_of` Store.heap sigma1
               /\ Forall2 (fun kv kj => kv.1 = kj.1 /\ rep (Store.heap sigma1) kv.2 kj.2)
                          d pairs).
    { induction pairs as [|[k x] rest IHr]; intros sigma0.
      - eexists _, _. split; [reflexivity|]. split; [done|]. split; [done|].
        constructor.
      - destruct (IH x sigma0) as (v & s1 & Hv & Hw1 & Hp1 & Hr1).
        destruct (IHr s1) as (d & s2 & Hd & Hw2 & Hp2 & Hr2).
        exists ((k, v) :: d), s2. split.
        { cbn [go]. unfold mbind, Store.H_bind. rewrite Hv. fold go. rewrite Hd. done. }
        split; [congruence|]. split; [by etrans|].
        constructor; [|done]. split; [done|]. by eapply rep_mono. }
    destruct (Hgo sigma) as (d & s1 & Hd & Hw1 & Hp1 & Hr1).
    destruct (alloc_dict_spec s1 d pairs Hr1) as (v & s2 & Hv & Hw2 & Hp2 & Hr2).
    exists v, s2. split.
    { unfold mbind at 1, Store.H_bind at 1. rewrite Hd. exact Hv. }
    split; [congruence|]. split; [by etrans|done].
Qed.

Lemma sim_alloc_json (Pre : list Store.obj -> Prop) (j : json) :
  sim Pre (Store.alloc_json j) (mret j) rep.
Proof.
  intros sigma _. destruct (alloc_json_spec j sigma) as (v & s1 & -> & Hw & Hp & Hr).
  simpl. auto.
Qed.

Lemma stable_rep (v : Store.val) (j : json) : stable (fun h => rep h v j).
Proof. intros h h' Hp Hr. by eapply rep_mono. Qed.

Lemma stable_and (P Q : list Store.obj -> Prop) :
  stable P -> stable Q -> stable (fun h => P h /\ Q h).
Proof. intros HP HQ h h' Hp [? ?]. split; [by eapply HP|by eapply HQ]. Qed.

Lemma stable_const (P : Prop) : stable (fun _ => P).
Proof. intros h h' _ HP. exact HP. Qed.

Lemma stable_Forall2 (xs : list Store.val) (js : list json) :
  stable (fun h => Forall2 (rep h) xs js).
Proof.
  intros h h' Hp Hr. eapply Forall2_impl; [exact Hr|].
  intros x y Hxy. by eapply rep_mono.
Qed.

Lemma type_name_scalar (v : Store.val) (j : json) :
  scalar_json v = Some j -> Store.val_type_name v = type_name j.
Proof. destruct v; simpl; intros [= <-]; done. Qed.

Lemma lookup_rep (h : list Store.obj) (key : pystr) (d : list (pystr * Store.val))
    (dj : list (pystr * json)) :
  Forall2 (fun kv kj => kv.1 = kj.1 /\ rep h kv.2 kj.2) d dj ->
  match Store.pairs_lookup key d, dict_lookup key dj with
  | Some x, Some jx => rep h x jx
  | None, None => True
  | _, _ => False
  end.
Proof.
  induction 1 as [|[k x] [k' jx] d dj [Hk Hx] _ IH]; simpl; [done|].
  simpl in Hk. subst k'. destruct (pystr_eqb k key); done.
Qed.

Lemma sim_get_list (v : Store.val) (j : json) (key : pystr) :
  sim (fun h => rep h v j) (Store.get_list v key) (lift (py_get j key (JArr []))) rep.
Proof.
  intros sigma Hrep. unfold Store.get_list, lift, mbind, Store.H_bind.
  cbn [Store.alloc]. set (h1 := Store.heap sigma ++ [Store.OList []]).
  assert (Hp : Store.heap sigma `prefix_of` h1) by (by apply prefix_app_r).
  assert (Hempty : rep h1 (Store.VRef (length (Store.heap sigma))) (JArr []))
    by (apply rep_alloc_list; constructor).
  destruct v as [| | | | |l].
  1-5: apply rep_scalar_inv in Hrep; destruct j; try done; simpl in Hrep;
       try (destruct Hrep; done); injection Hrep as <-; simpl; done.
  destruct (rep_list_inv _ _ _ Hrep)
    as [(items & js & Hl & -> & _)|(d & dj & Hl & -> & Hd)].
  - cbn [Store.get]. unfold mbind, Store.H_bind, Store.deref. cbn [Store.heap].
    rewrite (prefix_lookup_Some _ _ _ _ Hl Hp). simpl. done.
  - cbn [Store.get]. unfold mbind, Store.H_bind, Store.deref. cbn [Store.heap].
    rewrite (prefix_lookup_Some _ _ _ _ Hl Hp). simpl.
    split; [done|]. split; [done|].
    pose proof (lookup_rep _ key _ _ Hd) as Hlook.
    destruct (Store.pairs_lookup key d), (dict_lookup key dj); try done.
    by eapply rep_mono.
Qed.

Lemma sim_iter (v : Store.val) (j : json) :
  sim (fun h => rep h v j) (Store.iter v) (lift (py_iter j))
      (fun h xs js => Forall2 (rep h) xs js).
Proof.
  intros sigma Hrep. unfold lift.
  destruct v as [| | | | |l].
  1-5: apply rep_scalar_inv in Hrep; destruct j; try done; simpl in Hrep;
       try (destruct Hrep; done); injection Hrep as <-; simpl; try done.
  - split; [done|]. split; [done|].
    induction s as [|c s IH]; simpl; [constructor|].
    constructor; [by apply rep_scalar|done].
  - destruct (rep_list_inv _ _ _ Hrep)
      as [(items & js & Hl & -> & Hitems)|(d & dj & Hl & -> & Hd)].
    + cbn [Store.iter]. unfold mbind, Store.H_bind, Store.deref. rewrite Hl. simpl. done.
    + cbn [Store.iter]. unfold mbind, Store.H_bind, Store.deref. rewrite Hl. simpl.
      split; [done|]. split; [done|].
      clear Hl Hrep.
      induction Hd as [|[k x] [k' jx] d dj [Hk _] _ IH]; simpl; [constructor|].
      constructor; [|done]. simpl in Hk. subst k'. by apply rep_scalar.
Qed.

Lemma type_name_rep (h : list Store.obj) (v : Store.val) (j : json) :
  rep h v j -> Store.type_name_in h v = type_name j.
Proof.
  intros Hrep. destruct v as [| | | | |l].
  1-5: apply rep_scalar_inv in Hrep; destruct j; try done; simpl in Hrep;
       try (destruct Hrep; done); injection Hrep as <-; done.
  destruct (rep_list_inv _ _ _ Hrep)
    as [(items & js & Hl & -> & _)|(d & dj & Hl & -> & _)];
    simpl; rewrite Hl; done.
Qed.

Lemma expect_strs_rep (h : list Store.obj) (items : list Store.val) (js : list json) :
  Forall2 (rep h) items js ->
  forall i, Store.expect_strs h i items = expect_strs i js.
Proof.
  induction 1 as [|x jx items js Hx _ IH]; intros i; [done|].
  pose proof (type_name_rep _ _ _ Hx) as Hname.
  destruct x as [| | | | |l].
  1-5: apply rep_scalar_inv in Hx; destruct jx; try done; simpl in Hx;
       try (destruct Hx; done); injection Hx as <-; simpl; try done;
       by rewrite IH.
  cbn [Store.expect_strs]. rewrite Hname.
  destruct (rep_list_inv _ _ _ Hx)
    as [(? & ? & _ & -> & _)|(? & ? & _ & -> & _)]; done.
Qed.

Section Refinement.
Variable interp : interpreter.
Variable reka : nat -> pystr -> outcome pystr.
Variable tavily : pystr -> outcome (list hit).
Variable py_repr : json -> pystr.

Lemma sim_str (v : Store.val) (j : json) :
  sim (fun h => rep h v j) (Store.str py_repr v) (mret (py_str py_repr j))
      (fun _ a b => a = b).
Proof.
  intros sigma Hrep. unfold Store.str. rewrite (rep_reify _ _ _ Hrep). done.
Qed.

Lemma sim_join_val (sep : pystr) (v : Store.val) (j : json) :
  sim (fun h => rep h v j) (Store.join_val sep v) (lift (py_join sep j))
      (fun _ a b => a = b).
Proof.
  intros sigma Hrep. pose proof (sim_iter v j sigma Hrep) as Hiter.
  unfold Store.join_val, py_join, lift in *.
  destruct (Store.iter v sigma) as [[items|e] s1], (py_iter j) as [js|e'];
    try done.
  - destruct Hiter as (Hw & Hp & Hitems).
    rewrite (expect_strs_rep _ _ _ Hitems).
    destruct (expect_strs 0 js); done.
  - destruct Hiter as (_ & Hw & Hp). done.
Qed.

Lemma sim_joined (sep : pystr) (v : Store.val) (j : json) (key : pystr) :
  sim (fun h => rep h v j) (Store.joined sep v key) (joined sep j key)
      (fun _ a b => a = b).
Proof.
  unfold Store.joined, joined.
  eapply sim_bind; [apply stable_rep|apply sim_get_list|].
  intros entries jentries.
  eapply sim_weaken; [apply sim_join_val|by intros h [_ ?]|done].
Qed.

Lemma sim_log_numbered (emit : Emitter) (label : pystr) (xs : list Store.val)
    (js : list json) :
  forall i,
    sim (fun h => Forall2 (rep h) xs js)
        (Store.log_numbered py_repr emit label i xs)
        (log_numbered py_repr emit label i js) (fun _ _ _ => True).
Proof.
  revert js. induction xs as [|x xs IH]; intros js i.
  - intros sigma Hxs. apply Forall2_nil_inv_l in Hxs as ->. done.
  - destruct js as [|j js].
    { intros sigma Hxs. by apply Forall2_cons_nil_inv in Hxs. }
    cbn [Store.log_numbered log_numbered].
    eapply sim_bind_l; [apply stable_Forall2| |].
    { eapply sim_weaken; [apply (sim_str x j)| |done].
      intros h Hxs. by apply Forall2_cons_1 in Hxs as [? _]. }
    intros s.
    eapply sim_bind.
    { apply stable_and; [apply stable_Forall2|apply stable_const]. }
    { intros sigma [_ Hs]. simpl in Hs. rewrite Hs.
      exact (sim_run (fun _ => True) _ sigma I). }
    intros u1 u2. eapply sim_weaken; [apply IH| |done].
    intros h [[Hxs _] _]. by apply Forall2_cons_1 in Hxs as [_ ?].
Qed.

Lemma sim_log_entries (emit : Emitter) (label key : pystr) (v : Store.val) (j : json) :
  sim (fun h => rep h v j) (Store.log_entries py_repr emit label key v)
      (log_entries py_repr emit label key j) (fun _ _ _ => True).
Proof.
  unfold Store.log_entries, log_entries.
  eapply sim_bind; [apply stable_rep|apply sim_get_list|].
  intros entries jentries.
  eapply sim_bind.
  { apply stable_and; apply stable_rep. }
  { eapply sim_weaken; [apply sim_iter|by intros h [_ ?]|done]. }
  intros xs js. eapply sim_weaken; [apply sim_log_numbered| |done].
  by intros h [_ ?].
Qed.

Lemma sim_bullet_lines (xs : list Store.val) (js : list json) :
  sim (fun h => Forall2 (rep h) xs js)
      (Store.for_each (fun x => s ← Store.str py_repr x; mret (py "- " ++ s)) xs)
      (mret (map (fun x => py "- " ++ py_str py_repr x) js))
      (fun _ a b => a = b).
Proof.
  revert js. induction xs as [|x xs IH]; intros js.
  - intros sigma Hxs. apply Forall2_nil_inv_l in Hxs as ->. done.
  - destruct js as [|j js].
    { intros sigma Hxs. by apply Forall2_cons_nil_inv in Hxs. }
    intros sigma Hxs. apply Forall2_cons_1 in Hxs as [Hx Hxs].
    specialize (IH js sigma Hxs).
    cbn [Store.for_each map]. unfold mbind, Store.H_bind, Store.str, mret, Store.H_ret, M_ret in *.
    rewrite (rep_reify _ _ _ Hx).
    destruct (Store.for_each _ xs sigma) as [[lines|e] s1]; [|done].
    destruct IH as (Hw & Hp & ->). done.
Qed.

Lemma sim_bullets (v : Store.val) (j : json) (key : pystr) :
  sim (fun h => rep h v j) (Store.bullets py_repr v key) (bullets py_repr j key)
      (fun _ a b => a = b).
Proof.
  unfold Store.bullets, bullets.
  eapply sim_bind; [apply stable_rep|apply sim_get_list|].
  intros entries jentries.
  eapply sim_bind.
  { apply stable_and; apply stable_rep. }
  { eapply sim_weaken; [apply sim_iter|by intros h [_ ?]|done]. }
  intros xs js.
  eapply sim_bind_l.
  { apply stable_and; [apply stable_and; apply stable_rep|apply stable_Forall2]. }
  { eapply sim_weaken; [apply sim_bullet_lines|by intros h [_ ?]|done]. }
  intros lines. apply sim_ret. by intros h [_ ->].
Qed.

(** As [sim_bind] and [sim_bind_l], when the two sides return the same
    value. *)
Lemma sim_bind_eq {A A' B'} (Pre : list Store.obj -> Prop) (mh : Store.H A) (mp : M A)
    (kh : A -> Store.H A') (kp : A -> M B') (R' : list Store.obj -> A' -> B' -> Prop) :
  stable Pre -> sim Pre mh mp (fun _ a b => a = b) ->
  (forall a, sim Pre (kh a) (kp a) R') ->
  sim Pre (mh ≫= kh) (mp ≫= kp) R'.
Proof.
  intros Hst Hm Hk. eapply sim_bind; [done|exact Hm|].
  intros a b sigma [HPre ->]. by apply Hk.
Qed.

Lemma sim_bind_l_eq {A A' B'} (Pre : list Store.obj -> Prop) (mh : Store.H A) (b : A)
    (kh : A -> Store.H A') (mp : M B') (R' : list Store.obj -> A' -> B' -> Prop) :
  stable Pre -> sim Pre mh (mret b) (fun _ a b' => a = b') ->
  sim Pre (kh b) mp R' ->
  sim Pre (mh ≫= kh) mp R'.
Proof.
  intros Hst Hm Hk. eapply sim_bind_l; [done|exact Hm|].
  intros a sigma [HPre ->]. by apply Hk.
Qed.

Lemma sim_fallback (Pre : list Store.obj -> Prop) (r : structured) (raw : pystr) :
  sim Pre (d ← Store.fallback raw (expected_keys r) true; Store.alloc (Store.ODict d))
      (mret (fallback_of r raw)) rep.
Proof.
  intros sigma _.
  assert (Hfb : forall keys first sigma0, exists d sigma1,
             Store.fallback raw keys first sigma0 = (Ret d, sigma1)
             /\ Store.world sigma1 = Store.world sigma0
             /\ Store.heap sigma0 `prefix_of` Store.heap sigma1
             /\ Forall2 (fun kv kj => kv.1 = kj.1 /\ rep (Store.heap sigma1) kv.2 kj.2)
                  d (fallback_pairs raw keys first)).
  { induction keys as [|key keys IH]; intros first sigma0.
    - eexists _, _. split; [reflexivity|]. split; [done|]. split; [done|].
      constructor.
    - cbn [Store.fallback fallback_pairs]. unfold mbind, Store.H_bind, Store.alloc.
      set (s1 := Store.Store _ _).
      destruct (IH false s1) as (d & s2 & -> & Hw & Hp & Hd).
      eexists _, _. split; [reflexivity|]. split; [done|].
      split; [etrans; [|exact Hp]; by apply prefix_app_r|].
      constructor; [|done]. split; [done|]. cbn [fst snd].
      eapply rep_mono; [exact Hp|]. apply rep_alloc_list.
      constructor; [|constructor]. by apply rep_scalar. }
  destruct (Hfb (expected_keys r) true sigma) as (d & s1 & Hrun & Hw & Hp & Hd).
  unfold mbind, Store.H_bind. rewrite Hrun. unfold Store.alloc, mret, M_ret.
  cbn [Store.world Store.heap]. split; [done|].
  split; [etrans; [exact Hp|]; by apply prefix_app_r|].
  replace (fallback_of r raw) with (JObj (fallback_pairs raw (expected_keys r) true))
    by (by destruct r).
  by apply rep_alloc_dict.
Qed.

(** The extraction on the store and on values: the same result, the same
    fallback, the same [RecursionError]. *)
Lemma sim_extract (Pre : list Store.obj -> Prop) (r : structured) (raw : pystr) :
  sim Pre (Store.extract interp r raw) (lift (extract interp (fallback_of r) raw)) rep.
Proof.
  unfold Store.extract, extract.
  destruct (_parse_json interp raw) as [j| | |array].
  - apply sim_alloc_json.
  - apply sim_fallback.
  - apply sim_fallback.
  - intros sigma _. simpl. done.
Qed.

Lemma sim_log_entries_agent (Pre : list Store.obj -> Prop) (emit : Emitter)
    (label key : pystr) (r : structured) (raw : pystr) :
  stable Pre ->
  sim Pre
    (result ← Store.extract interp r raw;
     Store.log_entries py_repr emit label key result;; mret result)
    (result ← lift (extract interp (fallback_of r) raw);
     log_entries py_repr emit label key result;; mret result) rep.
Proof.
  intros Hst. eapply sim_bind; [done|apply sim_extract|].
  intros result jresult. eapply sim_bind.
  { apply stable_and; [done|apply stable_rep]. }
  { eapply sim_weaken; [apply sim_log_entries|by intros h [_ ?]|done]. }
  intros u1 u2. apply sim_ret. by intros h [[_ ?] _].
Qed.

(** The article list. *)

Lemma article_at_rep (h : list Store.obj) (l : nat) (a : article) (f : nat) :
  h !! l = Some (article_obj a) ->
  Store.reify (S f) h (Store.VRef l) = Some (article_json a).
Proof. intros Hl. cbn [Store.reify]. rewrite Hl. by destruct f. Qed.

Lemma articles_rep_rep (h : list Store.obj) (v : Store.val) (arts : list article) :
  articles_rep h v arts -> rep h v (JArr (map article_json arts)).
Proof.
  intros (l & items & -> & Hl & Hitems). unfold rep.
  destruct (length h) as [|[|f]] eqn:Hlen.
  - apply lookup_lt_Some in Hl. lia.
  - cbn [Store.reify]. rewrite Hl. destruct Hitems as [|x a items arts Hx _]; [done|].
    destruct Hx as (l' & -> & Hl').
    assert (l = l') as <-.
    { apply lookup_lt_Some in Hl, Hl'. lia. }
    rewrite Hl in Hl'. done.
  - cbn [Store.reify]. rewrite Hl. apply fmap_Some. eexists. split; [|done].
    apply mapM_Some. apply Forall2_fmap_r.
    eapply Forall2_impl; [exact Hitems|]. intros x a (l' & -> & Hl').
    by apply article_at_rep.
Qed.

Lemma stable_articles (v : Store.val) (arts : list article) :
  stable (fun h => articles_rep h v arts).
Proof.
  intros h h' Hp (l & items & -> & Hl & Hitems). exists l, items.
  split; [done|]. split; [by eapply prefix_lookup_Some|].
  eapply Forall2_impl; [exact Hitems|]. intros x a (l' & -> & Hl').
  exists l'. split; [done|]. by eapply prefix_lookup_Some.
Qed.

Lemma stable_article_items (items : list Store.val) (arts : list article) :
  stable (fun h => Forall2 (article_at h) items arts).
Proof.
  intros h h' Hp Hitems.
  eapply Forall2_impl; [exact Hitems|]. intros x a (l' & -> & Hl').
  exists l'. split; [done|]. by eapply prefix_lookup_Some.
Qed.

Ltac stability :=
  repeat first
    [ assumption | apply stable_and | apply stable_rep | apply stable_articles
    | apply stable_Forall2 | apply stable_article_items | apply stable_const ].

(** The loop of [data_agent]: the list at address [n] grows by one new
    object per item, and nothing below [n] changes. *)
Lemma summarise_spec (emit : Emitter) (n : nat) (items : list hit) :
  forall (sigma : Store.store) (refs : list Store.val) (arts : list article),
    Store.heap sigma !! n = Some (Store.OList refs) ->
    Forall2 (article_above n (Store.heap sigma)) refs arts ->
    match Store.summarise reka emit items (Store.VRef n) sigma,
          summarise reka emit items arts (Store.world sigma) with
    | (Ret _, sigma'), (Ret arts', w') =>
        Store.world sigma' = w'
        /\ take n (Store.heap sigma') = take n (Store.heap sigma)
        /\ exists refs',
             Store.heap sigma' !! n = Some (Store.OList refs')
             /\ Forall2 (article_above n (Store.heap sigma')) refs' arts'
    | (Raise e, sigma'), (Raise e', w') =>
        e = e' /\ Store.world sigma' = w'
        /\ take n (Store.heap sigma') = take n (Store.heap sigma)
    | _, _ => False
    end.
Proof.
  induction items as [|item items IH]; intros [h w] refs arts Hn Hrefs.
  { cbn. split; [done|]. split; [done|]. by exists refs. }
  cbn [Store.heap Store.world] in *.
  cbn [Store.summarise summarise]. unfold mbind, Store.H_bind, M_bind, Store.run.
  cbn [Store.heap Store.world].
  destruct (_chat reka DATA_SYSTEM _ w) as [[text|e] w1]; [|done].
  unfold Store.alloc, Store.append. cbn [Store.heap Store.world].
  pose proof (lookup_lt_Some _ _ _ Hn) as Hlt.
  rewrite (lookup_app_l_Some _ _ _ _ Hn).
  set (a := Article _ _ text).
  set (h1 := <[n := _]> _). cbn [Store.heap Store.world].
  destruct (log emit _ w1) as [[[]|e] w2] eqn:Hlog; cbv beta iota.
  2:{ cbn [Store.heap Store.world]. split; [done|]. split; [done|]. subst h1.
      rewrite take_insert_ge by lia. by rewrite take_app_le by lia. }
  assert (Hn1 : h1 !! n = Some (Store.OList (refs ++ [Store.VRef (length h)]))).
  { subst h1. apply list_lookup_insert_eq. rewrite length_app. lia. }
  assert (Hrefs1 : Forall2 (article_above n h1) (refs ++ [Store.VRef (length h)])
                     (arts ++ [a])).
  { apply Forall2_app.
    - eapply Forall2_impl; [exact Hrefs|]. intros x b (l & -> & Hl & Hb).
      exists l. split; [done|]. split; [done|]. subst h1.
      rewrite list_lookup_insert_ne by lia. by apply lookup_app_l_Some.
    - constructor; [|constructor]. exists (length h). split; [done|].
      split; [done|]. subst h1. rewrite list_lookup_insert_ne by lia.
      rewrite lookup_app_r, Nat.sub_diag by lia. done. }
  specialize (IH (Store.Store h1 w2) _ _ Hn1 Hrefs1).
  cbn [Store.heap Store.world] in IH.
  assert (Htake : take n h1 = take n h).
  { subst h1. rewrite take_insert_ge by lia. by rewrite take_app_le by lia. }
  destruct (Store.summarise reka emit items (Store.VRef n) _) as [[[]|e] s3],
    (summarise reka emit items (arts ++ [a]) w2) as [[arts'|e'] w3]; try done.
  - destruct IH as (? & -> & ?). done.
  - destruct IH as (? & ? & ->). done.
Qed.

Lemma sim_data_agent (Pre : list Store.obj -> Prop) (topic : pystr) (emit : Emitter) :
  stable Pre ->
  sim Pre (Store.data_agent reka tavily topic emit) (data_agent reka tavily topic emit)
      articles_rep.
Proof.
  intros Hst. unfold Store.data_agent, data_agent.
  eapply sim_bind_eq; [done|apply sim_run|]. intros _.
  eapply sim_bind_eq; [done|apply sim_run|]. intros [|item raw_results].
  - eapply sim_bind_eq; [done|apply sim_run|]. intros _.
    intros sigma _. cbn. split; [done|]. split; [by apply prefix_app_r|].
    exists (length (Store.heap sigma)), []. split; [done|].
    split; [|constructor]. by rewrite lookup_app_r, Nat.sub_diag by lia.
  - intros [h w] _. unfold mbind, Store.H_bind, Store.alloc.
    cbn [Store.heap Store.world].
    set (items := take MAX_ARTICLES _).
    pose proof (summarise_spec emit (length h) items
                  (Store.Store (h ++ [Store.OList []]) w) [] []) as Hloop.
    cbn [Store.heap Store.world] in Hloop.
    rewrite lookup_app_r, Nat.sub_diag in Hloop by lia.
    specialize (Hloop eq_refl ltac:(constructor)).
    rewrite take_app_length in Hloop.
    destruct (Store.summarise reka emit items _ _) as [[[]|e] s1],
      (summarise reka emit items [] w) as [[arts|e'] w1]; try done.
    + destruct Hloop as (Hw & Htake & refs & Hl & Hrefs).
      cbn. split; [done|]. split.
      { rewrite <- Htake. apply prefix_take. }
      exists (length h), refs. split; [done|]. split; [done|].
      eapply Forall2_impl; [exact Hrefs|]. intros x a (l & -> & _ & Hx).
      by exists l.
    + destruct Hloop as (He & Hw & Htake). cbn. split; [done|]. split; [done|].
      rewrite <- Htake. apply prefix_take.
Qed.

Lemma H_bind_ret {A B} (m : Store.H A) (k : A -> Store.H B) (sigma sigma' : Store.store)
    (a : A) :
  m sigma = (Ret a, sigma') -> (m ≫= k) sigma = k a sigma'.
Proof. intros Hm. unfold mbind, Store.H_bind. by rewrite Hm. Qed.

Lemma str_VStr (s : pystr) (sigma : Store.store) :
  Store.str py_repr (Store.VStr s) sigma = (Ret s, sigma).
Proof. done. Qed.

Lemma getitem_article (sigma : Store.store) (l : nat) (a : article)
    (key field : pystr) :
  Store.heap sigma !! l = Some (article_obj a) ->
  (key, field) = (py "headline", headline a)
  \/ (key, field) = (py "source", source a)
  \/ (key, field) = (py "summary", summary a) ->
  Store.getitem (Store.VRef l) key sigma = (Ret (Store.VStr field), sigma).
Proof.
  intros Hl Hkey. cbn [Store.getitem]. unfold mbind, Store.H_bind, Store.deref.
  rewrite Hl. by destruct Hkey as [[= -> ->]|[[= -> ->]|[= -> ->]]].
Qed.

Lemma sim_iter_articles (v : Store.val) (arts : list article) :
  sim (fun h => articles_rep h v arts) (Store.iter v) (mret arts)
      (fun h items arts => Forall2 (article_at h) items arts).
Proof.
  intros sigma (l & items & -> & Hl & Hitems). cbn [Store.iter].
  unfold mbind, Store.H_bind, Store.deref. rewrite Hl. done.
Qed.

Lemma sim_article_lines (items : list Store.val) (arts : list article) :
  sim (fun h => Forall2 (article_at h) items arts)
      (Store.for_each
         (fun a =>
            source ← Store.getitem a (py "source");
            source ← Store.str py_repr source;
            headline ← Store.getitem a (py "headline");
            headline ← Store.str py_repr headline;
            summary ← Store.getitem a (py "summary");
            summary ← Store.str py_repr summary;
            mret (py "- [" ++ source ++ py "] " ++ headline
                  ++ py ": " ++ summary)) items)
      (mret (map (fun a => py "- [" ++ source a ++ py "] " ++ headline a
                           ++ py ": " ++ summary a) arts))
      (fun _ a b => a = b).
Proof.
  intros sigma Hitems.
  induction Hitems as [|x a items arts (l & -> & Hl) _ IH]; [done|].
  cbn [Store.for_each map]. unfold mret, M_ret in *.
  assert (Hline :
    (source ← Store.getitem (Store.VRef l) (py "source");
     source ← Store.str py_repr source;
     headline ← Store.getitem (Store.VRef l) (py "headline");
     headline ← Store.str py_repr headline;
     summary ← Store.getitem (Store.VRef l) (py "summary");
     summary ← Store.str py_repr summary;
     Store.H_ret _ (py "- [" ++ source ++ py "] " ++ headline ++ py ": " ++ summary)) sigma
    = (Ret (py "- [" ++ source a ++ py "] " ++ headline a ++ py ": " ++ summary a),
       sigma)).
  { rewrite (H_bind_ret _ _ _ _ _ (getitem_article _ _ _ _ _ Hl (or_intror (or_introl eq_refl)))).
    rewrite (H_bind_ret _ _ _ _ _ (str_VStr _ _)).
    rewrite (H_bind_ret _ _ _ _ _ (getitem_article _ _ _ _ _ Hl (or_introl eq_refl))).
    rewrite (H_bind_ret _ _ _ _ _ (str_VStr _ _)).
    rewrite (H_bind_ret _ _ _ _ _ (getitem_article _ _ _ _ _ Hl (or_intror (or_intror eq_refl)))).
    rewrite (H_bind_ret _ _ _ _ _ (str_VStr _ _)). done. }
  rewrite (H_bind_ret _ _ _ _ _ Hline).
  unfold mbind, Store.H_bind.
  destruct (Store.for_each _ items sigma) as [[lines|e] s1]; [|done].
  destruct IH as (? & ? & ->). done.
Qed.

Lemma sim_trend_agent (v : Store.val) (arts : list article) (emit : Emitter) :
  sim (fun h => articles_rep h v arts) (Store.trend_agent interp reka py_repr v emit)
      (trend_agent interp reka py_repr arts emit) rep.
Proof.
  unfold Store.trend_agent, trend_agent.
  eapply sim_bind_eq; [stability|apply sim_run|]. intros _.
  eapply sim_bind_l; [stability|apply sim_iter_articles|]. intros items.
  eapply sim_bind_l_eq; [stability| |].
  { eapply sim_weaken; [apply sim_article_lines|by intros h [_ ?]|done]. }
  eapply sim_bind_eq; [stability|apply sim_run|]. intros raw.
  apply (sim_log_entries_agent _ emit _ _ TrendReport raw). stability.
Qed.

Lemma sim_strategy_agent (v : Store.val) (j : json) (emit : Emitter) :
  sim (fun h => rep h v j) (Store.strategy_agent interp reka py_repr v emit)
      (strategy_agent interp reka py_repr j emit) rep.
Proof.
  unfold Store.strategy_agent, strategy_agent.
  eapply sim_bind_eq; [stability|apply sim_run|]. intros _.
  eapply sim_bind_eq; [stability|apply sim_bullets|]. intros trend_text.
  eapply sim_bind_eq; [stability|apply sim_bullets|]. intros sentiment_text.
  eapply sim_bind_eq; [stability|apply sim_run|]. intros raw.
  apply (sim_log_entries_agent _ emit _ _ StrategyReport raw). stability.
Qed.

Lemma sim_risk_agent (vt vs : Store.val) (jt js : json) (emit : Emitter) :
  sim (fun h => rep h vt jt /\ rep h vs js) (Store.risk_agent interp reka py_repr vt vs emit)
      (risk_agent interp reka py_repr jt js emit) rep.
Proof.
  unfold Store.risk_agent, risk_agent.
  eapply sim_bind_eq; [stability|apply sim_run|]. intros _.
  eapply sim_bind_eq; [stability| |].
  { eapply sim_weaken; [apply sim_bullets|by intros h [? ?]|done]. }
  intros trend_text.
  eapply sim_bind_eq; [stability| |].
  { eapply sim_weaken; [apply sim_bullets|by intros h [? ?]|done]. }
  intros strategy_text.
  eapply sim_bind_eq; [stability|apply sim_run|]. intros raw.
  apply (sim_log_entries_agent _ emit _ _ RiskReport raw). stability.
Qed.

Lemma sim_voice_agent (Pre : list Store.obj -> Prop) (brief : pystr) (emit : Emitter) :
  sim Pre (Store.voice_agent reka brief emit)
      (script ← voice_agent reka brief emit; mret (Some script))
      (fun h v o => rep h v (voice_json o)).
Proof.
  intros sigma _. unfold Store.voice_agent, voice_agent.
  unfold mbind, Store.H_bind, M_bind, Store.run.
  destruct (log emit _ (Store.world sigma)) as [[[]|e] w1]; [|done].
  cbn [Store.heap Store.world].
  destruct (_chat reka VOICE_SYSTEM brief w1) as [[script|e] w2]; [|done].
  cbn. repeat split; try done. by apply rep_scalar.
Qed.

Lemma sim_voice_step (topic : pystr) (include_voice : bool)
    (vt vs vr : Store.val) (jt js jr : json) :
  sim (fun h => rep h vt jt /\ rep h vs js /\ rep h vr jr)
      (Store.voice_step reka topic include_voice vt vs vr)
      (voice_step reka topic include_voice jt js jr)
      (fun h v o => rep h v (voice_json o)).
Proof.
  unfold Store.voice_step, voice_step. destruct include_voice.
  - eapply sim_bind_eq; [stability|apply sim_run|]. intros _.
    eapply sim_bind_eq; [stability| |].
    { eapply sim_weaken; [apply sim_joined|by intros h (? & ? & ?)|done]. }
    intros t.
    eapply sim_bind_eq; [stability| |].
    { eapply sim_weaken; [apply sim_joined|by intros h (? & ? & ?)|done]. }
    intros o.
    eapply sim_bind_eq; [stability| |].
    { eapply sim_weaken; [apply sim_joined|by intros h (? & ? & ?)|done]. }
    intros r. apply sim_voice_agent.
  - apply sim_ret. intros h _. by apply rep_scalar.
Qed.

Lemma sim_is_empty (v : Store.val) (arts : list article) :
  sim (fun h => articles_rep h v arts) (Store.is_empty v)
      (mret (match arts with [] => true | _ => false end))
      (fun _ a b => a = b).
Proof.
  intros sigma (l & items & -> & Hl & Hitems). cbn [Store.is_empty].
  unfold mbind, Store.H_bind, Store.deref. rewrite Hl.
  destruct Hitems; done.
Qed.

Lemma sim_build_report (topic : pystr) (va vt vs vr vv : Store.val)
    (arts : list article) (jt js jr : json) (voice_script : option pystr) :
  sim (fun h => articles_rep h va arts /\ rep h vt jt /\ rep h vs js /\ rep h vr jr
                /\ rep h vv (voice_json voice_script))
      (Store.build_report topic va vt vs vr vv)
      (mret (build_report topic arts jt js jr voice_script)) rep.
Proof.
  intros sigma (Ha & Ht & Hs & Hr & Hv). unfold Store.build_report, Store.alloc.
  cbn [Store.heap Store.world]. split; [done|]. split; [by apply prefix_app_r|].
  apply rep_alloc_dict. apply articles_rep_rep in Ha.
  repeat (constructor; [split; [done|]|]); try done. by apply rep_scalar.
Qed.

Lemma sim_dumps (v : Store.val) (j : json) :
  sim (fun h => rep h v j) (Store.dumps v) (mret (json_dumps j)) (fun _ a b => a = b).
Proof.
  intros sigma Hrep. unfold Store.dumps. rewrite (rep_reify _ _ _ Hrep). done.
Qed.

Lemma sim_pipeline_body (topic : pystr) (include_voice : bool) :
  sim (fun _ => True) (Store.pipeline_body interp reka tavily py_repr topic include_voice)
      (pipeline_body interp reka tavily py_repr topic include_voice) (fun _ a b => a = b).
Proof.
  unfold Store.pipeline_body, pipeline_body.
  eapply sim_bind_eq; [stability|apply sim_run|]. intros _.
  eapply sim_bind_eq; [stability|apply sim_run|]. intros _.
  eapply sim_bind; [stability|apply sim_data_agent; stability|]. intros va arts.
  eapply sim_bind_l_eq; [stability| |].
  { eapply sim_weaken; [apply sim_is_empty|by intros h [_ ?]|done]. }
  destruct arts as [|a arts]; [apply sim_run|].
  set (articles := a :: arts).
  eapply sim_bind_eq; [stability|apply sim_run|]. intros _.
  eapply sim_bind; [stability| |].
  { eapply sim_weaken; [apply sim_trend_agent|by intros h [_ ?]|done]. }
  intros vt jt.
  eapply sim_bind_eq; [stability|apply sim_run|]. intros _.
  eapply sim_bind; [stability| |].
  { eapply sim_weaken; [apply sim_strategy_agent|by intros h [_ ?]|done]. }
  intros vs js.
  eapply sim_bind_eq; [stability|apply sim_run|]. intros _.
  eapply sim_bind; [stability| |].
  { eapply sim_weaken; [apply (sim_risk_agent vt vs jt js)|tauto|done]. }
  intros vr jr.
  eapply sim_bind; [stability| |].
  { eapply sim_weaken; [apply (sim_voice_step _ _ vt vs vr jt js jr)|tauto|done]. }
  intros vv voice_script.
  eapply sim_bind_l; [stability| |].
  { eapply sim_weaken;
      [apply (sim_build_report topic va vt vs vr vv articles jt js jr voice_script)
      |tauto|done]. }
  intros report.
  eapply sim_bind_eq; [stability|apply sim_run|]. intros _.
  eapply sim_bind_l_eq; [stability| |].
  { eapply sim_weaken; [apply sim_dumps|by intros h [_ ?]|done]. }
  apply sim_run.
Qed.

(** X21.  Sharing is not observable: a run in which the results of the
    stages are references to lists and dicts on a heap, passed from stage
    to stage and into the report, changes the queue, the log and the
    requests exactly as the run of the executor on decoded values does. *)
Theorem store_refines (topic : pystr) (include_voice : bool) (sigma : Store.store) :
  Store.world (Store._run_pipeline interp reka tavily py_repr topic include_voice sigma)
  = _run_pipeline interp reka tavily py_repr topic include_voice (Store.world sigma).
Proof.
  pose proof (sim_pipeline_body topic include_voice sigma I) as Hsim.
  unfold Store._run_pipeline, _run_pipeline.
  destruct (Store.pipeline_body _ _ _ _ _ _ sigma) as [[[]|e] s1],
    (pipeline_body _ _ _ _ _ _ (Store.world sigma)) as [[[]|e'] w1]; try done.
  - destruct Hsim as (<- & _). done.
  - destruct Hsim as (<- & <- & _). done.
Qed.

End Refinement.

(** ** What a stage writes to the heap *)

Module Frame.
Import Store.

Lemma grows_refl (n : nat) (sigma : store) : grows n sigma sigma.
Proof. split; done. Qed.

Lemma grows_trans (n : nat) (s1 s2 s3 : store) :
  grows n s1 s2 -> grows n s2 s3 -> grows n s1 s3.
Proof.
  intros [Hl1 H1] [Hl2 H2]. split; [lia|].
  intros l Hl. rewrite H2, H1; done.
Qed.

Lemma grows_same_heap (n : nat) (sigma sigma' : store) :
  heap sigma' = heap sigma -> grows n sigma sigma'.
Proof. intros Heq. split; rewrite Heq; done. Qed.

Lemma store_bind_run {A B} (m : H A) (k : A -> H B) (sigma : store) :
  (m ≫= k) sigma
  = match m sigma with
    | (Ret a, sigma') => k a sigma'
    | (Raise e, sigma') => (Raise e, sigma')
    end.
Proof. reflexivity. Qed.

Lemma store_bind_ret_inv {A B} (m : H A) (k : A -> H B) (sigma sigma' : store) (b : B) :
  (m ≫= k) sigma = (Ret b, sigma') ->
  exists a sigma1, m sigma = (Ret a, sigma1) /\ k a sigma1 = (Ret b, sigma').
Proof.
  rewrite store_bind_run. destruct (m sigma) as [[a|e] sigma1]; [eauto|done].
Qed.

Lemma safe_ret {A} (n : nat) (a : A) : safe n (mret a).
Proof. intros sigma _. apply grows_refl. Qed.

Lemma safe_fail {A} (n : nat) (e : exn) : safe n (@fail A e).
Proof. intros sigma _. apply grows_refl. Qed.

Lemma safe_bind {A B} (n : nat) (m : H A) (k : A -> H B) :
  safe n m -> (forall a, safe n (k a)) -> safe n (m ≫= k).
Proof.
  intros Hm Hk sigma Hn. rewrite store_bind_run. specialize (Hm sigma Hn).
  destruct (m sigma) as [[a|e] sigma1]; simpl in *; [|done].
  eapply grows_trans; [exact Hm|]. apply Hk. destruct Hm. lia.
Qed.

(** As [safe_bind], when the continuation needs to know that the
    reference it receives is new. *)
Lemma safe_bind_fresh (n : nat) (m : H val) {B} (k : val -> H B) :
  safe n m -> fresh n id m -> (forall v, above n v -> safe n (k v)) ->
  safe n (m ≫= k).
Proof.
  intros Hm Hf Hk sigma Hn. rewrite store_bind_run.
  specialize (Hm sigma Hn). specialize (Hf sigma).
  destruct (m sigma) as [[v|e] sigma1]; simpl in *; [|done].
  eapply grows_trans; [exact Hm|]. apply Hk; [|destruct Hm; lia].
  specialize (Hf v sigma1 Hn eq_refl). unfold id in Hf.
  destruct v; simpl; try done. lia.
Qed.

Lemma safe_run {A} (n : nat) (m : M A) : safe n (run m).
Proof.
  intros sigma _. unfold run. destruct (m (world sigma)).
  by apply grows_same_heap.
Qed.

Lemma safe_alloc (n : nat) (o : obj) : safe n (alloc o).
Proof.
  intros sigma Hn. split; simpl.
  - rewrite length_app. lia.
  - intros l Hl. apply lookup_app_l. lia.
Qed.

Lemma fresh_alloc (n : nat) (o : obj) : fresh n id (alloc o).
Proof.
  intros sigma v sigma' Hn [= <- <-]. simpl. rewrite length_app. simpl. lia.
Qed.

Lemma safe_deref (n : nat) (l : loc) : safe n (deref l).
Proof.
  intros sigma _. unfold deref. destruct (heap sigma !! l); apply grows_refl.
Qed.

(** [append] writes to the list it is given and to nothing else. *)
Lemma safe_append (n : nat) (lst x : val) : above n lst -> safe n (append lst x).
Proof.
  intros Habove sigma Hn. unfold append.
  destruct lst as [| | | | |l]; try apply grows_refl.
  destruct (heap sigma !! l) as [[items|d]|]; try apply grows_refl.
  unfold above in Habove. split; cbn [snd heap].
  - by rewrite length_insert.
  - intros l' Hl'. apply list_lookup_insert_ne. lia.
Qed.

Lemma safe_get (n : nat) (v : val) (key : pystr) (default : val) :
  safe n (get v key default).
Proof.
  destruct v; try apply safe_fail. simpl.
  apply safe_bind; [apply safe_deref|]. intros [items|d];
    [apply safe_fail|apply safe_ret].
Qed.

Lemma safe_getitem (n : nat) (v : val) (key : pystr) : safe n (getitem v key).
Proof.
  destruct v; try apply safe_fail. simpl.
  apply safe_bind; [apply safe_deref|]. intros [items|d]; [apply safe_fail|].
  destruct (pairs_lookup key d); [apply safe_ret|apply safe_fail].
Qed.

Lemma safe_iter (n : nat) (v : val) : safe n (iter v).
Proof.
  destruct v; try apply safe_fail; simpl; [apply safe_ret|].
  apply safe_bind; [apply safe_deref|]. intros [items|d]; apply safe_ret.
Qed.

Lemma safe_for_each {A B} (n : nat) (f : A -> H B) (l : list A) :
  (forall x, safe n (f x)) -> safe n (for_each f l).
Proof.
  intros Hf. induction l as [|x l IH]; simpl; [apply safe_ret|].
  apply safe_bind; [apply Hf|]. intros y.
  apply safe_bind; [apply IH|]. intros ys. apply safe_ret.
Qed.

Lemma safe_dumps (n : nat) (v : val) : safe n (dumps v).
Proof.
  intros sigma _. unfold dumps. destruct (reify _ _ _); apply grows_refl.
Qed.

Lemma safe_alloc_json (n : nat) : forall j, safe n (alloc_json j).
Proof.
  fix IH 1. intros [| | | | |items|pairs]; simpl; try apply safe_ret.
  - apply safe_bind; [|intros; apply safe_alloc].
    induction items as [|x rest IHr]; [apply safe_ret|].
    apply safe_bind; [apply IH|]. intros v.
    apply safe_bind; [apply IHr|]. intros vs. apply safe_ret.
  - apply safe_bind; [|intros; apply safe_alloc].
    induction pairs as [|[k x] rest IHr]; [apply safe_ret|].
    apply safe_bind; [apply IH|]. intros v.
    apply safe_bind; [apply IHr|]. intros vs. apply safe_ret.
Qed.

Lemma fresh_bind {A B} (n : nat) (result : B -> val) (m : H A) (k : A -> H B) :
  safe n m -> (forall a, fresh n result (k a)) -> fresh n result (m ≫= k).
Proof.
  intros Hm Hk sigma b sigma' Hn (a & sigma1 & Hrun & Hrest)%store_bind_ret_inv.
  specialize (Hm sigma Hn). rewrite Hrun in Hm. destruct Hm as [Hlen _].
  simpl in Hlen. eapply Hk; [|exact Hrest]. lia.
Qed.

(** [v = m; k(v); return v]: the reference is still new after [k]. *)
Lemma fresh_kept {B} (n : nat) (m : H val) (k : val -> H B) :
  fresh n id m -> (forall v, above n v -> safe n (k v)) ->
  fresh n id (v ← m; k v;; mret v).
Proof.
  intros Hm Hk sigma v sigma' Hn (v' & sigma1 & Hrun & Hrest)%store_bind_ret_inv.
  apply store_bind_ret_inv in Hrest as (b & sigma2 & Hk2 & [= <- <-]).
  specialize (Hm sigma v' sigma1 Hn Hrun). unfold id in *.
  destruct v' as [| | | | |l]; try done.
  assert (Hgrow : grows n sigma1 sigma2).
  { specialize (Hk (VRef l) ltac:(simpl; lia) sigma1 ltac:(lia)).
    by rewrite Hk2 in Hk. }
  destruct Hgrow. lia.
Qed.

Lemma fresh_alloc_json (n : nat) (j : json) : fresh n id (alloc_json j).
Proof.
  destruct j as [| | | | |items|pairs]; simpl;
    try (intros sigma v sigma' _ [= <- <-]; done).
  - apply fresh_bind; [|intros; apply fresh_alloc].
    induction items as [|x rest IHr]; [apply safe_ret|].
    apply safe_bind; [apply safe_alloc_json|]. intros v.
    apply safe_bind; [apply IHr|]. intros vs. apply safe_ret.
  - apply fresh_bind; [|intros; apply fresh_alloc].
    induction pairs as [|[k x] rest IHr]; [apply safe_ret|].
    apply safe_bind; [apply safe_alloc_json|]. intros v.
    apply safe_bind; [apply IHr|]. intros vs. apply safe_ret.
Qed.

Section Agents.
Variable interp : interpreter.
Variable reka : nat -> pystr -> outcome pystr.
Variable tavily : pystr -> outcome (list hit).
Variable py_repr : json -> pystr.
Variable n : nat.

Lemma safe_str (v : val) : safe n (str py_repr v).
Proof. intros sigma _. apply grows_refl. Qed.

Lemma safe_join_val (sep : pystr) (v : val) : safe n (join_val sep v).
Proof.
  intros sigma Hn. unfold join_val.
  pose proof (safe_iter n v sigma Hn) as Hiter.
  destruct (iter v sigma) as [[items|e] sigma']; [|exact Hiter].
  destruct (expect_strs _ 0 items); exact Hiter.
Qed.

Lemma safe_summarise (emit : Emitter) (items : list hit) (articles : val) :
  above n articles -> safe n (summarise reka emit items articles).
Proof.
  intros Habove. induction items as [|item rest IH]; simpl; [apply safe_ret|].
  apply safe_bind; [apply safe_run|]. intros summary.
  apply safe_bind; [apply safe_alloc|]. intros a.
  apply safe_bind; [by apply safe_append|]. intros _.
  apply safe_bind; [apply safe_run|]. intros _. exact IH.
Qed.

Lemma safe_data_agent (topic : pystr) (emit : Emitter) :
  safe n (data_agent reka tavily topic emit).
Proof.
  unfold data_agent.
  apply safe_bind; [apply safe_run|]. intros _.
  apply safe_bind; [apply safe_run|]. intros [|h hits].
  - apply safe_bind; [apply safe_run|]. intros _. apply safe_alloc.
  - apply safe_bind_fresh; [apply safe_alloc|apply fresh_alloc|].
    intros articles Habove.
    apply safe_bind; [by apply safe_summarise|]. intros _. apply safe_ret.
Qed.

Lemma fresh_data_agent (topic : pystr) (emit : Emitter) :
  fresh n id (data_agent reka tavily topic emit).
Proof.
  unfold data_agent.
  apply fresh_bind; [apply safe_run|]. intros _.
  apply fresh_bind; [apply safe_run|]. intros [|h hits].
  - apply fresh_bind; [apply safe_run|]. intros _. apply fresh_alloc.
  - apply fresh_kept; [apply fresh_alloc|].
    intros articles Habove. by apply safe_summarise.
Qed.

Lemma safe_log_numbered (emit : Emitter) (label : pystr) (xs : list val) :
  forall i, safe n (log_numbered py_repr emit label i xs).
Proof.
  induction xs as [|x xs IH]; intros i; simpl; [apply safe_ret|].
  apply safe_bind; [apply safe_str|]. intros s.
  apply safe_bind; [apply safe_run|]. intros _. apply IH.
Qed.

Lemma safe_get_list (data : val) (key : pystr) : safe n (get_list data key).
Proof.
  unfold get_list. apply safe_bind; [apply safe_alloc|]. intros empty.
  apply safe_get.
Qed.

Lemma safe_log_entries (emit : Emitter) (label key : pystr) (result : val) :
  safe n (log_entries py_repr emit label key result).
Proof.
  unfold log_entries. apply safe_bind; [apply safe_get_list|]. intros entries.
  apply safe_bind; [apply safe_iter|]. intros xs. apply safe_log_numbered.
Qed.

Lemma safe_bullets (data : val) (key : pystr) :
  safe n (bullets py_repr data key).
Proof.
  unfold bullets. apply safe_bind; [apply safe_get_list|]. intros entries.
  apply safe_bind; [apply safe_iter|]. intros xs.
  apply safe_bind; [|intros; apply safe_ret].
  apply safe_for_each. intros x.
  apply safe_bind; [apply safe_str|]. intros; apply safe_ret.
Qed.

Lemma safe_fallback (raw : pystr) (keys : list pystr) :
  forall first, safe n (fallback raw keys first).
Proof.
  induction keys as [|key rest IH]; intros first; simpl; [apply safe_ret|].
  apply safe_bind; [apply safe_alloc|]. intros l.
  apply safe_bind; [apply IH|]. intros d. apply safe_ret.
Qed.

Lemma safe_extract (r : structured) (raw : pystr) :
  safe n (extract interp r raw).
Proof.
  unfold extract.
  destruct (_parse_json interp raw); [apply safe_alloc_json| | |apply safe_fail];
    (apply safe_bind; [apply safe_fallback|]; intros d; apply safe_alloc).
Qed.

Lemma fresh_extract (r : structured) (raw : pystr) :
  fresh n id (extract interp r raw).
Proof.
  unfold extract.
  destruct (_parse_json interp raw); [apply fresh_alloc_json| | |];
    try (apply fresh_bind; [apply safe_fallback|]; intros d; apply fresh_alloc).
  intros sigma a sigma' _ Hrun. discriminate Hrun.
Qed.

Lemma safe_trend_agent (articles : val) (emit : Emitter) :
  safe n (trend_agent interp reka py_repr articles emit).
Proof.
  unfold trend_agent.
  apply safe_bind; [apply safe_run|]. intros _.
  apply safe_bind; [apply safe_iter|]. intros items.
  apply safe_bind.
  { apply safe_for_each. intros a.
    repeat (apply safe_bind;
            [first [apply safe_getitem|apply safe_str]|intros ?]).
    apply safe_ret. }
  intros lines.
  apply safe_bind; [apply safe_run|]. intros raw.
  apply safe_bind; [apply safe_extract|]. intros result.
  apply safe_bind; [apply safe_log_entries|]. intros _. apply safe_ret.
Qed.

Lemma fresh_trend_agent (articles : val) (emit : Emitter) :
  fresh n id (trend_agent interp reka py_repr articles emit).
Proof.
  unfold trend_agent.
  apply fresh_bind; [apply safe_run|]. intros _.
  apply fresh_bind; [apply safe_iter|]. intros items.
  apply fresh_bind.
  { apply safe_for_each. intros a.
    repeat (apply safe_bind;
            [first [apply safe_getitem|apply safe_str]|intros ?]).
    apply safe_ret. }
  intros lines.
  apply fresh_bind; [apply safe_run|]. intros raw.
  apply fresh_kept; [apply fresh_extract|]. intros v _.
  apply safe_log_entries.
Qed.

Lemma safe_strategy_agent (trend_data : val) (emit : Emitter) :
  safe n (strategy_agent interp reka py_repr trend_data emit).
Proof.
  unfold strategy_agent.
  apply safe_bind; [apply safe_run|]. intros _.
  apply safe_bind; [apply safe_bullets|]. intros trend_text.
  apply safe_bind; [apply safe_bullets|]. intros sentiment_text.
  apply safe_bind; [apply safe_run|]. intros raw.
  apply safe_bind; [apply safe_extract|]. intros result.
  apply safe_bind; [apply safe_log_entries|]. intros _. apply safe_ret.
Qed.

Lemma fresh_strategy_agent (trend_data : val) (emit : Emitter) :
  fresh n id (strategy_agent interp reka py_repr trend_data emit).
Proof.
  unfold strategy_agent.
  apply fresh_bind; [apply safe_run|]. intros _.
  apply fresh_bind; [apply safe_bullets|]. intros trend_text.
  apply fresh_bind; [apply safe_bullets|]. intros sentiment_text.
  apply fresh_bind; [apply safe_run|]. intros raw.
  apply fresh_kept; [apply fresh_extract|]. intros v _.
  apply safe_log_entries.
Qed.

Lemma safe_risk_agent (trend_data strategy_data : val) (emit : Emitter) :
  safe n (risk_agent interp reka py_repr trend_data strategy_data emit).
Proof.
  unfold risk_agent.
  apply safe_bind; [apply safe_run|]. intros _.
  apply safe_bind; [apply safe_bullets|]. intros trend_text.
  apply safe_bind; [apply safe_bullets|]. intros strategy_text.
  apply safe_bind; [apply safe_run|]. intros raw.
  apply safe_bind; [apply safe_extract|]. intros result.
  apply safe_bind; [apply safe_log_entries|]. intros _. apply safe_ret.
Qed.

Lemma fresh_risk_agent (trend_data strategy_data : val) (emit : Emitter) :
  fresh n id (risk_agent interp reka py_repr trend_data strategy_data emit).
Proof.
  unfold risk_agent.
  apply fresh_bind; [apply safe_run|]. intros _.
  apply fresh_bind; [apply safe_bullets|]. intros trend_text.
  apply fresh_bind; [apply safe_bullets|]. intros strategy_text.
  apply fresh_bind; [apply safe_run|]. intros raw.
  apply fresh_kept; [apply fresh_extract|]. intros v _.
  apply safe_log_entries.
Qed.

Lemma safe_voice_agent (report_text : pystr) (emit : Emitter) :
  safe n (voice_agent reka report_text emit).
Proof.
  unfold voice_agent.
  apply safe_bind; [apply safe_run|]. intros _.
  apply safe_bind; [apply safe_run|]. intros script. apply safe_ret.
Qed.

Lemma safe_joined (sep : pystr) (data : val) (key : pystr) :
  safe n (joined sep data key).
Proof.
  unfold joined. apply safe_bind; [apply safe_get_list|]. intros entries.
  apply safe_join_val.
Qed.

Lemma safe_voice_step (topic : pystr) (include_voice : bool)
    (trends strategy risks : val) :
  safe n (voice_step reka topic include_voice trends strategy risks).
Proof.
  unfold voice_step. destruct include_voice; [|apply safe_ret].
  apply safe_bind; [apply safe_run|]. intros _.
  apply safe_bind; [apply safe_joined|]. intros t.
  apply safe_bind; [apply safe_joined|]. intros o.
  apply safe_bind; [apply safe_joined|]. intros r.
  apply safe_voice_agent.
Qed.

Lemma safe_build_report (topic : pystr)
    (articles trends strategy risks voice_script : val) :
  safe n (build_report topic articles trends strategy risks voice_script).
Proof. apply safe_alloc. Qed.

Lemma safe_is_empty (v : val) : safe n (is_empty v).
Proof.
  destruct v; try apply safe_ret. simpl.
  apply safe_bind; [apply safe_deref|]. intros o. apply safe_ret.
Qed.

Lemma safe_pipeline_body (topic : pystr) (include_voice : bool) :
  safe n (pipeline_body interp reka tavily py_repr topic include_voice).
Proof.
  unfold pipeline_body.
  apply safe_bind; [apply safe_run|]. intros _.
  apply safe_bind; [apply safe_run|]. intros _.
  apply safe_bind; [apply safe_data_agent|]. intros articles.
  apply safe_bind; [apply safe_is_empty|]. intros [|]; [apply safe_run|].
  apply safe_bind; [apply safe_run|]. intros _.
  apply safe_bind; [apply safe_trend_agent|]. intros trends.
  apply safe_bind; [apply safe_run|]. intros _.
  apply safe_bind; [apply safe_strategy_agent|]. intros strategy.
  apply safe_bind; [apply safe_run|]. intros _.
  apply safe_bind; [apply safe_risk_agent|]. intros risks.
  apply safe_bind; [apply safe_voice_step|]. intros voice_script.
  apply safe_bind; [apply safe_build_report|]. intros report.
  apply safe_bind; [apply safe_run|]. intros _.
  apply safe_bind; [apply safe_dumps|]. intros text. apply safe_run.
Qed.

End Agents.

Lemma safe_unchanged {A} (m : H A) (sigma : store) :
  safe (length (heap sigma)) m -> unchanged sigma (m sigma).2.
Proof.
  intros Hsafe l o Hl. destruct (Hsafe sigma ltac:(done)) as [_ Hsame].
  rewrite Hsame; [done|]. by apply lookup_lt_Some in Hl.
Qed.

Lemma fresh_brand_new (m : H val) (sigma sigma' : store) (v : val) :
  fresh (length (heap sigma)) id m -> m sigma = (Ret v, sigma') ->
  brand_new sigma sigma' v.
Proof. intros Hfresh Hrun. exact (Hfresh sigma v sigma' ltac:(done) Hrun). Qed.

(** C9.  A stage call does not mutate what it is given: whatever the
    references passed in, every object that exists when the Trend,
    Strategy, Risk or Voice stage, or the assembly and dump of the report,
    is called is unchanged when the call ends (so the article list and its
    entries, the trend mapping and the strategy mapping are), and the
    result of a stage is a reference to an object created by that call.
    The same holds of the Data stage, whose [append] writes only to the
    list it has created. *)
Theorem stages_do_not_mutate (interp : interpreter)
    (reka : nat -> pystr -> outcome pystr)
    (tavily : pystr -> outcome (list hit)) (py_repr : json -> pystr)
    (emit : Emitter) (sigma : store) :
  (forall articles,
     let call := trend_agent interp reka py_repr articles emit sigma in
     unchanged sigma call.2
     /\ forall result sigma', call = (Ret result, sigma') ->
                              brand_new sigma sigma' result)
  /\ (forall trends,
        let call := strategy_agent interp reka py_repr trends emit sigma in
        unchanged sigma call.2
        /\ forall result sigma', call = (Ret result, sigma') ->
                                 brand_new sigma sigma' result)
  /\ (forall trends strategy,
        let call := risk_agent interp reka py_repr trends strategy emit sigma in
        unchanged sigma call.2
        /\ forall result sigma', call = (Ret result, sigma') ->
                                 brand_new sigma sigma' result)
  /\ (forall topic include_voice trends strategy risks,
        unchanged sigma
          (voice_step reka topic include_voice trends strategy risks sigma).2)
  /\ (forall topic articles trends strategy risks voice_script,
        let call := build_report topic articles trends strategy risks
                      voice_script sigma in
        unchanged sigma call.2
        /\ (forall report sigma', call = (Ret report, sigma') ->
                                  brand_new sigma sigma' report)
        /\ forall report, unchanged sigma (dumps report sigma).2)
  /\ (forall topic,
        let call := data_agent reka tavily topic emit sigma in
        unchanged sigma call.2
        /\ forall result sigma', call = (Ret result, sigma') ->
                                 brand_new sigma sigma' result)
  /\ (forall topic include_voice,
        unchanged sigma
          (pipeline_body interp reka tavily py_repr topic include_voice
             sigma).2).
Proof.
  repeat apply conj; intros; try apply conj; try apply conj; intros;
    first
      [ apply safe_unchanged;
        first [ apply safe_trend_agent | apply safe_strategy_agent
              | apply safe_risk_agent | apply safe_voice_step
              | apply safe_build_report | apply safe_dumps
              | apply safe_data_agent | apply safe_pipeline_body ]
      | eapply fresh_brand_new; [|eassumption];
        first [ apply fresh_trend_agent | apply fresh_strategy_agent
              | apply fresh_risk_agent | apply fresh_alloc
              | apply fresh_data_agent ] ].
Qed.

End Frame.

(** The sample run on the store: the article list is at address 0 and the
    five articles follow it; they are what the Data stage left when the run
    ends, and the report refers to them. *)
Example sample_store_run :
  let sigma :=
    Store._run_pipeline sample_interpreter sample_reka sample_tavily (fun _ => [])
      (py "AI hardware market") true (Store.Store [] empty_state) in
  let after_data :=
    (Store.data_agent sample_reka sample_tavily (py "AI hardware market") None
       (Store.Store [] empty_state)).2 in
  Store.heap after_data !! 0
  = Some (Store.OList (map Store.VRef [1; 2; 3; 4; 5]))
  /\ take 6 (Store.heap sigma) = Store.heap after_data
  /\ length (Store.heap sigma) = 27.
Proof. vm_compute. repeat split; reflexivity. Qed.

(** * Further properties *)

(** ** Event framing *)

Lemma replace_char_app (old : N) (new a b : pystr) :
  replace_char old new (a ++ b) = replace_char old new a ++ replace_char old new b.
Proof. unfold replace_char. apply flat_map_app. Qed.

Lemma escaped_no_newline (data : pystr) :
  NEWLINE ∉ replace_char NEWLINE ESCAPED_NEWLINE data.
Proof.
  induction data as [|c data IH]; [apply not_elem_of_nil|].
  change (NEWLINE ∉ (if (c =? NEWLINE)%N then ESCAPED_NEWLINE else [c])
                    ++ replace_char NEWLINE ESCAPED_NEWLINE data).
  rewrite elem_of_app. intros [Hc|Hrest]; [|done].
  destruct (N.eqb_spec c NEWLINE) as [->|Hne].
  - revert Hc. apply (bool_decide_unpack _). vm_compute. exact I.
  - apply list_elem_of_singleton in Hc. done.
Qed.

(** X1.  An event is two lines and a blank line, whatever the data: the
    line that carries the data never contains a line break, so the blank
    line that ends the event is the only one a reader can find in it. *)
Theorem sse_data_on_one_line (event data : pystr) :
  (NEWLINE ∉ event) ->
  exists first second,
    _sse event data = first ++ NL ++ second ++ NL ++ NL
    /\ first = py "event: " ++ event
    /\ second = py "data: " ++ replace_char NEWLINE ESCAPED_NEWLINE data
    /\ (NEWLINE ∉ first) /\ (NEWLINE ∉ second).
Proof.
  intros Hevent. eexists _, _. split; [|split; [reflexivity|split; [reflexivity|]]].
  - unfold _sse. by rewrite <- !app_assoc.
  - split; rewrite elem_of_app; intros [H|H]; try done.
    + revert H. apply (bool_decide_unpack _). vm_compute. exact I.
    + revert H. apply (bool_decide_unpack _). vm_compute. exact I.
    + by apply escaped_no_newline in H.
Qed.

Lemma sse_data_on_one_line_witness :
  (NEWLINE ∉ py "log")
  /\ exists first second,
       _sse (py "log") (py "one" ++ NL ++ NL ++ py "two")
       = first ++ NL ++ second ++ NL ++ NL
       /\ first = py "event: " ++ py "log"
       /\ second = py "data: "
                   ++ replace_char NEWLINE ESCAPED_NEWLINE (py "one" ++ NL ++ NL ++ py "two")
       /\ (NEWLINE ∉ first) /\ (NEWLINE ∉ second).
Proof.
  assert (H : NEWLINE ∉ py "log").
  { apply (bool_decide_unpack _). vm_compute. exact I. }
  split; [exact H|]. exact (sse_data_on_one_line (py "log") _ H).
Defined.

(** X2.  The escaping of [_sse] is not reversible: a line break in the
    data and the two characters backslash, n give the same event. *)
Theorem sse_conflates_newline (event a b : pystr) :
  _sse event (a ++ [NEWLINE] ++ b) = _sse event (a ++ ESCAPED_NEWLINE ++ b)
  /\ a ++ [NEWLINE] ++ b <> a ++ ESCAPED_NEWLINE ++ b.
Proof.
  split.
  - unfold _sse. by rewrite !replace_char_app.
  - intros H. apply app_inv_head in H. discriminate H.
Qed.

(** ** Code fences around a response *)

Lemma lstrip_app_spaces (l s : pystr) :
  forallb isspace l = true -> lstrip (l ++ s) = lstrip s.
Proof.
  induction l as [|c l IH]; [done|]. simpl.
  intros [Hc Hl]%andb_prop. rewrite Hc. auto.
Qed.

Lemma lstrip_app_mark (s : pystr) (c : N) (r : pystr) :
  isspace c = false -> lstrip (s ++ c :: r) = lstrip s ++ c :: r.
Proof.
  intros Hc. induction s as [|d s IH]; simpl; [by rewrite Hc|].
  destruct (isspace d); done.
Qed.

Lemma lstrip_idemp (s : pystr) : lstrip (lstrip s) = lstrip s.
Proof.
  induction s as [|c s IH]; [done|]. simpl.
  destruct (isspace c) eqn:Hc; [done|]. simpl. by rewrite Hc.
Qed.

Lemma forallb_reverse {A} (f : A -> bool) (l : list A) :
  forallb f (reverse l) = forallb f l.
Proof.
  induction l as [|x l IH]; [done|].
  rewrite reverse_cons, forallb_app, IH. simpl. by rewrite andb_true_r, andb_comm.
Qed.

Lemma rstrip_app_spaces (s r : pystr) :
  forallb isspace r = true -> rstrip (s ++ r) = rstrip s.
Proof.
  intros Hr. unfold rstrip. rewrite reverse_app, lstrip_app_spaces; [done|].
  by rewrite forallb_reverse.
Qed.

Lemma rstrip_app_mark (s : pystr) (c : N) :
  isspace c = false -> rstrip (s ++ [c]) = s ++ [c].
Proof.
  intros Hc. unfold rstrip. rewrite reverse_app. simpl. rewrite Hc.
  change (c :: reverse s) with (reverse [c] ++ reverse s).
  by rewrite <- reverse_app, reverse_involutive.
Qed.

Lemma strip_app_spaces_l (l s : pystr) :
  forallb isspace l = true -> strip (l ++ s) = strip s.
Proof. intros Hl. unfold strip. by rewrite lstrip_app_spaces. Qed.

Lemma strip_app_spaces_r (s r : pystr) :
  forallb isspace r = true -> strip (s ++ r) = strip s.
Proof.
  intros Hr. induction s as [|c s IH].
  - by rewrite strip_spaces.
  - unfold strip in *. simpl. destruct (isspace c); [exact IH|].
    change (c :: s ++ r) with ((c :: s) ++ r). by apply rstrip_app_spaces.
Qed.

Lemma strip_lstrip (s : pystr) : strip (lstrip s) = strip s.
Proof. unfold strip. by rewrite lstrip_idemp. Qed.

Lemma endswith_app (p s : pystr) : endswith p (s ++ p) = true.
Proof. unfold endswith. rewrite reverse_app. apply startswith_app. Qed.

(** What [_parse_json] does with a text that opens with a fence and
    closes with one. *)
Lemma parse_json_between_fences (interp : interpreter) (l r tag body : pystr) :
  forallb isspace l = true -> forallb isspace r = true ->
  tag = py "json" \/ (tag = [] /\ startswith (py "json") body = false) ->
  _parse_json interp (l ++ FENCE ++ tag ++ body ++ FENCE ++ r)
  = json_loads interp (strip body).
Proof.
  intros Hl Hr Htag. unfold _parse_json.
  assert (Hstrip : strip (l ++ FENCE ++ tag ++ body ++ FENCE ++ r)
                   = FENCE ++ tag ++ body ++ FENCE).
  { rewrite strip_app_spaces_l by done.
    replace (FENCE ++ tag ++ body ++ FENCE ++ r)
      with ((FENCE ++ tag ++ body ++ FENCE) ++ r) by (by rewrite <- !app_assoc).
    rewrite strip_app_spaces_r by done.
    change (FENCE ++ tag ++ body ++ FENCE)
      with (96%N :: ([96; 96]%N ++ tag ++ body ++ FENCE)).
    replace ([96; 96]%N ++ tag ++ body ++ FENCE)
      with (([96; 96]%N ++ tag ++ body ++ [96; 96]%N) ++ [96%N])
      by (by rewrite <- !app_assoc).
    by apply strip_bracketed. }
  rewrite Hstrip. rewrite startswith_app.
  change (drop 3 (FENCE ++ tag ++ body ++ FENCE)) with (tag ++ body ++ FENCE).
  assert (Hopen : (if startswith (py "json") (tag ++ body ++ FENCE)
                   then drop 4 (tag ++ body ++ FENCE) else tag ++ body ++ FENCE)
                  = body ++ FENCE).
  { destruct Htag as [->|[-> Hbody]].
    - by rewrite startswith_app.
    - simpl app. destruct (startswith (py "json") (body ++ FENCE)) eqn:Hs; [|done].
      exfalso. revert Hbody Hs. clear.
      destruct body as [|a [|b [|c [|d body]]]]; vm_compute; congruence. }
  rewrite Hopen.
  assert (Hinner : strip (body ++ FENCE) = lstrip body ++ FENCE).
  { unfold strip. change FENCE with (96%N :: [96; 96]%N) at 1.
    rewrite lstrip_app_mark by done.
    change (96%N :: [96; 96]%N) with ([96; 96]%N ++ [96%N]).
    rewrite app_assoc. by rewrite rstrip_app_mark, <- app_assoc. }
  rewrite Hinner, endswith_app.
  rewrite length_app. change (length FENCE) with 3.
  replace (length (lstrip body) + 3 - 3) with (length (lstrip body)) by lia.
  by rewrite take_app_length, strip_lstrip.
Qed.

(** X3.  A response wrapped in a code fence, with or without the [json]
    tag and whatever the white space around the fences and inside them,
    is decoded as the bare text is: the extraction gives what
    [json.loads] gives for the stripped text between the fences. *)
Theorem fenced_response_decoded (interp : interpreter) (l r body : pystr) :
  forallb isspace l = true -> forallb isspace r = true ->
  _parse_json interp (l ++ FENCE ++ py "json" ++ body ++ FENCE ++ r)
  = json_loads interp (strip body)
  /\ (startswith (py "json") body = false ->
      _parse_json interp (l ++ FENCE ++ body ++ FENCE ++ r)
      = json_loads interp (strip body)).
Proof.
  intros Hl Hr. split.
  - apply parse_json_between_fences; auto.
  - intros Hbody. apply (parse_json_between_fences interp l r [] body); auto.
Qed.

Lemma fenced_response_decoded_witness :
  let body := NL ++ json_dumps sample_trends ++ NL in
  (forallb isspace (py " ") = true /\ forallb isspace NL = true)
  /\ _parse_json sample_interpreter
       (py " " ++ FENCE ++ py "json" ++ body ++ FENCE ++ NL)
     = Loaded sample_trends.
Proof.
  intros body. split; [split; reflexivity|].
  destruct (fenced_response_decoded sample_interpreter (py " ") NL body
              eq_refl eq_refl) as [-> _].
  vm_compute. reflexivity.
Defined.

(** ** The run table *)

Lemma topic_of_mapping (data : json) (t : pystr) :
  py_get data (py "topic") (JStr []) = Ret (JStr t) -> exists d, data = JObj d.
Proof. destruct data; try discriminate. eauto. Qed.

(** X4.  A run that [start_run] accepts is registered under the
    identifier it answers with: [stream] finds it, with an empty queue, one
    thread is started with the stripped topic, and every other identifier
    is answered as before.  When the generator forgets the run, [stream]
    answers 404 again; forgetting twice is harmless. *)
Theorem run_table_life_cycle (float_nonzero : pystr -> bool) (data : json)
    (uuid : pystr) (sv : server) (t : pystr) :
  py_get data (py "topic") (JStr []) = Ret (JStr t) -> strip t <> [] ->
  exists include_voice sv',
    start_run float_nonzero data uuid sv
    = (Ret (Response 200 (JObj [(py "run_id", JStr uuid)])), sv')
    /\ threads sv' = threads sv ++ [(uuid, strip t, include_voice)]
    /\ stream uuid sv' = EventStream []
    /\ (forall other, other <> uuid -> stream other sv' = stream other sv)
    /\ stream uuid (forget uuid sv') = Unknown (py "Unknown run_id") 404
    /\ forget uuid (forget uuid sv') = forget uuid sv'
    /\ (forall other, other <> uuid ->
        stream other (forget uuid sv') = stream other sv).
Proof.
  intros Htopic Hne. destruct (topic_of_mapping _ _ Htopic) as [d ->].
  unfold start_run. rewrite Htopic. destruct (strip t) as [|c s] eqn:Ht; [done|].
  cbn [py_get]. eexists _, _. split; [reflexivity|]. cbn [threads _runs].
  split; [reflexivity|]. unfold stream, forget. cbn [_runs threads].
  split; [by rewrite lookup_insert_eq|].
  split; [by intros other Hother; rewrite lookup_insert_ne|].
  split; [by rewrite lookup_delete_eq|].
  split; [by rewrite delete_delete_eq|].
  intros other Hother. by rewrite lookup_delete_ne, lookup_insert_ne.
Qed.

Lemma run_table_life_cycle_witness :
  let data := JObj [(py "topic", JStr (py "  AI hardware market "))] in
  let sv := Server ∅ [] in
  (py_get data (py "topic") (JStr []) = Ret (JStr (py "  AI hardware market "))
   /\ strip (py "  AI hardware market ") <> [])
  /\ exists include_voice sv',
       start_run (fun _ => true) data (py "run-1") sv
       = (Ret (Response 200 (JObj [(py "run_id", JStr (py "run-1"))])), sv')
       /\ threads sv' = [(py "run-1", strip (py "  AI hardware market "), include_voice)]
       /\ stream (py "run-1") sv' = EventStream []
       /\ stream (py "run-1") (forget (py "run-1") sv')
          = Unknown (py "Unknown run_id") 404.
Proof.
  intros data sv.
  assert (Htopic : py_get data (py "topic") (JStr [])
                   = Ret (JStr (py "  AI hardware market "))) by reflexivity.
  assert (Hne : strip (py "  AI hardware market ") <> []) by (vm_compute; discriminate).
  split; [by split|].
  destruct (run_table_life_cycle (fun _ => true) data (py "run-1") sv _ Htopic Hne)
    as (iv & sv' & Hrun & Hthreads & Hstream & _ & Hgone & _).
  exists iv, sv'. repeat split; assumption.
Defined.

(** X5.  The Voice stage is switched off only by a value that Python
    takes for false: [start_run] starts the thread with [include_voice]
    false exactly when the request carries the key with [null], [false],
    [0], a zero float, or an empty string, list or object.  A missing key
    and any other value, the string [false] included, switch it on. *)
Theorem voice_off_only_when_falsy (float_nonzero : pystr -> bool)
    (d : list (pystr * json)) (uuid : pystr) (sv : server) (t : pystr) :
  dict_lookup (py "topic") d = Some (JStr t) -> strip t <> [] ->
  exists include_voice,
    threads (start_run float_nonzero (JObj d) uuid sv).2
    = threads sv ++ [(uuid, strip t, include_voice)]
    /\ (include_voice = false <->
        exists flag,
          dict_lookup (py "include_voice") d = Some flag
          /\ (flag = JNull \/ flag = JBool false \/ flag = JInt 0
              \/ (exists literal, flag = JFloat literal /\ float_nonzero literal = false)
              \/ flag = JStr [] \/ flag = JArr [] \/ flag = JObj [])).
Proof.
  intros Htopic Hne. unfold start_run. cbn [py_get]. rewrite Htopic.
  destruct (strip t) as [|c s] eqn:Ht; [done|]. cbn [snd threads].
  eexists. split; [reflexivity|].
  destruct (dict_lookup (py "include_voice") d) as [flag|]; cbn [py_bool].
  - split.
    + intros Hflag. exists flag. split; [done|].
      destruct flag as [|[]|z|literal|s'|items|pairs]; cbn [py_bool] in Hflag;
        try discriminate; auto.
      * apply negb_false_iff, Z.eqb_eq in Hflag as ->. auto.
      * right. right. right. left. eauto.
      * destruct s'; [auto 10|discriminate].
      * destruct items; [auto 10|discriminate].
      * destruct pairs; [auto 10|discriminate].
    + intros (flag' & [= <-] & Hflag).
      destruct Hflag as [->|[->|[->|[(lit & -> & Hlit)|[->|[->| ->]]]]]]; done.
  - split; [discriminate|]. intros (flag & Hflag & _). discriminate.
Qed.

Lemma voice_off_only_when_falsy_witness :
  let d := [(py "topic", JStr (py "AI hardware market"));
            (py "include_voice", JStr (py "false"))] in
  (dict_lookup (py "topic") d = Some (JStr (py "AI hardware market"))
   /\ strip (py "AI hardware market") <> [])
  /\ threads (start_run (fun _ => true) (JObj d) (py "run-1") (Server ∅ [])).2
     = [(py "run-1", py "AI hardware market", true)].
Proof.
  intros d.
  assert (Htopic : dict_lookup (py "topic") d = Some (JStr (py "AI hardware market")))
    by reflexivity.
  assert (Hne : strip (py "AI hardware market") <> []) by (vm_compute; discriminate).
  split; [by split|].
  destruct (voice_off_only_when_falsy (fun _ => true) d (py "run-1") (Server ∅ []) _
              Htopic Hne) as (iv & -> & Hiv).
  destruct iv; [reflexivity|].
  destruct Hiv as [Hiv _]. destruct (Hiv eq_refl) as (flag & Hflag & Hcases).
  vm_compute in Hflag. injection Hflag as <-.
  exfalso.
  destruct Hcases as [H|[H|[H|[(lit & H & _)|[H|[H|H]]]]]]; discriminate H.
Defined.

(** X6.  [start_run] raises exactly when the body of the request is not
    an object or its topic is not a string; what it raises is an
    [AttributeError], and the run table and the threads are as they
    were: no run is created. *)
Theorem start_run_raises (float_nonzero : pystr -> bool) (data : json)
    (uuid : pystr) (sv : server) :
  ((forall d, data <> JObj d)
   \/ (exists d v, data = JObj d /\ dict_lookup (py "topic") d = Some v
                   /\ forall s, v <> JStr s))
  <-> exists e,
        start_run float_nonzero data uuid sv = (Raise e, sv)
        /\ exn_cls e = AttributeError.
Proof.
  split.
  - intros [Hdata|(d & v & -> & Hv & Hstr)].
    + destruct data; try (eexists; repeat split; done). by destruct (Hdata pairs).
    + unfold start_run. cbn [py_get]. rewrite Hv.
      destruct v; try (eexists; repeat split; done). by destruct (Hstr s).
  - intros (e & Hrun & _). unfold start_run in Hrun.
    destruct data as [| | | | | |d]; try (left; done). right.
    cbn [py_get] in Hrun.
    destruct (dict_lookup (py "topic") d) as [v|] eqn:Hv.
    + exists d, v. split; [done|]. split; [done|]. intros s ->.
      destruct (strip s); [discriminate|].
      destruct (dict_lookup (py "include_voice") d); discriminate.
    + change (strip []) with (@nil N) in Hrun. discriminate.
Qed.

(** ** Failures of the services *)

(** X7.  When the search request fails, the executor reports it on the
    stream and stops: after the three messages that announce the search,
    one error event carries the text of the exception, then the sentinel;
    nothing is asked of the reasoning service. *)
Theorem search_failure_reported (interp : interpreter)
    (reka : nat -> pystr -> outcome pystr)
    (tavily : pystr -> outcome (list hit)) (py_repr : json -> pystr)
    (topic : pystr) (include_voice : bool) (st : state) (exc : exn) :
  tavily topic = Raise exc ->
  let st' := _run_pipeline interp reka tavily py_repr topic include_voice st in
  queue st'
  = queue st
    ++ [Some (_sse (py "log")
                (ROCKET ++ py " Pipeline started for topic: '" ++ topic ++ py "'"));
        Some (_sse (py "log")
                (MAGNIFIER ++ py " [Data Agent] Searching for recent news..."));
        Some (_sse (py "log")
                (py "[Data Agent] " ++ MAGNIFIER ++ py " Searching news for: '"
                 ++ topic ++ py "' ..."));
        Some (_sse (py "error") (py "Pipeline error: " ++ exn_msg exc));
        None]
  /\ reka_calls st' = reka_calls st
  /\ tavily_calls st' = tavily_calls st ++ [topic].
Proof.
  intros Hsearch st'. subst st'.
  run_pipeline. rewrite Hsearch. run_pipeline.
  destruct st. split; [|split; reflexivity].
  rewrite <- !app_assoc. reflexivity.
Qed.

Lemma search_failure_reported_witness :
  let exc := Exn OtherException (py "503 Server Error") in
  let tavily := fun (_ : pystr) => @Raise (list hit) exc in
  let st' := _run_pipeline sample_interpreter sample_reka tavily (fun _ => [])
               (py "AI hardware market") true empty_state in
  tavily (py "AI hardware market") = Raise exc
  /\ count (item_is is_error) (queue st') = 1
  /\ last (queue st') = Some None
  /\ reka_calls st' = [].
Proof.
  intros exc tavily st'. split; [reflexivity|].
  destruct (search_failure_reported sample_interpreter sample_reka tavily (fun _ => [])
              (py "AI hardware market") true empty_state exc eq_refl)
    as (Hq & Hreka & _).
  fold st' in Hq, Hreka. rewrite Hq, Hreka. vm_compute. done.
Defined.

(** X8.  A failure of the reasoning service is not taken for a response
    that does not decode: when the service raises on every request and the
    search gives a hit, the first summarising request is the only one, no
    fallback is built, and the run ends with the error event that carries
    the text of the exception, then the sentinel. *)
Theorem reasoning_failure_reported (interp : interpreter)
    (reka : nat -> pystr -> outcome pystr)
    (tavily : pystr -> outcome (list hit)) (py_repr : json -> pystr)
    (topic : pystr) (include_voice : bool) (st : state) (exc : exn)
    (h : hit) (hits : list hit) :
  tavily topic = Ret (h :: hits) ->
  (forall n message, reka n message = Raise exc) ->
  let st' := _run_pipeline interp reka tavily py_repr topic include_voice st in
  queue st'
  = queue st
    ++ [Some (_sse (py "log")
                (ROCKET ++ py " Pipeline started for topic: '" ++ topic ++ py "'"));
        Some (_sse (py "log")
                (MAGNIFIER ++ py " [Data Agent] Searching for recent news..."));
        Some (_sse (py "log")
                (py "[Data Agent] " ++ MAGNIFIER ++ py " Searching news for: '"
                 ++ topic ++ py "' ..."));
        Some (_sse (py "error") (py "Pipeline error: " ++ exn_msg exc));
        None]
  /\ reka_calls st' = reka_calls st ++ [summary_request h].
Proof.
  intros Hsearch Hreka st'. subst st'.
  run_pipeline. rewrite Hsearch. run_pipeline.
  unfold MAX_ARTICLES. cbn [take summarise]. run_pipeline.
  unfold _chat. rewrite Hreka. run_pipeline.
  destruct st. split; [|reflexivity].
  rewrite <- !app_assoc. reflexivity.
Qed.

Lemma reasoning_failure_reported_witness :
  let exc := Exn OtherException (py "rate limit exceeded") in
  let reka := fun (_ : nat) (_ : pystr) => @Raise pystr exc in
  let st' := _run_pipeline sample_interpreter reka sample_tavily (fun _ => [])
               (py "AI hardware market") true empty_state in
  (sample_tavily (py "AI hardware market") = Ret (sample_hit 1 :: map sample_hit [2; 3; 4; 5; 6; 7]%Z)
   /\ forall n message, reka n message = Raise exc)
  /\ count (item_is is_error) (queue st') = 1
  /\ count (item_is is_done) (queue st') = 0
  /\ length (reka_calls st') = 1.
Proof.
  intros exc reka st'. split; [split; [reflexivity|intros; reflexivity]|].
  destruct (reasoning_failure_reported sample_interpreter reka sample_tavily (fun _ => [])
              (py "AI hardware market") true empty_state exc
              (sample_hit 1) (map sample_hit [2; 3; 4; 5; 6; 7]%Z) eq_refl
              (fun _ _ => eq_refl)) as (Hq & Hreka).
  fold st' in Hq, Hreka. rewrite Hq, Hreka. vm_compute. done.
Defined.

(** ** The requests of a run *)

Lemma log_state (emit : Emitter) (msg : pystr) (st : state) :
  known_emitter emit ->
  exists st', log emit msg st = (Ret tt, st') /\ calls st' = calls st
              /\ printed st' = printed st ++ [msg]
              /\ queue st' = queue st
                             ++ match emit with
                                | Some _ => [Some (_sse (py "log") msg)]
                                | None => []
                                end.
Proof.
  intros [->| ->]; eexists; (split; [reflexivity|]); cbn; [by rewrite app_nil_r|done].
Qed.

Lemma log_idle (emit : Emitter) (msg : pystr) :
  known_emitter emit ->
  forall st, exists a st', log emit msg st = (Ret a, st') /\ calls st' = calls st.
Proof.
  intros Hemit st. destruct (log_state emit msg st Hemit) as (st' & -> & ? & _). eauto.
Qed.

Section Requests.
Variable interp : interpreter.
Variable reka : nat -> pystr -> outcome pystr.
Variable tavily : pystr -> outcome (list hit).
Variable py_repr : json -> pystr.

Lemma spends_ret {A} (a : A) : spends 0 [] (mret a : M A).
Proof. intros st. exists []. by rewrite !app_nil_r. Qed.

Lemma spends_weaken {A} (n n' : nat) (ts : list pystr) (m : M A) :
  spends n ts m -> n <= n' -> spends n' ts m.
Proof. intros Hm Hn st. destruct (Hm st) as (new & ? & ? & ?). exists new. auto with lia. Qed.

Lemma spends_bind {A B} (n k : nat) (ts : list pystr) (m : M A) (f : A -> M B) :
  spends n ts m -> (forall a, spends k [] (f a)) -> spends (n + k) ts (m ≫= f).
Proof.
  intros Hm Hf st. rewrite bind_run. destruct (Hm st) as (new & Hr & Hlen & Ht).
  destruct (m st) as [[a|e] st1]; cbn [snd] in *.
  - destruct (Hf a st1) as (new' & Hr' & Hlen' & Ht'). exists (new ++ new').
    rewrite Hr', Hr, Ht', Ht, length_app, !app_nil_r, app_assoc. auto with lia.
  - exists new. auto with lia.
Qed.

Lemma spends_lift {A} (o : outcome A) : spends 0 [] (lift o).
Proof. intros st. exists []. by rewrite !app_nil_r. Qed.

Lemma spends_emit (msg : pystr) : spends 0 [] (emit msg).
Proof. intros st. exists []. by rewrite !app_nil_r. Qed.

Lemma spends_log (emit : Emitter) (msg : pystr) :
  known_emitter emit -> spends 0 [] (log emit msg).
Proof.
  intros Hemit st. destruct (log_state emit msg st Hemit) as (st' & -> & [= Hr Ht] & _).
  cbn [snd]. exists []. by rewrite Hr, Ht, !app_nil_r.
Qed.

Lemma spends_chat (system user : pystr) : spends 1 [] (_chat reka system user).
Proof.
  intros st. exists [chat_message system user]. unfold _chat.
  fold (chat_message system user).
  destruct (reka _ _); cbn; by rewrite app_nil_r.
Qed.

(** When [m] has returned, [f] has the whole budget that is left. *)
Lemma spends_after {A B} (n : nat) (ts : list pystr) (m : M A) (f : A -> M B) :
  (forall st, exists a st', m st = (Ret a, st') /\ calls st' = calls st) ->
  (forall a, spends n ts (f a)) -> spends n ts (m ≫= f).
Proof.
  intros Hm Hf st. rewrite bind_run. destruct (Hm st) as (a & st1 & -> & [= Hr Ht]).
  destruct (Hf a st1) as (new & ? & ? & ?). exists new. by rewrite <- Hr, <- Ht.
Qed.

Lemma spends_summarise (emit : Emitter) (items : list hit) :
  known_emitter emit ->
  forall acc, spends (length items) [] (summarise reka emit items acc).
Proof.
  intros Hemit. induction items as [|item rest IH]; intros acc; cbn [summarise length].
  - apply spends_ret.
  - change (S (length rest)) with (1 + (0 + length rest)).
    apply spends_bind; [apply spends_chat|]. intros summary.
    apply spends_bind; [by apply spends_log|]. intros _. apply IH.
Qed.

Lemma spends_data_agent (topic : pystr) (emit : Emitter) :
  known_emitter emit ->
  spends MAX_ARTICLES [topic] (data_agent reka tavily topic emit).
Proof.
  intros Hemit. unfold data_agent.
  apply spends_after; [by apply log_idle|].
  intros _. change MAX_ARTICLES with (0 + MAX_ARTICLES).
  apply spends_bind.
  { intros st. exists []. cbn. by rewrite app_nil_r. }
  intros [|h hits].
  - eapply spends_weaken; [|apply Nat.le_0_l].
    change 0 with (0 + 0). apply spends_bind; [by apply spends_log|].
    intros _. apply spends_ret.
  - eapply spends_weaken; [by apply spends_summarise|].
    rewrite length_take. lia.
Qed.

Lemma spends_log_numbered (emit : Emitter) (label : pystr) (xs : list json) :
  known_emitter emit ->
  forall i, spends 0 [] (log_numbered py_repr emit label i xs).
Proof.
  intros Hemit. induction xs as [|x xs IH]; intros i; cbn [log_numbered].
  - apply spends_ret.
  - change 0 with (0 + 0). apply spends_bind; [by apply spends_log|].
    intros _. apply IH.
Qed.

Lemma spends_log_entries (emit : Emitter) (label key : pystr) (result : json) :
  known_emitter emit -> spends 0 [] (log_entries py_repr emit label key result).
Proof.
  intros Hemit. unfold log_entries.
  change 0 with (0 + (0 + 0)).
  apply spends_bind; [apply spends_lift|]. intros entries.
  apply spends_bind; [apply spends_lift|]. intros xs.
  by apply spends_log_numbered.
Qed.

Lemma spends_bullets (data : json) (key : pystr) :
  spends 0 [] (bullets py_repr data key).
Proof.
  unfold bullets. change 0 with (0 + (0 + 0)).
  apply spends_bind; [apply spends_lift|]. intros entries.
  apply spends_bind; [apply spends_lift|]. intros xs. apply spends_ret.
Qed.

Lemma spends_joined (sep : pystr) (data : json) (key : pystr) :
  spends 0 [] (joined sep data key).
Proof.
  unfold joined. change 0 with (0 + 0).
  apply spends_bind; [apply spends_lift|]. intros entries. apply spends_lift.
Qed.

Lemma spends_trend_agent (articles : list article) (emit : Emitter) :
  known_emitter emit -> spends 1 [] (trend_agent interp reka py_repr articles emit).
Proof.
  intros Hemit. unfold trend_agent. change 1 with (0 + (1 + (0 + (0 + 0)))).
  apply spends_bind; [by apply spends_log|]. intros _.
  apply spends_bind; [apply spends_chat|]. intros raw.
  apply spends_bind; [apply spends_lift|]. intros result.
  apply spends_bind; [by apply spends_log_entries|]. intros _. apply spends_ret.
Qed.

Lemma spends_strategy_agent (trend_data : json) (emit : Emitter) :
  known_emitter emit -> spends 1 [] (strategy_agent interp reka py_repr trend_data emit).
Proof.
  intros Hemit. unfold strategy_agent. change 1 with (0 + (0 + (0 + (1 + (0 + (0 + 0)))))).
  apply spends_bind; [by apply spends_log|]. intros _.
  apply spends_bind; [apply spends_bullets|]. intros trend_text.
  apply spends_bind; [apply spends_bullets|]. intros sentiment_text.
  apply spends_bind; [apply spends_chat|]. intros raw.
  apply spends_bind; [apply spends_lift|]. intros result.
  apply spends_bind; [by apply spends_log_entries|]. intros _. apply spends_ret.
Qed.

Lemma spends_risk_agent (trend_data strategy_data : json) (emit : Emitter) :
  known_emitter emit ->
  spends 1 [] (risk_agent interp reka py_repr trend_data strategy_data emit).
Proof.
  intros Hemit. unfold risk_agent. change 1 with (0 + (0 + (0 + (1 + (0 + (0 + 0)))))).
  apply spends_bind; [by apply spends_log|]. intros _.
  apply spends_bind; [apply spends_bullets|]. intros trend_text.
  apply spends_bind; [apply spends_bullets|]. intros strategy_text.
  apply spends_bind; [apply spends_chat|]. intros raw.
  apply spends_bind; [apply spends_lift|]. intros result.
  apply spends_bind; [by apply spends_log_entries|]. intros _. apply spends_ret.
Qed.

Lemma spends_voice_agent (report_text : pystr) (emit : Emitter) :
  known_emitter emit -> spends 1 [] (voice_agent reka report_text emit).
Proof.
  intros Hemit. unfold voice_agent. change 1 with (0 + 1).
  apply spends_bind; [by apply spends_log|]. intros _. apply spends_chat.
Qed.

Lemma spends_voice_step (topic : pystr) (include_voice : bool)
    (trends strategy risks : json) :
  spends (if include_voice then 1 else 0) []
         (voice_step reka topic include_voice trends strategy risks).
Proof.
  unfold voice_step. destruct include_voice; [|apply spends_ret].
  change 1 with (0 + (0 + (0 + (0 + (1 + 0))))).
  apply spends_bind; [apply spends_emit|]. intros _.
  apply spends_bind; [apply spends_joined|]. intros t.
  apply spends_bind; [apply spends_joined|]. intros o.
  apply spends_bind; [apply spends_joined|]. intros r.
  apply spends_bind; [apply spends_voice_agent; by right|]. intros script.
  apply spends_ret.
Qed.

Lemma emit_state (msg : pystr) (st : state) :
  exists a st', emit msg st = (Ret a, st') /\ calls st' = calls st.
Proof. by eexists tt, _. Qed.

Lemma spends_pipeline_body (topic : pystr) (include_voice : bool) :
  spends (MAX_ARTICLES + 3 + (if include_voice then 1 else 0)) [topic]
         (pipeline_body interp reka tavily py_repr topic include_voice).
Proof.
  unfold pipeline_body.
  apply spends_after; [apply emit_state|]. intros _.
  apply spends_after; [apply emit_state|]. intros _.
  replace (MAX_ARTICLES + 3 + (if include_voice then 1 else 0))
    with (MAX_ARTICLES
          + (0 + (1 + (0 + (1 + (0 + (1 + ((if include_voice then 1 else 0)
                                          + (0 + 0)))))))))
    by lia.
  apply spends_bind; [apply spends_data_agent; by right|].
  intros [|art arts].
  { eapply spends_weaken; [|apply Nat.le_0_l].
    intros st. exists []. cbn. by rewrite !app_nil_r. }
  apply spends_bind; [apply spends_emit|]. intros _.
  apply spends_bind; [apply spends_trend_agent; by right|]. intros trends.
  apply spends_bind; [apply spends_emit|]. intros _.
  apply spends_bind; [apply spends_strategy_agent; by right|]. intros strategy.
  apply spends_bind; [apply spends_emit|]. intros _.
  apply spends_bind; [apply spends_risk_agent; by right|]. intros risks.
  apply spends_bind; [apply spends_voice_step|]. intros voice_script.
  apply spends_bind; [apply spends_emit|]. intros _.
  intros st. exists []. cbn. by rewrite !app_nil_r.
Qed.

(** X9.  Whatever the services answer and however the run ends, it sends
    at most one request to the search service, and that for its topic,
    and at most [MAX_ARTICLES] + 3 requests to the reasoning service, one
    more when the Voice stage is included. *)
Theorem run_request_budget (topic : pystr) (include_voice : bool) (st : state) :
  let st' := _run_pipeline interp reka tavily py_repr topic include_voice st in
  (exists searches,
     tavily_calls st' = tavily_calls st ++ searches
     /\ (searches = [] \/ searches = [topic]))
  /\ exists new,
       reka_calls st' = reka_calls st ++ new
       /\ length new <= MAX_ARTICLES + 3 + (if include_voice then 1 else 0).
Proof.
  intros st'. subst st'. unfold _run_pipeline.
  destruct (spends_pipeline_body topic include_voice st) as (new & Hr & Hlen & Ht).
  destruct (pipeline_body interp reka tavily py_repr topic include_voice st) as [[u|e] st1];
    cbn [snd] in *; (split; [exists [topic]; split; [exact Ht|by right]|]);
    exists new; by split.
Qed.

End Requests.

(** ** The summaries of the Data stage *)

Lemma log_ret_inv (emit : Emitter) (msg : pystr) (st : state) (u : unit)
    (st' : state) :
  known_emitter emit -> log emit msg st = (Ret u, st') -> calls st' = calls st.
Proof.
  intros Hemit Hlog. destruct (log_state emit msg st Hemit) as (st1 & Hlog1 & ? & _).
  congruence.
Qed.

Section Summaries.
Variable reka : nat -> pystr -> outcome pystr.
Variable tavily : pystr -> outcome (list hit).

Lemma chat_ret_inv (system user summary : pystr) (st st' : state) :
  _chat reka system user st = (Ret summary, st') ->
  exists text,
    reka (length (reka_calls st)) (chat_message system user) = Ret text
    /\ summary = strip text
    /\ reka_calls st' = reka_calls st ++ [chat_message system user]
    /\ tavily_calls st' = tavily_calls st.
Proof.
  unfold _chat. fold (chat_message system user).
  destruct (reka _ _) as [text|e]; [|discriminate].
  intros [= <- <-]. by exists text.
Qed.

Lemma summarise_requests (emit : Emitter) (items : list hit) :
  known_emitter emit ->
  forall acc st arts st',
    summarise reka emit items acc st = (Ret arts, st') ->
    reka_calls st' = reka_calls st ++ map summary_request items
    /\ exists new,
         arts = acc ++ new
         /\ forall i h,
              items !! i = Some h ->
              exists a text,
                new !! i = Some a
                /\ reka (length (reka_calls st) + i) (summary_request h) = Ret text
                /\ summary a = strip text
                /\ headline a = hit_headline h /\ source a = hit_source h.
Proof.
  intros Hemit. induction items as [|item rest IH]; intros acc st arts st'.
  - intros [= <- <-]. split; [by rewrite app_nil_r|]. exists [].
    split; [by rewrite app_nil_r|]. intros i h Hi. done.
  - cbn [summarise]. intros (summary & st1 & Hchat & Hk)%bind_ret_inv.
    apply bind_ret_inv in Hk as ([] & st2 & Hlog & Hrest).
    apply chat_ret_inv in Hchat as (text & Hreka & -> & Hcalls & _).
    apply (log_ret_inv _ _ _ _ _ Hemit) in Hlog as [= Hr2 _].
    apply IH in Hrest as (Hcalls' & new & -> & Hnew).
    rewrite Hr2, Hcalls in Hcalls', Hnew. split.
    { rewrite Hcalls', <- app_assoc. reflexivity. }
    eexists (_ :: new). split; [by rewrite <- app_assoc|].
    intros [|i] h Hi.
    + injection Hi as <-. eexists _, text. split; [reflexivity|].
      rewrite Nat.add_0_r. by repeat split.
    + destruct (Hnew i h Hi) as (a & text' & Ha & Hreka' & Hrest).
      exists a, text'. split; [exact Ha|]. split; [|exact Hrest].
      rewrite length_app in Hreka'. cbn [length] in Hreka'.
      by replace (length (reka_calls st) + S i)
        with (length (reka_calls st) + 1 + i) by lia.
Qed.

(** X10.  The Data stage sends one summarising request per hit it keeps,
    in the order of the hits, each with the title and at most the first
    1500 characters of the content of its hit; and the summary of the
    i-th article is the stripped response to the i-th of these requests:
    summaries are never attached to another article. *)
Theorem summaries_answer_their_requests (topic : pystr) (emit : Emitter)
    (hits : list hit) (st st' : state) (arts : list article) :
  known_emitter emit -> tavily topic = Ret hits ->
  data_agent reka tavily topic emit st = (Ret arts, st') ->
  reka_calls st' = reka_calls st ++ map summary_request (take MAX_ARTICLES hits)
  /\ forall i h,
       take MAX_ARTICLES hits !! i = Some h ->
       exists a text,
         arts !! i = Some a
         /\ reka (length (reka_calls st) + i) (summary_request h) = Ret text
         /\ summary a = strip text
         /\ headline a = hit_headline h /\ source a = hit_source h.
Proof.
  intros Hemit Hsearch. unfold data_agent.
  intros ([] & st1 & Hlog & Hk)%bind_ret_inv.
  apply (log_ret_inv _ _ _ _ _ Hemit) in Hlog as [= Hr1 Ht1].
  apply bind_ret_inv in Hk as (raw_results & st2 & Hs & Hk).
  unfold search in Hs. rewrite Hsearch in Hs. injection Hs as <- <-.
  split.
  - destruct hits as [|h hits'].
    + apply bind_ret_inv in Hk as ([] & st3 & Hlog & [= <- <-]).
      apply (log_ret_inv _ _ _ _ _ Hemit) in Hlog as [= Hr3 _].
      rewrite Hr3. cbn. by rewrite Hr1, app_nil_r.
    + apply (summarise_requests emit _ Hemit) in Hk as (Hcalls & _).
      rewrite Hcalls. cbn [reka_calls]. by rewrite Hr1.
  - destruct hits as [|h hits']; [intros i h' Hi; done|].
    apply (summarise_requests emit _ Hemit) in Hk as (_ & new & -> & Hnew).
    cbn [reka_calls] in Hnew. rewrite Hr1 in Hnew. exact Hnew.
Qed.

End Summaries.

Lemma summaries_answer_their_requests_witness :
  let reka := fun (n : nat) (_ : pystr) => Ret (py "  Summary " ++ str_of_Z (Z.of_nat n) ++ py " ") in
  exists arts st',
    (known_emitter None
     /\ sample_tavily (py "AI hardware market") = Ret sample_hits
     /\ data_agent reka sample_tavily (py "AI hardware market") None empty_state
        = (Ret arts, st'))
    /\ length (reka_calls st') = 5
    /\ map summary arts
       = [py "Summary 0"; py "Summary 1"; py "Summary 2"; py "Summary 3"; py "Summary 4"].
Proof.
  intros reka.
  destruct (data_agent reka sample_tavily (py "AI hardware market") None empty_state)
    as [[arts|e] st'] eqn:Hrun; [|vm_compute in Hrun; discriminate].
  exists arts, st'.
  assert (Hemit : known_emitter None) by (by left).
  split; [by repeat split|].
  destruct (summaries_answer_their_requests reka sample_tavily
              (py "AI hardware market") None sample_hits empty_state st' arts
              Hemit eq_refl Hrun) as (Hcalls & _).
  split; [by rewrite Hcalls|].
  vm_compute in Hrun. injection Hrun as <- _. vm_compute. reflexivity.
Defined.

(** ** The command-line pipeline *)

Lemma preserves_ret {X A} (f : state -> X) (a : A) : preserves f (mret a : M A).
Proof. intros st. reflexivity. Qed.

Lemma preserves_bind {X A B} (f : state -> X) (m : M A) (k : A -> M B) :
  preserves f m -> (forall a, preserves f (k a)) -> preserves f (m ≫= k).
Proof.
  intros Hm Hk st. rewrite bind_run. specialize (Hm st).
  destruct (m st) as [[a|e] st1]; cbn [snd] in *; [|done].
  by rewrite Hk.
Qed.

Lemma preserves_lift {X A} (f : state -> X) (o : outcome A) : preserves f (lift o).
Proof. intros st. reflexivity. Qed.

Lemma print_silent (msg : pystr) : preserves queue (print msg).
Proof. intros st. reflexivity. Qed.

Lemma print_idle (msg : pystr) : preserves calls (print msg).
Proof. intros st. reflexivity. Qed.

Lemma emit_idle (msg : pystr) : preserves calls (emit msg).
Proof. intros st. reflexivity. Qed.

Lemma log_silent (msg : pystr) : preserves queue (log None msg).
Proof. intros st. reflexivity. Qed.

(** Unfolds the command-line pipeline and the Data stage down to the
    writes. *)
Ltac run_command_line :=
  cbv beta iota zeta delta
    [run_pipeline data_agent search log print modify mbind M_bind mret M_ret
     queue printed reka_calls tavily_calls].

Section CommandLineProperties.
Variable interp : interpreter.
Variable reka : nat -> pystr -> outcome pystr.
Variable tavily : pystr -> outcome (list hit).
Variable py_repr : json -> pystr.
Variable now : pystr.

Lemma chat_silent (system user : pystr) : preserves queue (_chat reka system user).
Proof. intros st. unfold _chat. by destruct (reka _ _). Qed.

Lemma search_silent (topic : pystr) : preserves queue (search tavily topic).
Proof. intros st. reflexivity. Qed.

Lemma summarise_silent (items : list hit) :
  forall acc, preserves queue (summarise reka None items acc).
Proof.
  induction items as [|item rest IH]; intros acc; cbn [summarise].
  - apply preserves_ret.
  - apply preserves_bind; [apply chat_silent|]. intros summary.
    apply preserves_bind; [apply log_silent|]. intros _. apply IH.
Qed.

Lemma data_agent_silent (topic : pystr) :
  preserves queue (data_agent reka tavily topic None).
Proof.
  unfold data_agent.
  apply preserves_bind; [apply log_silent|]. intros _.
  apply preserves_bind; [apply search_silent|]. intros [|h hits].
  - apply preserves_bind; [apply log_silent|]. intros _. apply preserves_ret.
  - apply summarise_silent.
Qed.

Lemma log_numbered_silent (label : pystr) (xs : list json) :
  forall i, preserves queue (log_numbered py_repr None label i xs).
Proof.
  induction xs as [|x xs IH]; intros i; cbn [log_numbered].
  - apply preserves_ret.
  - apply preserves_bind; [apply log_silent|]. intros _. apply IH.
Qed.

Lemma log_entries_silent (label key : pystr) (result : json) :
  preserves queue (log_entries py_repr None label key result).
Proof.
  unfold log_entries.
  apply preserves_bind; [apply preserves_lift|]. intros entries.
  apply preserves_bind; [apply preserves_lift|]. intros xs.
  apply log_numbered_silent.
Qed.

(** Code that only reads decoded values leaves the whole state alone. *)
Lemma bullets_pure {X} (f : state -> X) (data : json) (key : pystr) :
  preserves f (bullets py_repr data key).
Proof.
  unfold bullets.
  apply preserves_bind; [apply preserves_lift|]. intros entries.
  apply preserves_bind; [apply preserves_lift|]. intros xs. apply preserves_ret.
Qed.

Lemma joined_pure {X} (f : state -> X) (sep : pystr) (data : json) (key : pystr) :
  preserves f (joined sep data key).
Proof.
  unfold joined. apply preserves_bind; [apply preserves_lift|]. intros entries.
  apply preserves_lift.
Qed.

Lemma marked_pure {X} (f : state -> X) (mark : pystr) (data : json) (key : pystr) :
  preserves f (marked py_repr mark data key).
Proof.
  unfold marked.
  apply preserves_bind; [apply preserves_lift|]. intros entries.
  apply preserves_bind; [apply preserves_lift|]. intros xs. apply preserves_ret.
Qed.

Lemma render_report_pure {X} (f : state -> X) (topic : pystr)
    (articles : list article) (trends strategy risks : json)
    (voice_script : option pystr) :
  preserves f (render_report py_repr now topic articles trends strategy risks
                 voice_script).
Proof.
  unfold render_report.
  do 7 (apply preserves_bind; [apply marked_pure|]; intros ?).
  apply preserves_ret.
Qed.

Lemma trend_agent_silent (articles : list article) :
  preserves queue (trend_agent interp reka py_repr articles None).
Proof.
  unfold trend_agent.
  apply preserves_bind; [apply log_silent|]. intros _.
  apply preserves_bind; [apply chat_silent|]. intros raw.
  apply preserves_bind; [apply preserves_lift|]. intros result.
  apply preserves_bind; [apply log_entries_silent|]. intros _. apply preserves_ret.
Qed.

Lemma strategy_agent_silent (trend_data : json) :
  preserves queue (strategy_agent interp reka py_repr trend_data None).
Proof.
  unfold strategy_agent.
  apply preserves_bind; [apply log_silent|]. intros _.
  apply preserves_bind; [apply bullets_pure|]. intros trend_text.
  apply preserves_bind; [apply bullets_pure|]. intros sentiment_text.
  apply preserves_bind; [apply chat_silent|]. intros raw.
  apply preserves_bind; [apply preserves_lift|]. intros result.
  apply preserves_bind; [apply log_entries_silent|]. intros _. apply preserves_ret.
Qed.

Lemma risk_agent_silent (trend_data strategy_data : json) :
  preserves queue (risk_agent interp reka py_repr trend_data strategy_data None).
Proof.
  unfold risk_agent.
  apply preserves_bind; [apply log_silent|]. intros _.
  apply preserves_bind; [apply bullets_pure|]. intros trend_text.
  apply preserves_bind; [apply bullets_pure|]. intros strategy_text.
  apply preserves_bind; [apply chat_silent|]. intros raw.
  apply preserves_bind; [apply preserves_lift|]. intros result.
  apply preserves_bind; [apply log_entries_silent|]. intros _. apply preserves_ret.
Qed.

Lemma voice_agent_silent (report_text : pystr) :
  preserves queue (voice_agent reka report_text None).
Proof.
  unfold voice_agent.
  apply preserves_bind; [apply log_silent|]. intros _. apply chat_silent.
Qed.

Lemma cli_voice_step_silent (topic : pystr) (include_voice : bool)
    (trends strategy risks : json) :
  preserves queue (cli_voice_step reka topic include_voice trends strategy risks).
Proof.
  unfold cli_voice_step. destruct include_voice; [|apply preserves_ret].
  apply preserves_bind; [apply joined_pure|]. intros t.
  apply preserves_bind; [apply joined_pure|]. intros o.
  apply preserves_bind; [apply joined_pure|]. intros r.
  apply preserves_bind; [apply voice_agent_silent|]. intros script.
  apply preserves_ret.
Qed.

(** X11.  The command-line pipeline never writes to a queue: whatever the
    services answer, and whether it returns the report or raises, the
    queue of the state it ends in is the one it started with.  Its
    progress goes to the standard output only. *)
Theorem command_line_is_silent (topic : pystr) (include_voice : bool) (st : state) :
  queue (run_pipeline interp reka tavily py_repr now topic include_voice st).2 = queue st.
Proof.
  revert st. change (preserves queue (run_pipeline interp reka tavily py_repr now topic
                                        include_voice)).
  unfold run_pipeline.
  do 4 (apply preserves_bind; [apply print_silent|]; intros _).
  apply preserves_bind; [apply data_agent_silent|]. intros [|art arts].
  { apply preserves_ret. }
  apply preserves_bind; [apply trend_agent_silent|]. intros trends.
  apply preserves_bind; [apply strategy_agent_silent|]. intros strategy.
  apply preserves_bind; [apply risk_agent_silent|]. intros risks.
  apply preserves_bind; [apply cli_voice_step_silent|]. intros voice_script.
  apply preserves_bind; [apply render_report_pure|]. intros report.
  apply preserves_bind; [apply print_silent|]. intros _. apply preserves_ret.
Qed.

(** X12.  When the search gives no hit, the command-line pipeline returns
    the fixed text of the abort and nothing else: it has printed its
    banner and the two lines of the Data stage, asked nothing of the
    reasoning service and rendered no report. *)
Theorem command_line_abort (topic : pystr) (include_voice : bool) (st : state) :
  tavily topic = Ret [] ->
  exists st',
    run_pipeline interp reka tavily py_repr now topic include_voice st
    = (Ret (py "Pipeline aborted: no news articles retrieved."), st')
    /\ printed st'
       = printed st
         ++ [NL ++ replicate 60 DOUBLE_HORIZONTAL;
             py "  " ++ ROCKET ++ py " Market Intelligence Pipeline Starting";
             py "  Topic: " ++ topic;
             replicate 60 DOUBLE_HORIZONTAL;
             py "[Data Agent] " ++ MAGNIFIER ++ py " Searching news for: '"
               ++ topic ++ py "' ...";
             py "[Data Agent] " ++ WARNING ++ py "  No results returned from Tavily."]
    /\ reka_calls st' = reka_calls st
    /\ tavily_calls st' = tavily_calls st ++ [topic].
Proof.
  intros Hsearch. run_command_line. rewrite Hsearch. run_command_line.
  destruct st as [q p r t]. eexists. split; [reflexivity|].
  cbn [printed reka_calls tavily_calls].
  split; [|split; reflexivity]. rewrite <- !app_assoc. reflexivity.
Qed.

End CommandLineProperties.

Lemma command_line_abort_witness :
  let tavily := fun (_ : pystr) => @Ret (list hit) [] in
  tavily (py "AI hardware market") = Ret []
  /\ exists st',
       run_pipeline sample_interpreter sample_reka tavily (fun _ => []) (py "2026-11-04 09:00")
         (py "AI hardware market") true empty_state
       = (Ret (py "Pipeline aborted: no news articles retrieved."), st')
       /\ length (printed st') = 6
       /\ reka_calls st' = [].
Proof.
  intros tavily. split; [reflexivity|].
  destruct (command_line_abort sample_interpreter sample_reka tavily (fun _ => []) (py "2026-11-04 09:00")
              (py "AI hardware market") true empty_state eq_refl)
    as (st' & Hrun & Hprinted & Hreka & _).
  exists st'. split; [exact Hrun|]. split; [by rewrite Hprinted|exact Hreka].
Defined.

(** ** The command line beside the executor *)

Lemma alike_ret {A} (a : A) : alike (mret a : M A) (mret a).
Proof. intros st st' Hc. by split. Qed.

Lemma alike_bind {A B} (m m' : M A) (k k' : A -> M B) :
  alike m m' -> (forall a, alike (k a) (k' a)) -> alike (m ≫= k) (m' ≫= k').
Proof.
  intros Hm Hk st st' Hc. rewrite !bind_run. destruct (Hm st st' Hc) as [Ho Hc1].
  destruct (m st) as [[a|e] st1], (m' st') as [[a'|e'] st1']; cbn [fst snd] in *;
    try discriminate.
  - injection Ho as <-. by apply Hk.
  - injection Ho as <-. by split.
Qed.

Lemma alike_lift {A} (o : outcome A) : alike (lift o) (lift o).
Proof. intros st st' Hc. by split. Qed.

Lemma alike_log (emit emit' : Emitter) (msg : pystr) :
  known_emitter emit -> known_emitter emit' -> alike (log emit msg) (log emit' msg).
Proof.
  intros Hemit Hemit' st st' Hc.
  destruct (log_state emit msg st Hemit) as (st1 & -> & Hc1 & _).
  destruct (log_state emit' msg st' Hemit') as (st1' & -> & Hc1' & _).
  cbn [fst snd]. split; congruence.
Qed.

Section Beside.
Variable interp : interpreter.
Variable reka : nat -> pystr -> outcome pystr.
Variable tavily : pystr -> outcome (list hit).
Variable py_repr : json -> pystr.
Variable now : pystr.

Lemma alike_chat (system user : pystr) :
  alike (_chat reka system user) (_chat reka system user).
Proof.
  intros st st' [= Hr Ht]. unfold _chat, calls. rewrite Hr, Ht.
  destruct (reka _ _); cbn [fst snd reka_calls tavily_calls]; done.
Qed.

Lemma alike_search (topic : pystr) : alike (search tavily topic) (search tavily topic).
Proof.
  intros st st' [= Hr Ht]. unfold search, calls.
  cbn [fst snd reka_calls tavily_calls]. by rewrite Hr, Ht.
Qed.

Lemma alike_summarise (emit emit' : Emitter) (items : list hit) :
  known_emitter emit -> known_emitter emit' ->
  forall acc, alike (summarise reka emit items acc) (summarise reka emit' items acc).
Proof.
  intros Hemit Hemit'. induction items as [|item rest IH]; intros acc; cbn [summarise].
  - apply alike_ret.
  - apply alike_bind; [apply alike_chat|]. intros summary.
    apply alike_bind; [by apply alike_log|]. intros _. apply IH.
Qed.

Lemma alike_data_agent (emit emit' : Emitter) (topic : pystr) :
  known_emitter emit -> known_emitter emit' ->
  alike (data_agent reka tavily topic emit) (data_agent reka tavily topic emit').
Proof.
  intros Hemit Hemit'. unfold data_agent.
  apply alike_bind; [by apply alike_log|]. intros _.
  apply alike_bind; [apply alike_search|]. intros [|h hits].
  - apply alike_bind; [by apply alike_log|]. intros _. apply alike_ret.
  - by apply alike_summarise.
Qed.

Lemma alike_log_numbered (emit emit' : Emitter) (label : pystr) (xs : list json) :
  known_emitter emit -> known_emitter emit' ->
  forall i, alike (log_numbered py_repr emit label i xs)
                  (log_numbered py_repr emit' label i xs).
Proof.
  intros Hemit Hemit'. induction xs as [|x xs IH]; intros i; cbn [log_numbered].
  - apply alike_ret.
  - apply alike_bind; [by apply alike_log|]. intros _. apply IH.
Qed.

Lemma alike_log_entries (emit emit' : Emitter) (label key : pystr) (result : json) :
  known_emitter emit -> known_emitter emit' ->
  alike (log_entries py_repr emit label key result)
        (log_entries py_repr emit' label key result).
Proof.
  intros Hemit Hemit'. unfold log_entries.
  apply alike_bind; [apply alike_lift|]. intros entries.
  apply alike_bind; [apply alike_lift|]. intros xs.
  by apply alike_log_numbered.
Qed.

Lemma alike_bullets (data : json) (key : pystr) :
  alike (bullets py_repr data key) (bullets py_repr data key).
Proof.
  unfold bullets.
  apply alike_bind; [apply alike_lift|]. intros entries.
  apply alike_bind; [apply alike_lift|]. intros xs. apply alike_ret.
Qed.

Lemma alike_joined (sep : pystr) (data : json) (key : pystr) :
  alike (joined sep data key) (joined sep data key).
Proof.
  unfold joined. apply alike_bind; [apply alike_lift|]. intros entries.
  apply alike_lift.
Qed.

Lemma alike_trend_agent (emit emit' : Emitter) (articles : list article) :
  known_emitter emit -> known_emitter emit' ->
  alike (trend_agent interp reka py_repr articles emit)
        (trend_agent interp reka py_repr articles emit').
Proof.
  intros Hemit Hemit'. unfold trend_agent.
  apply alike_bind; [by apply alike_log|]. intros _.
  apply alike_bind; [apply alike_chat|]. intros raw.
  apply alike_bind; [apply alike_lift|]. intros result.
  apply alike_bind; [by apply alike_log_entries|]. intros _. apply alike_ret.
Qed.

Lemma alike_strategy_agent (emit emit' : Emitter) (trend_data : json) :
  known_emitter emit -> known_emitter emit' ->
  alike (strategy_agent interp reka py_repr trend_data emit)
        (strategy_agent interp reka py_repr trend_data emit').
Proof.
  intros Hemit Hemit'. unfold strategy_agent.
  apply alike_bind; [by apply alike_log|]. intros _.
  apply alike_bind; [apply alike_bullets|]. intros trend_text.
  apply alike_bind; [apply alike_bullets|]. intros sentiment_text.
  apply alike_bind; [apply alike_chat|]. intros raw.
  apply alike_bind; [apply alike_lift|]. intros result.
  apply alike_bind; [by apply alike_log_entries|]. intros _. apply alike_ret.
Qed.

Lemma alike_risk_agent (emit emit' : Emitter) (trend_data strategy_data : json) :
  known_emitter emit -> known_emitter emit' ->
  alike (risk_agent interp reka py_repr trend_data strategy_data emit)
        (risk_agent interp reka py_repr trend_data strategy_data emit').
Proof.
  intros Hemit Hemit'. unfold risk_agent.
  apply alike_bind; [by apply alike_log|]. intros _.
  apply alike_bind; [apply alike_bullets|]. intros trend_text.
  apply alike_bind; [apply alike_bullets|]. intros strategy_text.
  apply alike_bind; [apply alike_chat|]. intros raw.
  apply alike_bind; [apply alike_lift|]. intros result.
  apply alike_bind; [by apply alike_log_entries|]. intros _. apply alike_ret.
Qed.

Lemma alike_voice_agent (emit emit' : Emitter) (report_text : pystr) :
  known_emitter emit -> known_emitter emit' ->
  alike (voice_agent reka report_text emit) (voice_agent reka report_text emit').
Proof.
  intros Hemit Hemit'. unfold voice_agent.
  apply alike_bind; [by apply alike_log|]. intros _. apply alike_chat.
Qed.

Lemma alike_after_emit {A} (msg : pystr) (k m' : M A) :
  alike k m' -> alike (emit msg;; k) m'.
Proof. intros Hk st st' Hc. rewrite bind_run. exact (Hk (emit_q msg st) st' Hc). Qed.

Lemma alike_voice_step (topic : pystr) (include_voice : bool)
    (trends strategy risks : json) :
  alike (voice_step reka topic include_voice trends strategy risks)
        (cli_voice_step reka topic include_voice trends strategy risks).
Proof.
  unfold voice_step, cli_voice_step. destruct include_voice; [|apply alike_ret].
  apply alike_after_emit.
  apply alike_bind; [apply alike_joined|]. intros t.
  apply alike_bind; [apply alike_joined|]. intros o.
  apply alike_bind; [apply alike_joined|]. intros r.
  apply alike_bind; [apply alike_voice_agent; [by right|by left]|]. intros script.
  apply alike_ret.
Qed.

Local Abbreviation beside := (renders_what_is_sent py_repr now).

Lemma beside_emit (topic msg : pystr) (k : M unit) (st : state)
    (c : outcome pystr * state) :
  (forall st1, calls st1 = calls st -> beside topic (k st1) c) ->
  beside topic ((emit msg;; k) st) c.
Proof. intros Hk. rewrite bind_run. by apply (Hk (emit_q msg st)). Qed.

Lemma beside_print (topic msg : pystr) (k : M pystr) (st' : state)
    (w : outcome unit * state) :
  (forall st1, calls st1 = calls st' -> beside topic w (k st1)) ->
  beside topic w ((print msg;; k) st').
Proof. intros Hk. rewrite bind_run. by apply Hk. Qed.

Lemma beside_both {A} (topic : pystr) (m m' : M A) (kw : A -> M unit)
    (kc : A -> M pystr) (st st' : state) :
  alike m m' -> calls st = calls st' ->
  (forall a st1 st1', calls st1 = calls st1' -> beside topic (kw a st1) (kc a st1')) ->
  beside topic ((m ≫= kw) st) ((m' ≫= kc) st').
Proof.
  intros Hm Hc Hk. rewrite !bind_run. destruct (Hm st st' Hc) as [Ho Hc1].
  destruct (m st) as [[a|e] st1], (m' st') as [[a'|e'] st1']; cbn [fst snd] in *;
    try discriminate.
  - injection Ho as <-. by apply Hk.
  - by split.
Qed.

(** The two pipelines, step by step. *)
Lemma pipelines_beside (topic : pystr) (include_voice : bool) (st st' : state) :
  calls st = calls st' ->
  beside topic (pipeline_body interp reka tavily py_repr topic include_voice st)
               (run_pipeline interp reka tavily py_repr now topic include_voice st').
Proof.
  intros Hc. unfold pipeline_body, run_pipeline.
  apply beside_emit. intros st1 Hc1.
  apply beside_emit. intros st2 Hc2.
  apply beside_print. intros st1' Hc1'.
  apply beside_print. intros st2' Hc2'.
  apply beside_print. intros st3' Hc3'.
  apply beside_print. intros st4' Hc4'.
  apply beside_both; [apply alike_data_agent; [by right|by left]|congruence|].
  clear. intros [|art arts] st st' Hc.
  { split; [exact Hc|]. left. split; [reflexivity|]. by exists st. }
  apply beside_emit. intros st1 Hc1.
  apply beside_both; [apply alike_trend_agent; [by right|by left]|congruence|].
  clear. intros trends st st' Hc.
  apply beside_emit. intros st1 Hc1.
  apply beside_both; [apply alike_strategy_agent; [by right|by left]|congruence|].
  clear. intros strategy st st' Hc.
  apply beside_emit. intros st1 Hc1.
  apply beside_both; [apply alike_risk_agent; [by right|by left]|congruence|].
  clear. intros risks st st' Hc.
  apply beside_both; [apply alike_voice_step|congruence|].
  clear. intros voice_script st st' Hc.
  apply beside_emit. intros st1 Hc1.
  rewrite bind_run.
  pose proof (render_report_pure py_repr now (fun s => s) topic (art :: arts) trends
                strategy risks voice_script st') as Hpure.
  destruct (render_report py_repr now topic (art :: arts) trends strategy risks
              voice_script st') as [[report|e] st2'] eqn:Hrender;
    cbn [snd] in Hpure; subst st2'.
  - cbv [mbind M_bind print modify mret M_ret].
    split; [unfold calls in *; cbn; congruence|]. right.
    exists (art :: arts), trends, strategy, risks, voice_script, st1, st'.
    split; [reflexivity|exact Hrender].
  - split; [unfold calls in *; cbn; congruence|]. exact I.
Qed.

(** X13.  The command-line pipeline and the executor ask the same of the
    services: on the same interpreter, started after the same requests,
    with the same topic and the same choice for the Voice stage, they have
    sent the same requests to the reasoning service and to the search
    service when they end, however they end. *)
Theorem command_line_sends_same_requests (topic : pystr) (include_voice : bool)
    (st st' : state) :
  calls st = calls st' ->
  calls (_run_pipeline interp reka tavily py_repr topic include_voice st)
  = calls (run_pipeline interp reka tavily py_repr now topic include_voice st').2.
Proof.
  intros Hc. destruct (pipelines_beside topic include_voice st st' Hc) as [Hcalls _].
  unfold _run_pipeline.
  destruct (pipeline_body interp reka tavily py_repr topic include_voice st) as [[u|e] st1];
    exact Hcalls.
Qed.

(** X14.  A report that the command-line pipeline returns shows what the
    executor sends: for the same interpreter, topic, choice and responses,
    the executor ends with the [done] event whose payload is [json.dumps]
    of the articles, trends, strategy, risks and voice script that the
    report renders; or both have stopped at the empty search, one with the abort
    text and the other with the abort event. *)
Theorem command_line_renders_what_is_sent (topic : pystr) (include_voice : bool)
    (st st' st1' : state) (report : pystr) :
  calls st = calls st' ->
  run_pipeline interp reka tavily py_repr now topic include_voice st' = (Ret report, st1') ->
  exists final st0,
    _run_pipeline interp reka tavily py_repr topic include_voice st
    = put None (put (Some final) st0)
    /\ ((report = ABORTED
         /\ final = _sse (py "error")
                      (py "No news articles retrieved. Pipeline aborted."))
        \/ exists articles trends strategy risks voice_script st0',
             final = _sse (py "done")
                       (json_dumps (build_report topic articles trends strategy
                                      risks voice_script))
             /\ render_report py_repr now topic articles trends strategy risks
                  voice_script st0'
                = (Ret report, st0')).
Proof.
  intros Hc Hrun.
  destruct (pipelines_beside topic include_voice st st' Hc) as [_ Hreport].
  rewrite Hrun in Hreport. cbn [fst] in Hreport. unfold _run_pipeline.
  destruct Hreport as [[-> [st0 ->]]|(a & t & s & r & v & st0 & st0' & -> & Hrender)].
  - eexists _, st0. split; [reflexivity|]. by left.
  - eexists _, st0. split; [reflexivity|]. right. by exists a, t, s, r, v, st0'.
Qed.

End Beside.

(** ** The rendered report *)

Lemma center_length (width : nat) (s : pystr) :
  length (center width s) = Nat.max width (length s).
Proof.
  unfold center. rewrite !length_app, !length_replicate.
  pose proof (Nat.Div0.div_le_upper_bound (width - length s) 2 (width - length s)).
  assert (Nat.div (width - length s) 2 <= width - length s).
  { apply Nat.Div0.div_le_upper_bound. lia. }
  lia.
Qed.

(** X15.  A row of the title box is as wide as the box, 60 columns, as
    long as its text has at most 58 characters, and then the text is
    centred, the odd space on its right; a longer text is not cut, so the
    row sticks out of the box: the topic row does when the topic has more
    than 51 characters. *)
Theorem title_box_rows (s topic : pystr) :
  length (box_row s) = Nat.max 60 (length s + 2)
  /\ (length s <= 58 ->
      exists l r,
        box_row s = DOUBLE_VERTICAL ++ replicate l 32%N ++ s ++ replicate r 32%N
                    ++ DOUBLE_VERTICAL
        /\ l <= r <= l + 1 /\ l + length s + r = 58)
  /\ (length (box_row (py "Topic: " ++ topic)) = 60 <-> length topic <= 51).
Proof.
  assert (Hlen : forall t : pystr, length (box_row t) = Nat.max 60 (length t + 2)).
  { intros t. unfold box_row. rewrite !length_app, center_length.
    change (length DOUBLE_VERTICAL) with 1. lia. }
  split; [apply Hlen|]. split.
  - intros Hs. unfold box_row, center.
    exists (Nat.div (58 - length s) 2), (58 - length s - Nat.div (58 - length s) 2).
    split; [by rewrite <- !app_assoc|].
    pose proof (Nat.div_mod_eq (58 - length s) 2) as Hdiv.
    pose proof (Nat.mod_upper_bound (58 - length s) 2 ltac:(lia)). lia.
  - rewrite Hlen, length_app. change (length (py "Topic: ")) with 7. lia.
Qed.

Section Rendering.
Variable interp : interpreter.
Variable reka : nat -> pystr -> outcome pystr.
Variable tavily : pystr -> outcome (list hit).
Variable py_repr : json -> pystr.
Variable now : pystr.

Lemma returns_marked (mark : pystr) (data : json) (key : pystr) :
  usable data -> returns (marked py_repr mark data key) (fun _ => True).
Proof.
  intros Hres. destruct (usable_get data key Hres) as [ss Hget].
  unfold marked.
  eapply returns_bind;
    [exact (returns_lift _ _ (fun x => x = JArr (map JStr ss)) Hget eq_refl)|].
  intros ? ->.
  eapply returns_bind;
    [exact (returns_lift _ (map JStr ss) (fun _ => True) eq_refl I)|].
  intros xs _. by apply returns_ret.
Qed.

Lemma render_report_usable (topic : pystr) (articles : list article)
    (trends strategy risks : json) (voice_script : option pystr) :
  usable trends -> usable strategy -> usable risks ->
  returns (render_report py_repr now topic articles trends strategy risks
             voice_script) (fun _ => True).
Proof.
  intros Ht Hs Hr. unfold render_report.
  do 7 (eapply returns_bind; [by apply returns_marked|]; intros ? _).
  by apply returns_ret.
Qed.

Lemma render_report_same_state (topic : pystr) (articles : list article)
    (trends strategy risks : json) (voice_script : option pystr) (st : state) :
  usable trends -> usable strategy -> usable risks ->
  exists report,
    render_report py_repr now topic articles trends strategy risks voice_script st
    = (Ret report, st).
Proof.
  intros Ht Hs Hr.
  destruct (render_report_usable topic articles trends strategy risks voice_script
              Ht Hs Hr st) as (report & st1 & Hrun & _).
  pose proof (render_report_pure py_repr now (fun s => s) topic articles trends
                strategy risks voice_script st) as Hpure.
  rewrite Hrun in Hpure. cbn [snd] in Hpure. subst st1. by exists report.
Qed.

(** X16.  [render_report] does not fail on results the stages can work
    with: when the trends, the strategy and the risks are mappings of lists
    of strings (a key may be missing: its section is then empty), it
    returns the report, for any articles and with or without a voice
    script, and it leaves the state of the run as it found it; an empty
    voice script is rendered as no script at all. *)
Theorem render_report_returns (topic : pystr) (articles : list article)
    (trends strategy risks : json) (voice_script : option pystr) (st : state) :
  usable trends -> usable strategy -> usable risks ->
  exists report,
    render_report py_repr now topic articles trends strategy risks voice_script st
    = (Ret report, st)
    /\ (voice_script = Some [] ->
        render_report py_repr now topic articles trends strategy risks None st
        = (Ret report, st)).
Proof.
  intros Ht Hs Hr.
  destruct (render_report_same_state topic articles trends strategy risks
              voice_script st Ht Hs Hr) as [report Hrun].
  exists report. split; [exact Hrun|]. intros ->. exact Hrun.
Qed.

(** Every request to the reasoning service is answered, and by a
    tolerated response. *)
Hypothesis reka_tolerated :
  forall n message,
    exists text, reka n message = Ret text /\ tolerated interp (strip text).

Lemma returns_cli_voice_step (topic : pystr) (include_voice : bool)
    (trends strategy risks : json) :
  usable trends -> usable strategy -> usable risks ->
  returns (cli_voice_step reka topic include_voice trends strategy risks)
          (fun _ => True).
Proof.
  intros Ht Hs Hr. unfold cli_voice_step.
  destruct include_voice; [|by apply returns_ret].
  eapply returns_bind; [by apply returns_joined|]. intros t _.
  eapply returns_bind; [by apply returns_joined|]. intros o _.
  eapply returns_bind; [by apply returns_joined|]. intros r _.
  eapply returns_bind; [|intros; by apply returns_ret].
  unfold voice_agent.
  eapply returns_bind; [apply returns_log|]. intros _ _.
  eapply returns_weaken; [by apply (returns_chat interp)|]. done.
Qed.

(** X17.  The command-line pipeline recovers from responses that do not
    decode as the executor does: when the search gives a hit and decoding
    every response of the reasoning service either raises an exception the
    agents handle or gives a mapping of lists of strings, it raises
    nothing, returns a rendered report, and that report is the last thing
    it has printed.  The property is for a run of which standard output
    accepts every line, the report included ([printable]). *)
Theorem command_line_returns_report (topic : pystr) (include_voice : bool)
    (hits : list hit) (st : state) :
  tavily topic = Ret hits -> hits <> [] ->
  printable st (run_pipeline interp reka tavily py_repr now topic include_voice st).2 ->
  exists report st' articles trends strategy risks voice_script st0,
    run_pipeline interp reka tavily py_repr now topic include_voice st = (Ret report, st')
    /\ last (printed st') = Some report
    /\ render_report py_repr now topic articles trends strategy risks voice_script st0
       = (Ret report, st0)
    /\ articles <> [].
Proof.
  intros Hsearch Hne _. unfold run_pipeline.
  do 4 (rewrite bind_run; cbn [print modify]).
  rewrite bind_run.
  edestruct (returns_data_agent interp reka tavily reka_tolerated topic None hits Hsearch Hne)
    as (articles & st1 & -> & Harts).
  destruct articles as [|art arts]; [done|].
  rewrite bind_run.
  edestruct (returns_trend_agent interp reka py_repr reka_tolerated (art :: arts) None)
    as (trends & st2 & -> & Ht).
  rewrite bind_run.
  edestruct (returns_strategy_agent interp reka py_repr reka_tolerated trends None Ht)
    as (strategy & st3 & -> & Hs).
  rewrite bind_run.
  edestruct (returns_risk_agent interp reka py_repr reka_tolerated trends strategy None Ht Hs)
    as (risks & st4 & -> & Hr).
  rewrite bind_run.
  edestruct (returns_cli_voice_step topic include_voice trends strategy risks Ht Hs Hr)
    as (voice_script & st5 & -> & _).
  rewrite bind_run.
  destruct (render_report_same_state topic (art :: arts) trends strategy risks
              voice_script st5 Ht Hs Hr) as [report Hrender].
  rewrite Hrender. rewrite bind_run. cbn [print modify mret M_ret].
  eexists report, _, (art :: arts), trends, strategy, risks, voice_script, st5.
  split; [reflexivity|]. split; [cbn [printed]; apply last_snoc|].
  split; [exact Hrender|done].
Qed.

End Rendering.

(** ** Several readers of one run *)

Lemma insert_middle {A} (l : list A) (i : nat) (x y : A) :
  l !! i = Some x ->
  exists a b, l = a ++ x :: b /\ <[i := y]> l = a ++ y :: b.
Proof.
  intros Hi. exists (take i l), (drop (S i) l). split; [by rewrite take_drop_middle|].
  apply insert_take_drop. by eapply lookup_lt_Some.
Qed.

Lemma count_Permutation {A} (f : A -> bool) (l l' : list A) :
  l ≡ₚ l' -> count f l = count f l'.
Proof. induction 1; simpl; lia. Qed.

Lemma count_replicate_marker (n : nat) : count is_marker (replicate n None) = n.
Proof. induction n; simpl; lia. Qed.

Lemma closed_readers_insert (rs : list (list pystr * bool)) (i : nat)
    (out out' : list pystr) (fin : bool) l0 u0 w0 l1 u1 w1 :
  rs !! i = Some (out, false) ->
  closed_readers (Hub u1 w1 (<[i := (out', fin)]> rs) l1)
  = closed_readers (Hub u0 w0 rs l0) + (if fin then 1 else 0).
Proof.
  intros Hi. unfold closed_readers. cbn [readers].
  destruct (insert_middle rs i _ (out', fin) Hi) as (a & b & -> & ->).
  rewrite !filter_app, !filter_cons, !length_app.
  destruct fin; cbn [snd].
  - rewrite decide_True by done. rewrite decide_False by done. cbn. lia.
  - rewrite !decide_False by done. lia.
Qed.

Lemma yielded_insert (rs : list (list pystr * bool)) (i : nat)
    (out more : list pystr) (fin fin' : bool) l0 u0 w0 l1 u1 w1 :
  rs !! i = Some (out, fin) ->
  yielded (Hub u1 w1 (<[i := (out ++ more, fin')]> rs) l1)
  ≡ₚ yielded (Hub u0 w0 rs l0) ++ more.
Proof.
  intros Hi. unfold yielded. cbn [readers].
  destruct (insert_middle rs i _ (out ++ more, fin') Hi) as (a & b & -> & ->).
  rewrite !map_app, !concat_app. cbn [map concat fst].
  rewrite <- !app_assoc. do 2 apply Permutation_app_head. apply Permutation_app_comm.
Qed.

Lemma shared_out_step (ws : list (option pystr)) (h h' : hub) :
  hub_step h h' -> shared_out ws h -> shared_out ws h'.
Proof.
  intros Hstep (taken & Hws & Hperm & Hsub & Hlisted).
  destruct Hstep as [item rest buf rs l|pend buf rs|i out msg pend buf rs l Hi
                    |i out pend buf rs l Hi]; cbn [waiting unwritten readers listed] in *.
  - exists taken. cbn [waiting unwritten readers listed].
    split; [by rewrite <- app_assoc|]. done.
  - exists taken. cbn [waiting unwritten readers listed]. split; [done|].
    assert (Hc : closed_readers (Hub pend buf (rs ++ [([], false)]) true)
                 = closed_readers (Hub pend buf rs true)).
    { unfold closed_readers. cbn [readers]. rewrite filter_app, length_app.
      rewrite filter_cons, decide_False by done. cbn. lia. }
    assert (Hy : yielded (Hub pend buf (rs ++ [([], false)]) true)
                 = yielded (Hub pend buf rs true)).
    { unfold yielded. cbn [readers]. rewrite map_app, concat_app. cbn.
      by rewrite app_nil_r. }
    rewrite Hc, Hy. split; [done|]. split; [|done].
    apply Forall_app. split; [done|]. constructor; [|done]. apply sublist_nil_l.
  - exists (taken ++ [Some msg]). cbn [waiting unwritten readers listed].
    split; [by rewrite Hws, <- app_assoc|].
    rewrite (closed_readers_insert rs i out (out ++ [msg]) false l pend buf l pend buf Hi).
    split; [|split].
    + rewrite (yielded_insert rs i out [msg] false false l pend buf l pend buf Hi).
      rewrite Nat.add_0_r, map_app. cbn [map]. rewrite <- Hperm.
      rewrite <- !app_assoc. apply Permutation_app_head. apply Permutation_app_comm.
    + destruct (insert_middle rs i _ (out ++ [msg], false) Hi) as (a & b & -> & ->).
      apply Forall_app in Hsub as [Hl Hr].
      apply Forall_cons in Hr as [Hout Hr]. cbn [fst] in Hout.
      apply Forall_app. split; [|constructor].
      * eapply Forall_impl; [exact Hl|]. intros r Hr0. by apply sublist_inserts_r.
      * cbn [fst]. rewrite map_app. by apply sublist_app.
      * eapply Forall_impl; [exact Hr|]. intros r Hr0. by apply sublist_inserts_r.
    + rewrite Nat.add_0_r. exact Hlisted.
  - exists (taken ++ [None]). cbn [waiting unwritten readers listed].
    split; [by rewrite Hws, <- app_assoc|].
    rewrite (closed_readers_insert rs i out out true l pend buf false pend buf Hi).
    split; [|split].
    + assert (Hy : yielded (Hub pend buf (<[i := (out, true)]> rs) false)
                   ≡ₚ yielded (Hub pend buf rs l)).
      { pose proof (yielded_insert rs i out [] false true l pend buf false pend buf Hi) as Hy.
        rewrite !app_nil_r in Hy. exact Hy. }
      rewrite Hy. rewrite <- Hperm.
      replace (closed_readers (Hub pend buf rs l) + 1)
        with (S (closed_readers (Hub pend buf rs l))) by lia.
      rewrite replicate_S_end, !app_assoc. done.
    + destruct (insert_middle rs i _ (out, true) Hi) as (a & b & -> & ->).
      apply Forall_app in Hsub as [Hl Hr].
      apply Forall_cons in Hr as [Hout Hr]. cbn [fst] in Hout.
      apply Forall_app. split; [|constructor].
      * eapply Forall_impl; [exact Hl|]. intros r Hr0. by apply sublist_inserts_r.
      * cbn [fst]. by apply sublist_inserts_r.
      * eapply Forall_impl; [exact Hr|]. intros r Hr0. by apply sublist_inserts_r.
    + by right.
Qed.

Lemma shared_out_reachable (ws : list (option pystr)) (h : hub) :
  rtc hub_step (Hub ws [] [] true) h -> shared_out ws h.
Proof.
  intros Hsteps.
  assert (Hinit : shared_out ws (Hub ws [] [] true)).
  { exists []. repeat split; [done|constructor|by left]. }
  revert Hinit. induction Hsteps as [h|h1 h2 h3 Hstep _ IH]; [done|].
  intros H1. apply IH. by eapply shared_out_step.
Qed.

(** X18.  Readers of the same run share its events out: however the
    executor's writes, the connections and the reads interleave, what has
    left the queue is the first part of what the executor writes, every item
    of it has gone to exactly one reader, and each reader has yielded its
    items in the order they were written.  No reader sees an event another
    reader has taken. *)
Theorem readers_share_the_stream (ws : list (option pystr)) (h : hub) :
  rtc hub_step (Hub ws [] [] true) h ->
  exists taken,
    ws = taken ++ waiting h ++ unwritten h
    /\ map Some (yielded h) ++ replicate (closed_readers h) None ≡ₚ taken
    /\ Forall (fun r => sublist (map Some r.1) ws) (readers h).
Proof.
  intros (taken & Hws & Hperm & Hsub & _)%shared_out_reachable.
  exists taken. split; [done|]. split; [done|].
  eapply Forall_impl; [exact Hsub|]. intros r Hr. rewrite Hws.
  by apply sublist_inserts_r.
Qed.

Lemma marker_last (xs : list pystr) (taken rest : list (option pystr)) :
  map Some xs ++ [None] = taken ++ rest -> count is_marker taken <= 1
  /\ (count is_marker taken = 1 -> rest = []).
Proof.
  intros Heq.
  assert (Hcount : count is_marker taken + count is_marker rest = 1).
  { rewrite <- count_app, <- Heq, count_app, count_marker_some. reflexivity. }
  split; [lia|]. intros Hone.
  destruct rest as [|z rest _] using rev_ind; [done|].
  rewrite app_assoc in Heq. apply app_inj_tail in Heq as [_ <-].
  rewrite count_app in Hcount. cbn in Hcount. lia.
Qed.

Section OneSentinel.
Variable interp : interpreter.
Variable reka : nat -> pystr -> outcome pystr.
Variable tavily : pystr -> outcome (list hit).
Variable py_repr : json -> pystr.

(** X19.  A run has one sentinel, so one reader at most leaves its loop.
    When several generators read the queue of a run, however their reads
    interleave with the executor's writes: at most one of them takes the
    sentinel; when it has, everything the executor wrote has been taken,
    the run is no longer listed, so a later request to [stream] is answered
    404, and nothing can happen any more: every other reader waits on the
    empty queue for ever. *)
Theorem one_reader_ends (topic : pystr) (include_voice : bool) (st : state)
    (h : hub) :
  rtc hub_step
      (Hub (queue (_run_pipeline interp reka tavily py_repr topic include_voice
                     (State [] (printed st) (reka_calls st) (tavily_calls st))))
           [] [] true) h ->
  closed_readers h <= 1
  /\ (closed_readers h = 1 ->
      unwritten h = [] /\ waiting h = [] /\ listed h = false
      /\ forall h', ~ hub_step h h').
Proof.
  intros (taken & Hws & Hperm & _ & Hlisted)%shared_out_reachable.
  destruct (run_pipeline_writes interp reka tavily py_repr (fun _ => true)
              ltac:(done) topic include_voice
              (State [] (printed st) (reka_calls st) (tavily_calls st))
              ltac:(done)) as (logs & final & Hq & _ & _).
  cbn [queue app] in Hq. rewrite Hq in Hws.
  change (map Some logs ++ [Some final; None])
    with (map Some logs ++ [Some final] ++ [None]) in Hws.
  rewrite app_assoc in Hws.
  change [Some final] with (map Some [final]) in Hws. rewrite <- map_app in Hws.
  apply marker_last in Hws as [Hle Hend].
  assert (Hc : count is_marker taken = closed_readers h).
  { rewrite <- (count_Permutation _ _ _ Hperm), count_app, count_marker_some.
    apply count_replicate_marker. }
  rewrite Hc in Hle, Hend. split; [exact Hle|]. intros Hone.
  specialize (Hend Hone). apply app_eq_nil in Hend as [Hw Hu].
  destruct Hlisted as [Hzero|Hl]; [lia|].
  split; [done|]. split; [done|]. split; [done|].
  intros h' Hstep. destruct Hstep; cbn [unwritten waiting listed] in *; discriminate.
Qed.

End OneSentinel.

(** ** Sample runs of the further properties *)

(** A reasoning service that answers every request with the same prose. *)
Lemma prose_tolerated (n : nat) (message : pystr) :
  exists text,
    (fun (_ : nat) (_ : pystr) => Ret (py "Demand is up; supply is tight.")) n message
    = Ret text
    /\ tolerated sample_interpreter (strip text).
Proof. eexists. split; [reflexivity|]. left. left. vm_compute. reflexivity. Qed.

Lemma command_line_sends_same_requests_witness :
  calls empty_state = calls empty_state
  /\ calls (_run_pipeline sample_interpreter sample_reka sample_tavily (fun _ => [])
              (py "AI hardware market") true empty_state)
     = calls (run_pipeline sample_interpreter sample_reka sample_tavily (fun _ => [])
                (py "2026-11-04 09:00") (py "AI hardware market") true empty_state).2.
Proof.
  split; [reflexivity|].
  exact (command_line_sends_same_requests sample_interpreter sample_reka sample_tavily (fun _ => [])
           (py "2026-11-04 09:00") (py "AI hardware market") true
           empty_state empty_state eq_refl).
Defined.

Lemma command_line_renders_what_is_sent_witness :
  exists report st1',
    (calls empty_state = calls empty_state
     /\ run_pipeline sample_interpreter sample_reka sample_tavily (fun _ => []) (py "2026-11-04 09:00")
          (py "AI hardware market") true empty_state
        = (Ret report, st1'))
    /\ report <> ABORTED
    /\ exists final st0,
         _run_pipeline sample_interpreter sample_reka sample_tavily (fun _ => [])
           (py "AI hardware market") true empty_state
         = put None (put (Some final) st0)
         /\ is_done final = true.
Proof.
  destruct (run_pipeline sample_interpreter sample_reka sample_tavily (fun _ => []) (py "2026-11-04 09:00")
              (py "AI hardware market") true empty_state)
    as [[report|e] st1'] eqn:Hrun; [|vm_compute in Hrun; discriminate].
  exists report, st1'. split; [split; reflexivity|].
  assert (Hreport : report <> ABORTED).
  { intros ->. vm_compute in Hrun. discriminate. }
  split; [exact Hreport|].
  destruct (command_line_renders_what_is_sent sample_interpreter sample_reka sample_tavily (fun _ => [])
              (py "2026-11-04 09:00") (py "AI hardware market") true
              empty_state empty_state st1' report eq_refl Hrun)
    as (final & st0 & Hweb & [[Habort _]|(a & t & s & r & v & st0' & -> & _)]).
  - destruct (Hreport Habort).
  - eexists _, st0. split; [exact Hweb|]. apply has_kind_sse.
Defined.

Lemma render_report_returns_witness :
  (usable sample_trends /\ usable (JObj []) /\ usable sample_risks)
  /\ exists report,
       render_report (fun _ => []) (py "2026-11-04 09:00") (py "AI hardware market")
         [] sample_trends (JObj []) sample_risks (Some []) empty_state
       = (Ret report, empty_state)
       /\ (Some (@nil N) = Some [] ->
           render_report (fun _ => []) (py "2026-11-04 09:00")
             (py "AI hardware market") [] sample_trends (JObj []) sample_risks None
             empty_state
           = (Ret report, empty_state)).
Proof.
  assert (Ht : usable sample_trends).
  { eexists. split; [reflexivity|].
    constructor; [eexists [_; _; _]; reflexivity|].
    constructor; [eexists [_]; reflexivity|constructor]. }
  assert (Hs : usable (JObj [])) by (eexists; split; [reflexivity|constructor]).
  assert (Hr : usable sample_risks).
  { eexists. split; [reflexivity|].
    do 3 (constructor; [eexists [_]; reflexivity|]). constructor. }
  split; [split; [exact Ht|split; [exact Hs|exact Hr]]|].
  exact (render_report_returns (fun _ => []) (py "2026-11-04 09:00")
           (py "AI hardware market") [] sample_trends (JObj []) sample_risks
           (Some []) empty_state Ht Hs Hr).
Defined.

Lemma command_line_returns_report_witness :
  let reka := fun (_ : nat) (_ : pystr) => Ret (py "Demand is up; supply is tight.") in
  let run :=
    run_pipeline sample_interpreter reka sample_tavily (fun _ => [])
      (py "2026-11-04 09:00") (py "AI hardware market") true empty_state in
  ((forall n message,
      exists text, reka n message = Ret text
                   /\ tolerated sample_interpreter (strip text))
   /\ sample_tavily (py "AI hardware market") = Ret sample_hits
   /\ sample_hits <> []
   /\ printable empty_state run.2)
  /\ exists report st', run = (Ret report, st') /\ last (printed st') = Some report.
Proof.
  intros reka run.
  assert (Hne : sample_hits <> []) by discriminate.
  assert (Hprint : printable empty_state run.2) by (vm_compute; reflexivity).
  split; [split; [exact prose_tolerated|split; [reflexivity|split; [exact Hne|exact Hprint]]]|].
  destruct (command_line_returns_report sample_interpreter reka sample_tavily (fun _ => [])
              (py "2026-11-04 09:00") prose_tolerated (py "AI hardware market") true
              sample_hits empty_state eq_refl Hne Hprint)
    as (report & st' & _ & _ & _ & _ & _ & _ & Hrun & Hlast & _).
  exists report, st'. split; [exact Hrun|exact Hlast].
Defined.

Lemma readers_share_the_stream_witness :
  let a := py "first" in
  let b := py "second" in
  let h := Hub [] [] [([a], true); ([b], false)] false in
  rtc hub_step (Hub [Some a; Some b; None] [] [] true) h
  /\ exists taken,
       [Some a; Some b; None] = taken ++ waiting h ++ unwritten h
       /\ map Some (yielded h) ++ replicate (closed_readers h) None ≡ₚ taken
       /\ Forall (fun r => sublist (map Some r.1) [Some a; Some b; None]) (readers h).
Proof.
  intros a b h.
  assert (Hsteps : rtc hub_step (Hub [Some a; Some b; None] [] [] true) h).
  { eapply rtc_l; [apply hub_connect|]. eapply rtc_l; [apply hub_connect|].
    eapply rtc_l; [apply hub_put|]. eapply rtc_l; [apply hub_put|].
    eapply rtc_l; [apply (hub_yield 0 []); reflexivity|].
    eapply rtc_l; [apply (hub_yield 1 []); reflexivity|].
    eapply rtc_l; [apply hub_put|].
    eapply rtc_l; [apply (hub_close 0 [a]); reflexivity|].
    apply rtc_refl. }
  split; [exact Hsteps|].
  exact (readers_share_the_stream [Some a; Some b; None] h Hsteps).
Defined.

Lemma aborted_queue (topic : pystr) :
  queue (_run_pipeline sample_interpreter sample_reka (fun _ => Ret []) (fun _ => []) topic true empty_state)
  = aborted_stream topic.
Proof. reflexivity. Qed.

Lemma one_reader_ends_witness :
  let topic := py "AI hardware market" in
  let run := _run_pipeline sample_interpreter sample_reka (fun _ => Ret []) (fun _ => []) topic true
               (State [] (printed empty_state) (reka_calls empty_state)
                  (tavily_calls empty_state)) in
  let h := Hub [] [] [(omap id (take 2 (aborted_stream topic)), true);
                      (omap id (drop 2 (aborted_stream topic)), false)] false in
  rtc hub_step (Hub (queue run) [] [] true) h
  /\ closed_readers h <= 1
  /\ (closed_readers h = 1 ->
      unwritten h = [] /\ waiting h = [] /\ listed h = false
      /\ forall h', ~ hub_step h h').
Proof.
  intros topic run h.
  assert (Hsteps : rtc hub_step (Hub (queue run) [] [] true) h).
  { subst run. change (State [] (printed empty_state) (reka_calls empty_state)
                         (tavily_calls empty_state)) with empty_state.
    rewrite aborted_queue. unfold aborted_stream.
    eapply rtc_l; [apply hub_connect|]. eapply rtc_l; [apply hub_connect|].
    do 5 (eapply rtc_l; [apply hub_put|]).
    eapply rtc_l; [eapply (hub_yield 0); reflexivity|].
    eapply rtc_l; [eapply (hub_yield 0); reflexivity|].
    eapply rtc_l; [eapply (hub_yield 1); reflexivity|].
    eapply rtc_l; [eapply (hub_yield 1); reflexivity|].
    eapply rtc_l; [eapply (hub_yield 1); reflexivity|].
    eapply rtc_l; [apply hub_put|].
    eapply rtc_l; [eapply (hub_close 0); reflexivity|].
    apply rtc_refl. }
  split; [exact Hsteps|].
  exact (one_reader_ends sample_interpreter sample_reka (fun _ => Ret []) (fun _ => []) topic true
           empty_state h Hsteps).
Defined.

Lemma malformed_response_recovered_witness :
  let reka := fun (_ : nat) (_ : pystr) => Ret (py "Demand is up; supply is tight.") in
  let run :=
    _run_pipeline sample_interpreter reka sample_tavily (fun _ => [])
      (py "AI hardware market") true empty_state in
  ((forall n message,
      exists text, reka n message = Ret text
                   /\ tolerated sample_interpreter (strip text))
   /\ sample_tavily (py "AI hardware market") = Ret sample_hits
   /\ sample_hits <> []
   /\ printable empty_state run)
  /\ exists logs payload,
       queue run = map Some logs ++ [Some (_sse (py "done") payload); None]
       /\ forallb is_log logs = true.
Proof.
  intros reka run.
  assert (Hne : sample_hits <> []) by discriminate.
  assert (Hprint : printable empty_state run) by (vm_compute; reflexivity).
  split; [split; [exact prose_tolerated|split; [reflexivity|split; [exact Hne|exact Hprint]]]|].
  exact (malformed_response_recovered sample_interpreter reka sample_tavily (fun _ => [])
           prose_tolerated (py "AI hardware market") true sample_hits empty_state
           eq_refl Hne Hprint).
Defined.

(** ** A response of the wrong shape, in general *)

Lemma fails_now {A B} (m : M A) (k : A -> M B) (Q : exn -> Prop) :
  fails m Q -> fails (m ≫= k) Q.
Proof.
  intros Hm st. destruct (Hm st) as (e & st1 & Hrun & Hext & He).
  exists e, st1. by rewrite bind_run, Hrun.
Qed.

Lemma fails_after {A B} (m : M A) (k : A -> M B) (P : A -> Prop) (Q : exn -> Prop) :
  keeps is_log m -> returns m P -> (forall a, P a -> fails (k a) Q) ->
  fails (m ≫= k) Q.
Proof.
  intros Hkeeps Hm Hk st. destruct (Hm st) as (a & st1 & Hrun & Ha).
  specialize (Hkeeps st). rewrite bind_run, Hrun in *. cbn [snd] in Hkeeps.
  destruct (Hk a Ha st1) as (e & st2 & -> & Hext & He).
  exists e, st2. split; [done|]. split; [|done].
  by eapply extends_trans.
Qed.

Section WrongShape.
Variable interp : interpreter.
Variable reka : nat -> pystr -> outcome pystr.
Variable tavily : pystr -> outcome (list hit).
Variable py_repr : json -> pystr.

(** The service answers every request; its answer to a request of the
    Trend stage is [reply], which decodes to [v], and [v] is not a
    mapping. *)
Variable reply : pystr.
Variable v : json.
Hypothesis reka_answers : forall n message, exists text, reka n message = Ret text.
Hypothesis trend_reply :
  forall n user, reka n (chat_message TREND_SYSTEM user) = Ret reply.
Hypothesis reply_decodes : _parse_json interp (strip reply) = Loaded v.
Hypothesis reply_not_mapping : not_a_mapping v.

Lemma data_agent_some (topic : pystr) (emit : Emitter) (hits : list hit) :
  tavily topic = Ret hits -> hits <> [] ->
  returns (data_agent reka tavily topic emit) (fun arts => arts <> []).
Proof.
  intros Hsearch Hne st. unfold data_agent. rewrite bind_run.
  destruct (log_returns emit (py "[Data Agent] " ++ MAGNIFIER
                              ++ py " Searching news for: '" ++ topic ++ py "' ...") st)
    as (st1 & ->).
  rewrite bind_run. unfold search at 1. rewrite Hsearch.
  destruct hits as [|h hits']; [done|].
  match goal with |- context [summarise reka emit ?items [] ?s] =>
    destruct (summarise_returns reka emit items reka_answers [] s) as (arts & st2 & Hrun)
  end.
  exists arts, st2. split; [exact Hrun|].
  apply summarise_articles in Hrun as (new & -> & Hh & _).
  cbn [app]. intros ->. discriminate Hh.
Qed.

Lemma trend_agent_fails (articles : list article) :
  fails (trend_agent interp reka py_repr articles (Some emit_q))
        (fun e => e = no_attribute v (py "get")).
Proof.
  unfold trend_agent.
  eapply fails_after;
    [apply keeps_log, has_kind_sse|apply returns_log|]. intros _ _.
  eapply (fails_after _ _ (fun raw => raw = strip reply)).
  { apply keeps_chat. }
  { intros st. unfold _chat. cbv zeta.
    match goal with |- context [reka ?n (?a ++ ?b ++ ?c ++ ?d ++ ?e ++ ?user)] =>
      change (a ++ b ++ c ++ d ++ e ++ user) with (chat_message TREND_SYSTEM user)
    end.
    rewrite trend_reply. eauto. }
  intros raw ->.
  eapply (fails_after _ _ (fun result => result = v)).
  { intros st. apply extends_refl. }
  { apply (returns_lift _ v); [|done]. unfold extract. by rewrite reply_decodes. }
  intros result ->. apply fails_now.
  unfold log_entries. apply fails_now.
  intros st. exists (no_attribute v (py "get")), st.
  split; [|split; [apply extends_refl|done]].
  unfold lift. destruct v; try reflexivity. by destruct (reply_not_mapping pairs).
Qed.

(** X22.  The wrong top-level shape, in general.  When the search gives a
    hit, the service answers every request and its answer to the Trend
    request decodes to a value that is not a mapping (a list, a string, a
    number, [true], [false] or [null]), no fallback replaces it: the run
    writes [log] events, then the error event that reports the missing
    attribute [get] of that value, then the sentinel; it never writes
    [done].  The property is for a run of which standard output accepts
    every line ([printable]). *)
Theorem wrong_shape_always_surfaces (topic : pystr) (include_voice : bool)
    (hits : list hit) (st : state) :
  tavily topic = Ret hits -> hits <> [] ->
  printable st (_run_pipeline interp reka tavily py_repr topic include_voice st) ->
  exists logs,
    queue (_run_pipeline interp reka tavily py_repr topic include_voice st)
    = queue st ++ map Some logs
      ++ [Some (_sse (py "error")
                  (py "Pipeline error: '" ++ type_name v
                   ++ py "' object has no attribute 'get'"));
          None]
    /\ forallb is_log logs = true.
Proof.
  intros Hsearch Hne _.
  assert (Hbody : fails (pipeline_body interp reka tavily py_repr topic include_voice)
                    (fun e => e = no_attribute v (py "get"))).
  { unfold pipeline_body.
    eapply fails_after;
      [apply keeps_emit, has_kind_sse|apply returns_emit|]. intros _ _.
    eapply fails_after;
      [apply keeps_emit, has_kind_sse|apply returns_emit|]. intros _ _.
    eapply fails_after;
      [apply keeps_data_agent, is_log_any|by eapply data_agent_some|].
    intros [|art arts] Harts; [done|].
    eapply fails_after;
      [apply keeps_emit, has_kind_sse|apply returns_emit|]. intros _ _.
    apply fails_now. apply trend_agent_fails. }
  unfold _run_pipeline.
  destruct (Hbody st) as (e & st1 & -> & (logs & Hq & Hlogs) & ->).
  exists logs. split; [|done].
  cbn [queue put exn_msg no_attribute]. rewrite Hq, <- !app_assoc. reflexivity.
Qed.

End WrongShape.

Lemma wrong_shape_always_surfaces_witness :
  let reka := fun (_ : nat) (_ : pystr) => Ret (py "  " ++ list_reply) in
  let v := JArr [JStr (py "Chip demand grows"); JStr (py "Supply tightens")] in
  let run :=
    _run_pipeline sample_interpreter reka sample_tavily (fun _ => [])
      (py "AI hardware market") true empty_state in
  ((forall n message, exists text, reka n message = Ret text)
   /\ (forall n user,
         reka n (chat_message TREND_SYSTEM user) = Ret (py "  " ++ list_reply))
   /\ _parse_json sample_interpreter (strip (py "  " ++ list_reply)) = Loaded v
   /\ not_a_mapping v
   /\ sample_tavily (py "AI hardware market") = Ret sample_hits
   /\ sample_hits <> []
   /\ printable empty_state run)
  /\ exists logs,
       queue run
       = map Some logs
         ++ [Some (_sse (py "error")
                     (py "Pipeline error: 'list' object has no attribute 'get'"));
             None]
       /\ forallb is_log logs = true.
Proof.
  intros reka v run.
  assert (Hanswers : forall n message, exists text, reka n message = Ret text)
    by (intros; eexists; reflexivity).
  assert (Hreply : forall n user,
             reka n (chat_message TREND_SYSTEM user) = Ret (py "  " ++ list_reply))
    by reflexivity.
  assert (Hdecodes : _parse_json sample_interpreter (strip (py "  " ++ list_reply))
                     = Loaded v) by (vm_compute; reflexivity).
  assert (Hv : not_a_mapping v) by (intros d; discriminate).
  assert (Hne : sample_hits <> []) by discriminate.
  assert (Hprint : printable empty_state run) by (vm_compute; reflexivity).
  split.
  { split; [exact Hanswers|]. split; [exact Hreply|]. split; [exact Hdecodes|].
    split; [exact Hv|]. split; [reflexivity|]. split; [exact Hne|exact Hprint]. }
  exact (wrong_shape_always_surfaces sample_interpreter reka sample_tavily
           (fun _ => []) (py "  " ++ list_reply) v Hanswers Hreply Hdecodes Hv
           (py "AI hardware market") true sample_hits empty_state eq_refl Hne Hprint).
Defined.

(** ** Values of other shapes under the expected keys *)

Section OtherShapes.
Variable py_repr : json -> pystr.

(** X24.  A string where a list of strings is expected does not fail, it
    is taken character by character: the bullets of the next prompt are
    one per character of the string, and the joined text of the voice
    brief is its characters with the separator between them. *)
Theorem string_taken_by_character (d : list (pystr * json)) (key s sep : pystr)
    (st : state) :
  dict_lookup key d = Some (JStr s) ->
  bullets py_repr (JObj d) key st
  = (Ret (join NL (map (fun c => py "- " ++ [c]) s)), st)
  /\ joined sep (JObj d) key st = (Ret (join sep (map (fun c => [c]) s)), st).
Proof.
  intros Hkey. unfold bullets, joined, lift, py_get. rewrite Hkey.
  rewrite !bind_run. cbn [py_iter]. split.
  - cbv [mret M_ret]. by rewrite map_map.
  - unfold py_join. cbn [py_iter].
    rewrite <- (map_map (fun c => [c]) JStr), expect_strs_strings. reflexivity.
Qed.

End OtherShapes.

Lemma string_taken_by_character_witness :
  let d := [(py "trends", JStr (py "AI"))] in
  dict_lookup (py "trends") d = Some (JStr (py "AI"))
  /\ bullets (fun _ => []) (JObj d) (py "trends") empty_state
     = (Ret (py "- A" ++ NL ++ py "- I"), empty_state)
  /\ joined (py " | ") (JObj d) (py "trends") empty_state
     = (Ret (py "A | I"), empty_state).
Proof.
  intros d. split; [reflexivity|].
  exact (string_taken_by_character (fun _ => []) d (py "trends") (py "AI") (py " | ")
           empty_state eq_refl).
Defined.
